(** * cardinal_pythonlib.sphinxtools: a shallow embedding and its properties

    The development models [cardinal_pythonlib/sphinxtools.py]: the helper
    functions ([rst_underline], [fail], [write_if_allowed]), the class
    [FileToAutodocument] (one source file and the RST page written for it) and
    the class [AutodocIndex] (one index page over files and nested indexes).

    Python strings are lists of characters ([list ascii], code points below
    256).  Raised exceptions are values of [exn]; logging calls and
    filesystem writes are recorded, in program order, as a trace of [event]s.
    The parts of Python's standard library that the module calls
    ([os.path], [str] methods, [fnmatch]) are modelled after CPython's
    [posixpath], [genericpath] and [fnmatch] modules.  The filesystem is a
    map from places (the components of an absolute path) to files and
    directories; a path is read as the kernel reads it, one component at a
    time from the root or the working directory, without symbolic links. *)

From Stdlib Require Import List Ascii String ZArith Lia Bool Sorted Permutation DecimalString.
From stdpp Require Import base option list gmap strings sorting.
Import ListNotations.
Open Scope string_scope.
Open Scope list_scope.

#[local] Unset Default Proof Using.

(** ** Python strings *)

Abbreviation str := (list ascii).

Coercion list_ascii_of_string : string >-> list.

Module PyStr.

Definition NL : ascii := "010"%char.

Definition chr_ltb (a b : ascii) : bool := (N_of_ascii a <? N_of_ascii b)%N.

Definition str_eqb (a b : str) : bool := bool_decide (a = b).

(** Python compares sequences by the first position at which they differ;
    a proper prefix is smaller. *)
Fixpoint lex_ltb {A : Type} (eqb ltb : A -> A -> bool) (l1 l2 : list A) : bool :=
  match l1, l2 with
  | [], [] => false
  | [], _ :: _ => true
  | _ :: _, [] => false
  | x :: t1, y :: t2 => if eqb x y then lex_ltb eqb ltb t1 t2 else ltb x y
  end.

Definition str_ltb : str -> str -> bool := lex_ltb Ascii.eqb chr_ltb.

Definition str_leb (a b : str) : bool := negb (str_ltb b a).

(** [s.startswith(prefix)] *)
Fixpoint startswith (s prefix : str) {struct prefix} : bool :=
  match prefix, s with
  | [], _ => true
  | _ :: _, [] => false
  | a :: p', b :: s' => Ascii.eqb a b && startswith s' p'
  end.

(** [s.endswith(suffix)] *)
Definition endswith (s suffix : str) : bool := startswith (rev s) (rev suffix).

(** [s.split(sep)] for a one-character separator. *)
Fixpoint split (s : str) (sep : ascii) : list str :=
  match s with
  | [] => [[]]
  | c :: s' =>
      if Ascii.eqb c sep then [] :: split s' sep
      else match split s' sep with
           | [] => [[c]]
           | hd :: tl => (c :: hd) :: tl
           end
  end.

(** [sep.join(parts)] *)
Fixpoint str_join (sep : str) (parts : list str) : str :=
  match parts with
  | [] => []
  | [x] => x
  | x :: rest => x ++ sep ++ str_join sep rest
  end.

(** [s.rfind(c)]: the index of the last occurrence of [c], or [-1]. *)
Fixpoint rfind_aux (c : ascii) (s : str) (i found : Z) : Z :=
  match s with
  | [] => found
  | x :: s' => rfind_aux c s' (i + 1)%Z (if Ascii.eqb x c then i else found)
  end.

Definition rfind (s : str) (c : ascii) : Z := rfind_aux c s 0%Z (-1)%Z.

(** [s.find(c, start)]: the index of the first occurrence of [c] at or after
    [start], or [-1]. *)
Fixpoint find_aux (c : ascii) (s : str) (i start : Z) : Z :=
  match s with
  | [] => (-1)%Z
  | x :: s' =>
      if (start <=? i)%Z && Ascii.eqb x c then i
      else find_aux c s' (i + 1)%Z start
  end.

Definition find (s : str) (c : ascii) (start : Z) : Z := find_aux c s 0%Z start.

(** Slices [s[:i]], [s[i:]] and [s[i:j]] for indexes that are not negative. *)
Definition upto (s : str) (i : Z) : str := take (Z.to_nat i) s.
Definition from (s : str) (i : Z) : str := drop (Z.to_nat i) s.
Definition slice (s : str) (i j : Z) : str := drop (Z.to_nat i) (take (Z.to_nat j) s).

(** [str.isspace] on one character: the white space stripped by [strip()]. *)
Definition isspace (c : ascii) : bool :=
  let n := N_of_ascii c in
  ((9 <=? n) && (n <=? 13) || (28 <=? n) && (n <=? 32)
   || (n =? 133) || (n =? 160))%N.

Fixpoint lstrip (s : str) : str :=
  match s with
  | [] => []
  | c :: s' => if isspace c then lstrip s' else s
  end.

Definition rstrip (s : str) : str := rev (lstrip (rev s)).

(** [s.strip()] *)
Definition strip (s : str) : str := rstrip (lstrip s).

(** [s.rstrip(chars)] for a one-character [chars]. *)
Fixpoint lstrip_chr (c : ascii) (s : str) : str :=
  match s with
  | [] => []
  | x :: s' => if Ascii.eqb x c then lstrip_chr c s' else s
  end.

Definition rstrip_chr (s : str) (c : ascii) : str := rev (lstrip_chr c (rev s)).

(** [s * n] *)
Fixpoint str_mul (s : str) (n : nat) : str :=
  match n with
  | O => []
  | S k => s ++ str_mul s k
  end.

(** [c in s] for a character [c]. *)
Definition contains_chr (s : str) (c : ascii) : bool := existsb (Ascii.eqb c) s.

(** [min(m)] and [max(m)] of a non-empty list of sequences: the first
    smallest and the first largest element. *)
Definition seq_min {A : Type} (ltb : A -> A -> bool) (x : A) (rest : list A) : A :=
  fold_left (fun m y => if ltb y m then y else m) rest x.

Definition seq_max {A : Type} (ltb : A -> A -> bool) (x : A) (rest : list A) : A :=
  fold_left (fun m y => if ltb m y then y else m) rest x.

End PyStr.

Import PyStr.

(** ** Exceptions, log records, events *)

(** A message is a format string with the values formatted into it
    (the [{!r}] fields), kept apart. *)
Record message := Msg { msg_fmt : str; msg_args : list str }.

Inductive exn :=
| AssertionError (m : message)
| RuntimeError (m : message)
| ValueError (m : message)
| OSError (m : message).

Inductive level := DEBUG | INFO | WARNING | CRITICAL.

(** What a run does to the outside world, in program order: a call of the
    module's logger, a directory made sure of ([mkdir_p]), a file written. *)
Inductive event :=
| EvLog (lvl : level) (m : message)
| EvMkdir (directory : str)
| EvWrite (filename content : str).

Inductive res (A : Type) :=
| Ok (a : A)
| Raise (e : exn).
Arguments Ok {A} a.
Arguments Raise {A} e.

(** Code that may log and may raise: its result and the events of the run. *)
Definition W (A : Type) : Type := res A * list event.

Definition ret {A : Type} (a : A) : W A := (Ok a, []).

Definition raise {A : Type} (e : exn) : W A := (Raise e, []).

Definition bind {A B : Type} (m : W A) (k : A -> W B) : W B :=
  match m with
  | (Ok a, t) => let '(r, t') := k a in (r, t ++ t')
  | (Raise e, t) => (Raise e, t)
  end.

Notation "x <- m ;; k" := (bind m (fun x => k))
  (at level 100, m at next level, right associativity).
Notation "m ;;; k" := (bind m (fun _ => k))
  (at level 100, right associativity).

Definition emit (e : event) : W unit := (Ok tt, [e]).

Definition log_debug (fmt : str) (args : list str) : W unit := emit (EvLog DEBUG (Msg fmt args)).
Definition log_info (fmt : str) (args : list str) : W unit := emit (EvLog INFO (Msg fmt args)).
Definition log_warning (fmt : str) (args : list str) : W unit := emit (EvLog WARNING (Msg fmt args)).
Definition log_critical (fmt : str) (args : list str) : W unit := emit (EvLog CRITICAL (Msg fmt args)).

(** [assert cond, msg] *)
Definition assert (cond : bool) (m : message) : W unit :=
  if cond then ret tt else raise (AssertionError m).

(** [for x in xs: body(x)] *)
Fixpoint for_each {A : Type} (xs : list A) (body : A -> W unit) : W unit :=
  match xs with
  | [] => ret tt
  | x :: rest => body x ;;; for_each rest body
  end.

(** ** os.path (CPython's posixpath and genericpath) *)

Module posixpath.

Definition sep : ascii := "/"%char.
Definition extsep : ascii := "."%char.
Definition curdir : str := ".".
Definition pardir : str := "..".

Definition isabs (s : str) : bool := startswith s [sep].

Definition join2 (path b : str) : str :=
  if startswith b [sep] then b
  else if str_eqb path [] || endswith path [sep] then path ++ b
  else path ++ [sep] ++ b.

(** [join(a, *p)] *)
Definition join (a : str) (p : list str) : str := fold_left join2 p a.

Definition basename (p : str) : str :=
  let i := (rfind p sep + 1)%Z in
  from p i.

Definition dirname (p : str) : str :=
  let i := (rfind p sep + 1)%Z in
  let head := upto p i in
  if negb (str_eqb head []) && negb (str_eqb head (str_mul [sep] (length head)))
  then rstrip_chr head sep
  else head.

(** [splitext(p)]: the loop of [genericpath._splitext] returns the split at
    the last dot as soon as a character between the last separator and that
    dot is not a dot. *)
Definition splitext (p : str) : str * str :=
  let sepIndex := rfind p sep in
  let dotIndex := rfind p extsep in
  if (sepIndex <? dotIndex)%Z
     && existsb (fun c => negb (Ascii.eqb c extsep)) (slice p (sepIndex + 1) dotIndex)
  then (upto p dotIndex, from p dotIndex)
  else (p, []).

(** One turn of the loop of [normpath] over the components. *)
Definition normpath_step (initial_slashes : nat) (new_comps : list str) (comp : str)
  : list str :=
  if str_eqb comp [] || str_eqb comp curdir then new_comps
  else if negb (str_eqb comp pardir)
          || (Nat.eqb initial_slashes 0 && bool_decide (new_comps = []))
          || (negb (bool_decide (new_comps = []))
              && bool_decide (last new_comps = Some pardir))
       then new_comps ++ [comp]
       else removelast new_comps.

Definition normpath (path : str) : str :=
  if str_eqb path [] then curdir
  else
    let initial_slashes :=
      if startswith path [sep] then
        if startswith path [sep; sep] && negb (startswith path [sep; sep; sep])
        then 2 else 1
      else 0 in
    let comps := split path sep in
    let new_comps := fold_left (normpath_step initial_slashes) comps [] in
    let path := str_join [sep] new_comps in
    let path := str_mul [sep] initial_slashes ++ path in
    if str_eqb path [] then curdir else path.

(** The loop shared by [commonprefix] and [commonpath]: the longest prefix
    of [s1] on which [s2] agrees ([s1] is the minimum and [s2] the maximum,
    so [s2] is never the shorter of two that agree). *)
Fixpoint common_run (s1 s2 : list str) : list str :=
  match s1, s2 with
  | c :: t1, c2 :: t2 => if str_eqb c c2 then c :: common_run t1 t2 else []
  | _, _ => []
  end.

Definition comps_ltb : list str -> list str -> bool := lex_ltb str_eqb str_ltb.

(** [genericpath.commonprefix(m)] for a list of component lists. *)
Definition commonprefix (m : list (list str)) : list str :=
  match m with
  | [] => []
  | x :: rest => common_run (seq_min comps_ltb x rest) (seq_max comps_ltb x rest)
  end.

Definition commonpath (paths : list str) : W str :=
  match paths with
  | [] => raise (ValueError (Msg "commonpath() arg is an empty sequence" []))
  | p0 :: _ =>
      let split_paths := map (fun p => split p sep) paths in
      if forallb (fun p => eqb (isabs p) (isabs p0)) paths then
        let split_paths :=
          map (List.filter (fun c => negb (str_eqb c []) && negb (str_eqb c curdir)))
              split_paths in
        let common :=
          match split_paths with
          | [] => []
          | x :: rest => common_run (seq_min comps_ltb x rest) (seq_max comps_ltb x rest)
          end in
        let prefix := if isabs p0 then [sep] else [] in
        ret (prefix ++ str_join [sep] common)
      else raise (ValueError (Msg "Can't mix absolute and relative paths" []))
  end.

End posixpath.

(** ** fnmatch *)

Module fnmatch.

(** The pieces [fnmatch.translate] cuts a pattern into. *)
Inductive glob_tok :=
| GStar
| GAny
| GSet (stuff : str)
| GLit (c : ascii).

Fixpoint scan_close (s : str) : option nat :=
  match s with
  | [] => None
  | c :: s' => if Ascii.eqb c "]"%char then Some 0 else option_map S (scan_close s')
  end.

(** After an opening bracket: the text up to the bracket that closes the set
    (a leading [!] and a [\]] right after it belong to the set), or [None]
    when no bracket closes it. *)
Definition bracket_body (rest : str) : option str :=
  let j0 := if startswith rest "!" then 1 else 0 in
  let j1 := if startswith (drop j0 rest) "]" then S j0 else j0 in
  match scan_close (drop j1 rest) with
  | Some k => Some (take (j1 + k) rest)
  | None => None
  end.

(** [skip] characters of the pattern are already consumed (the inside of a
    set and its closing bracket). *)
Fixpoint tokens_from (skip : nat) (pat : str) : list glob_tok :=
  match pat with
  | [] => []
  | c :: rest =>
      match skip with
      | S k => tokens_from k rest
      | O =>
          if Ascii.eqb c "*"%char then GStar :: tokens_from 0 rest
          else if Ascii.eqb c "?"%char then GAny :: tokens_from 0 rest
          else if Ascii.eqb c "["%char then
            match bracket_body rest with
            | Some stuff => GSet stuff :: tokens_from (S (length stuff)) rest
            | None => GLit c :: tokens_from 0 rest
            end
          else GLit c :: tokens_from 0 rest
      end
  end.

Section Match.

(** Whether the set written [[stuff]] in a pattern holds a character: the
    reading of ranges and negation is that of the regular expression
    [translate] builds. *)
Variable charset_matches : str -> ascii -> bool.

(** A match of the whole name: a star stands for any run of characters. *)
Fixpoint match_toks (ts : list glob_tok) (name : str) : bool :=
  match ts with
  | [] => match name with [] => true | _ :: _ => false end
  | GStar :: ts' =>
      (fix star (n : str) : bool :=
         match_toks ts' n
         || match n with
            | [] => false
            | _ :: n' => star n'
            end) name
  | GAny :: ts' =>
      match name with
      | [] => false
      | _ :: n' => match_toks ts' n'
      end
  | GSet stuff :: ts' =>
      match name with
      | [] => false
      | c :: n' => charset_matches stuff c && match_toks ts' n'
      end
  | GLit a :: ts' =>
      match name with
      | [] => false
      | c :: n' => Ascii.eqb a c && match_toks ts' n'
      end
  end.

(** [fnmatch(name, pat)]; [os.path.normcase] changes nothing on POSIX. *)
Definition fnmatch (name pat : str) : bool := match_toks (tokens_from 0 pat) name.

End Match.

End fnmatch.

(** ** The process environment and the filesystem *)

(** What [os.getcwd], [os.environ] and the [pwd] database answer. *)
Record os_env := {
  getcwd : str;
  environ_HOME : option str;
  getpwuid_dir : option str;
  getpwnam_dir : str -> option str
}.

Inductive node :=
| File (content : str)
| Dir.

(** Files and directories by the components of their absolute path; the
    root directory [[]] is always there. *)
Abbreviation filesystem := (gmap (list str) node).

Definition lookup_node (fs : filesystem) (k : list str) : option node :=
  match k with
  | [] => Some Dir
  | _ :: _ => fs !! k
  end.

(** Code that also reads and writes the filesystem. *)
Definition M (A : Type) : Type := filesystem -> W A * filesystem.

Definition mret {A : Type} (a : A) : M A := fun fs => (ret a, fs).

Definition mbind {A B : Type} (m : M A) (k : A -> M B) : M B :=
  fun fs =>
    match m fs with
    | ((Ok a, t), fs1) =>
        match k a fs1 with
        | ((r, t'), fs2) => ((r, t ++ t'), fs2)
        end
    | ((Raise e, t), fs1) => ((Raise e, t), fs1)
    end.

Definition liftW {A : Type} (w : W A) : M A := fun fs => (w, fs).

Notation "x <~ m ;; k" := (mbind m (fun x => k))
  (at level 100, m at next level, right associativity).
Notation "m ;;~ k" := (mbind m (fun _ => k))
  (at level 100, right associativity).

(** [for x in xs: body(x)] over the filesystem. *)
Definition mfor_each {A : Type} (xs : list A) (body : A -> M unit) : M unit :=
  (fix loop (xs : list A) : M unit :=
     match xs with
     | [] => mret tt
     | x :: rest => body x ;;~ loop rest
     end) xs.

Module FileToAutodocument.

Inductive AutodocMethod := BEST | CONTENTS | AUTOMODULE.

(** The attributes [__init__] sets. *)
Record t := Build {
  source_filename : str;
  project_root_dir : str;
  target_rst_filename : str;
  method : AutodocMethod;
  source_rst_title_style_python : bool;
  python_package_root_dir : str;
  pygments_language_override : gmap str str
}.

End FileToAutodocument.

Export FileToAutodocument (AutodocMethod, BEST, CONTENTS, AUTOMODULE).

Module AutodocIndex.

(** An entry of [files_to_index]: a file, a sub-index, or (the list is not
    type-checked at run time) anything else. *)
Inductive entry (I : Type) :=
| EFile (f : FileToAutodocument.t)
| EIndex (i : I)
| EOther (repr : str).
Arguments EFile {I} f.
Arguments EIndex {I} i.
Arguments EOther {I} repr.

#[warnings="-register-all"]
Inductive t := Build {
  index_filename : str;
  title : str;
  project_root_dir : str;
  autodoc_rst_root_dir : str;
  highest_code_dir : str;
  python_package_root_dir : str;
  index_heading_underline_char : str;
  source_rst_heading_underline_char : str;
  recursive : bool;
  skip_globs : list str;
  toctree_maxdepth : Z;
  method : AutodocMethod;
  rst_prefix : str;
  rst_suffix : str;
  source_rst_title_style_python : bool;
  pygments_language_override : gmap str str;
  files_to_index : list (entry t)
}.

End AutodocIndex.

Export AutodocIndex (EFile, EIndex, EOther).

(** ** The module *)

Definition AUTOGENERATED_COMMENT : str :=
  ".. THIS FILE IS AUTOMATICALLY GENERATED. DO NOT EDIT.".
Definition DEFAULT_INDEX_TITLE : str := "Automatic documentation of source code".
Definition DEFAULT_SKIP_GLOBS : list str := ["__init__.py" : str].
Definition EXT_PYTHON : str := ".py".
Definition EXT_RST : str := ".rst".
Definition CODE_TYPE_NONE : str := "none".

(** A string, or a list of strings ([Union[str, List[str]]]). *)
Inductive filenames_or_globs :=
| OneName (s : str)
| ManyNames (l : list str).

(** The template of [rst_content], with its fields filled in. *)
Definition page_template (filename prefix underlined_title instruction suffix : str) : str :=
  [NL] ++ ".. " ++ filename ++ [NL]
  ++ "        " ++ [NL]
  ++ AUTOGENERATED_COMMENT ++ [NL]
  ++ [NL]
  ++ prefix ++ [NL]
  ++ [NL]
  ++ underlined_title ++ [NL]
  ++ [NL]
  ++ instruction ++ [NL]
  ++ [NL]
  ++ suffix ++ [NL]
  ++ "        ".

(** The template of [index_content], with its fields filled in. *)
Definition index_template (filename prefix underlined_title instruction suffix : str) : str :=
  [NL] ++ ".. " ++ filename ++ [NL]
  ++ [NL]
  ++ AUTOGENERATED_COMMENT ++ [NL]
  ++ [NL]
  ++ prefix ++ [NL]
  ++ [NL]
  ++ underlined_title ++ [NL]
  ++ [NL]
  ++ instruction ++ [NL]
  ++ [NL]
  ++ suffix ++ [NL]
  ++ "                ".

(** [str(n)] for an integer. *)
Definition str_of_int (n : Z) : str :=
  list_ascii_of_string (DecimalString.NilZero.string_of_int (Z.to_int n)).

Definition nonempty (c : str) : bool := negb (str_eqb c []).

Section Sphinxtools.

Import posixpath.

Variable os : os_env.

(** [pygments.lexers.get_lexer_for_filename]: the name of the lexer found
    for a file name, [None] when it raises [ClassNotFound]. *)
Variable get_lexer_for_filename : str -> option str.

(** [glob.glob(pattern, recursive=...)]: the paths it yields, in its order. *)
Variable glob_glob : filesystem -> str -> bool -> list str.

(** The sets of [fnmatch] patterns (see [fnmatch.match_toks]). *)
Variable charset_matches : str -> ascii -> bool.

(** *** os.path, continued: what depends on the environment *)

Definition expanduser (path : str) : str :=
  if negb (startswith path "~") then path
  else
    let i := find path sep 1 in
    let i := if (i <? 0)%Z then Z.of_nat (length path) else i in
    let userhome :=
      if (i =? 1)%Z then
        match environ_HOME os with
        | Some h => Some h
        | None => getpwuid_dir os
        end
      else getpwnam_dir os (slice path 1 i) in
    match userhome with
    | None => path
    | Some userhome =>
        let userhome := rstrip_chr userhome sep in
        let r := userhome ++ from path i in
        if str_eqb r [] then [sep] else r
    end.

Definition abspath (path : str) : str :=
  if negb (isabs path) then normpath (join (getcwd os) [path])
  else normpath path.

Definition relpath (path start : str) : W str :=
  if str_eqb path [] then raise (ValueError (Msg "no path specified" []))
  else
    let start_list := List.filter nonempty (split (abspath start) sep) in
    let path_list := List.filter nonempty (split (abspath path) sep) in
    let i := length (commonprefix [start_list; path_list]) in
    let rel_list := repeat pardir (length start_list - i) ++ drop i path_list in
    match rel_list with
    | [] => ret curdir
    | a :: p => ret (join a p)
    end.

(** *** The filesystem as the kernel reads it *)

(** Path resolution without symbolic links: from the directory [cur], one
    component of the path at a time.  An empty component and [.] stay where
    they are, [..] goes to the parent (the root is its own parent), a name
    goes to the entry of that name; each step is taken from a directory, so
    a path through a file or through a missing directory resolves to
    nothing.  The result is the key of the entry the path names; the entry
    itself may be missing. *)
Fixpoint resolve (fs : filesystem) (cur comps : list str) : option (list str) :=
  match comps with
  | [] => Some cur
  | c :: rest =>
      match lookup_node fs cur with
      | Some Dir =>
          if str_eqb c [] || str_eqb c curdir then resolve fs cur rest
          else if str_eqb c pardir then resolve fs (removelast cur) rest
          else resolve fs (cur ++ [c]) rest
      | _ => None
      end
  end.

(** The directory a path is read from: the root for an absolute path, the
    working directory otherwise. *)
Definition start_dir (fs : filesystem) (path : str) : option (list str) :=
  if isabs path then Some [] else resolve fs [] (split (getcwd os) sep).

(** The filesystem entry a path names ([os.stat]); the empty path names
    nothing. *)
Definition stat (fs : filesystem) (path : str) : option node :=
  if str_eqb path [] then None
  else
    match start_dir fs path with
    | Some d =>
        match resolve fs d (split path sep) with
        | Some k => lookup_node fs k
        | None => None
        end
    | None => None
    end.

Definition path_exists (fs : filesystem) (path : str) : bool :=
  match stat fs path with
  | Some _ => true
  | None => false
  end.

Definition isfile (fs : filesystem) (path : str) : bool :=
  match stat fs path with
  | Some (File _) => true
  | _ => false
  end.

Definition isdir (fs : filesystem) (path : str) : bool :=
  match stat fs path with
  | Some Dir => true
  | _ => false
  end.

(** A component that names an entry: not empty, neither [.] nor [..]. *)
Definition is_name (c : str) : bool :=
  negb (str_eqb c []) && negb (str_eqb c curdir) && negb (str_eqb c pardir).

(** [with open(filename, "wt") as outfile: outfile.write(content)]: the
    path up to its last component is resolved to a directory, and the file
    of the name of the last component is made there, or truncated when it is
    there.  A directory cannot be opened for writing, nor can a path that
    ends in a slash, in [.] or in [..]. *)
Definition write_text (filename content : str) : M unit :=
  fun fs =>
    let comps := split filename sep in
    let name := List.last comps [] in
    let failed := (raise (OSError (Msg "open: {!r}" [filename])), fs) in
    match start_dir fs filename with
    | Some d =>
        match resolve fs d (removelast comps) with
        | Some parent =>
            match lookup_node fs parent, fs !! (parent ++ [name]) with
            | Some Dir, (None | Some (File _)) =>
                if is_name name
                then ((Ok tt, [EvWrite filename content]),
                      <[parent ++ [name] := File content]> fs)
                else failed
            | _, _ => failed
            end
        | None => failed
        end
    | None => failed
    end.

(** *** cardinal_pythonlib.fileops *)

(** Modelled from the spec: [relative_filename_within_dir] of
    [cardinal_pythonlib.fileops], which is not among the source files.  The
    containment invariant of the spec ("a path must lie inside a designated
    root directory") is decided on the two absolute paths, and the result is
    the path relative to the directory, or the empty string when the file
    does not lie within it. *)
Definition relative_filename_within_dir (filename directory : str) : W str :=
  let filename := abspath filename in
  let directory := abspath directory in
  common <- commonpath [directory; filename] ;;
  if negb (str_eqb common directory) then ret []
  else relpath filename directory.

(** Modelled from the spec: the directories [mkdir_p] makes on demand
    ([os.makedirs] with [exist_ok]).  The path is walked as [resolve] walks
    it, and a name that is missing in the directory reached is made a
    directory there.  The walk fails where a file stands in place of a
    directory; the directories made up to there stay. *)
Fixpoint makedirs (fs : filesystem) (cur comps : list str) : bool * filesystem :=
  match comps with
  | [] => (true, fs)
  | c :: rest =>
      match lookup_node fs cur with
      | Some Dir =>
          if str_eqb c [] || str_eqb c curdir then makedirs fs cur rest
          else if str_eqb c pardir then makedirs fs (removelast cur) rest
          else
            match fs !! (cur ++ [c]) with
            | Some (File _) => (false, fs)
            | Some Dir => makedirs fs (cur ++ [c]) rest
            | None => makedirs (<[cur ++ [c] := Dir]> fs) (cur ++ [c]) rest
            end
      | _ => (false, fs)
      end
  end.

(** Modelled from the spec: [mkdir_p] of [cardinal_pythonlib.fileops], which
    is not among the source files.  The destination directory is "created on
    demand with guaranteed creation-or-failure before writing": the
    directory and its missing ancestors are made, and the call raises when
    one of them is a file, and for the empty path. *)
Definition mkdir_p (path : str) : M unit :=
  fun fs =>
    let failed := raise (OSError (Msg "mkdir_p: {!r}" [path])) in
    if str_eqb path [] then (failed, fs)
    else
      match start_dir fs path with
      | Some d =>
          match makedirs fs d (split path sep) with
          | (true, fs') => ((Ok tt, [EvMkdir path]), fs')
          | (false, fs') => (failed, fs')
          end
      | None => (failed, fs)
      end.

(** *** Helper functions *)

Definition rst_underline (heading underline_char : str) : W str :=
  assert (negb (contains_chr heading NL)) (Msg "" []) ;;;
  assert (Nat.eqb (length underline_char) 1) (Msg "" []) ;;;
  ret (heading ++ [NL] ++ str_mul underline_char (length heading)).

Definition fail {A : Type} (m : message) : W A :=
  emit (EvLog CRITICAL m) ;;;
  raise (RuntimeError m).

Definition write_if_allowed (filename content : str) (overwrite mock : bool) : M unit :=
  (fun fs =>
     if negb overwrite && path_exists fs filename
     then (fail (Msg "File exists, not overwriting: {!r}" [filename]), fs)
     else mret tt fs) ;;~
  let directory := dirname filename in
  (if negb mock then mkdir_p directory else mret tt) ;;~
  liftW (log_info "Writing to {!r}" [filename]) ;;~
  if mock then liftW (log_warning "Skipping writes as in mock mode" [])
  else write_text filename content.

(** *** FileToAutodocument *)

Definition FileToAutodocument_init
    (fs : filesystem)
    (source_filename project_root_dir target_rst_filename : str)
    (method : AutodocMethod)
    (python_package_root_dir : option str)
    (source_rst_title_style_python : bool)
    (pygments_language_override : option (gmap str str))
  : W FileToAutodocument.t :=
  let self_source_filename := abspath (expanduser source_filename) in
  let self_project_root_dir := abspath (expanduser project_root_dir) in
  let self_target_rst_filename := abspath (expanduser target_rst_filename) in
  let self_python_package_root_dir :=
    match python_package_root_dir with
    | Some d => if nonempty d then abspath (expanduser d) else self_project_root_dir
    | None => self_project_root_dir
    end in
  let self_pygments_language_override :=
    match pygments_language_override with
    | Some d => d
    | None => ∅
    end in
  assert (isfile fs self_source_filename)
    (Msg "Not a file: source_filename={!r}" [self_source_filename]) ;;;
  assert (isdir fs self_project_root_dir)
    (Msg "Not a directory: project_root_dir={!r}" [self_project_root_dir]) ;;;
  rel <- relative_filename_within_dir self_source_filename self_project_root_dir ;;
  assert (nonempty rel)
    (Msg "Source file {!r} is not within project directory {!r}"
         [self_source_filename; self_project_root_dir]) ;;;
  rel <- relative_filename_within_dir self_python_package_root_dir self_project_root_dir ;;
  assert (nonempty rel)
    (Msg "Python root {!r} is not within project directory {!r}"
         [self_python_package_root_dir; self_project_root_dir]) ;;;
  ret {| FileToAutodocument.source_filename := self_source_filename;
         FileToAutodocument.project_root_dir := self_project_root_dir;
         FileToAutodocument.target_rst_filename := self_target_rst_filename;
         FileToAutodocument.method := method;
         FileToAutodocument.source_rst_title_style_python := source_rst_title_style_python;
         FileToAutodocument.python_package_root_dir := self_python_package_root_dir;
         FileToAutodocument.pygments_language_override := self_pygments_language_override |}.

Definition source_extension (self : FileToAutodocument.t) : str :=
  snd (splitext (FileToAutodocument.source_filename self)).

Definition is_python (self : FileToAutodocument.t) : bool :=
  str_eqb (source_extension self) EXT_PYTHON.

Definition source_filename_rel_project_root (self : FileToAutodocument.t) : W str :=
  relpath (FileToAutodocument.source_filename self)
          (FileToAutodocument.project_root_dir self).

Definition source_filename_rel_python_root (self : FileToAutodocument.t) : W str :=
  relpath (FileToAutodocument.source_filename self)
          (FileToAutodocument.python_package_root_dir self).

Definition rst_dir (self : FileToAutodocument.t) : str :=
  dirname (FileToAutodocument.target_rst_filename self).

Definition source_filename_rel_rst_file (self : FileToAutodocument.t) : W str :=
  relpath (FileToAutodocument.source_filename self) (rst_dir self).

Definition rst_filename_rel_project_root (self : FileToAutodocument.t) : W str :=
  relpath (FileToAutodocument.target_rst_filename self)
          (FileToAutodocument.project_root_dir self).

Definition rst_filename_rel_autodoc_index (self : FileToAutodocument.t)
    (index_filename : str) : W str :=
  let index_dir := dirname (abspath (expanduser index_filename)) in
  relpath (FileToAutodocument.target_rst_filename self) index_dir.

Definition python_module_name (self : FileToAutodocument.t) : W str :=
  if negb (is_python self) then ret []
  else
    filepath <- source_filename_rel_python_root self ;;
    let dirs_and_base := fst (splitext filepath) in
    let dir_and_file_parts := split dirs_and_base sep in
    ret (str_join "." dir_and_file_parts).

Definition pygments_language (self : FileToAutodocument.t) : W str :=
  let extension := snd (splitext (FileToAutodocument.source_filename self)) in
  match FileToAutodocument.pygments_language_override self !! extension with
  | Some language => ret language
  | None =>
      match get_lexer_for_filename (FileToAutodocument.source_filename self) with
      | Some name => ret name
      | None =>
          log_warning "Don't know Pygments code type for extension {!r}"
                      [source_extension self] ;;;
          ret CODE_TYPE_NONE
      end
  end.

(** The method [rst_content] settles on. *)
Definition final_method (self : FileToAutodocument.t) (method : option AutodocMethod)
  : AutodocMethod :=
  let method :=
    match method with
    | None => FileToAutodocument.method self
    | Some m => m
    end in
  match method with
  | BEST => if is_python self then AUTOMODULE else CONTENTS
  | AUTOMODULE => if negb (is_python self) then CONTENTS else AUTOMODULE
  | CONTENTS => CONTENTS
  end.

(** The title and the instruction [rst_content] writes for a method. *)
Definition title_and_instruction (self : FileToAutodocument.t) (method : AutodocMethod)
  : W (str * str) :=
  let spacer : str := "    " in
  match method with
  | AUTOMODULE =>
      title <- (if FileToAutodocument.source_rst_title_style_python self
                then python_module_name self
                else source_filename_rel_project_root self) ;;
      modulename <- python_module_name self ;;
      ret (title, ".. automodule:: " ++ modulename ++ [NL] ++ "    :members:")
  | CONTENTS =>
      title <- source_filename_rel_project_root self ;;
      filename <- source_filename_rel_rst_file self ;;
      language <- pygments_language self ;;
      ret (title,
           ".. literalinclude:: " ++ filename ++ [NL]
           ++ spacer ++ ":language: " ++ language)
  | BEST => raise (ValueError (Msg "Bad method!" []))
  end.

Definition rst_content (self : FileToAutodocument.t)
    (prefix suffix heading_underline_char : str) (method : option AutodocMethod)
  : W str :=
  ti <- title_and_instruction self (final_method self method) ;;
  filename <- rst_filename_rel_project_root self ;;
  underlined_title <- rst_underline (fst ti) heading_underline_char ;;
  ret (strip (page_template filename prefix underlined_title (snd ti) suffix)
       ++ [NL]).

Definition write_rst (self : FileToAutodocument.t)
    (prefix suffix heading_underline_char : str) (method : option AutodocMethod)
    (overwrite mock : bool) : M unit :=
  content <~ liftW (rst_content self prefix suffix heading_underline_char method) ;;
  write_if_allowed (FileToAutodocument.target_rst_filename self) content overwrite mock.

(** *** AutodocIndex *)

(** [sorted] order of [list.sort()] on strings. *)
Definition str_le (a b : str) : Prop := str_leb a b = true.

#[local] Instance str_le_dec (a b : str) : Decision (str_le a b) :=
  decide (str_leb a b = true).

Definition sort (l : list str) : list str := merge_sort str_le l.

(** A loop that threads an accumulator. *)
Fixpoint fold_W {A S : Type} (xs : list A) (body : S -> A -> W S) (acc : S) : W S :=
  match xs with
  | [] => ret acc
  | x :: rest => acc' <- body acc x ;; fold_W rest body acc'
  end.

Definition filename_matches_glob (filename globtext : str) : W bool :=
  if fnmatch.fnmatch charset_matches filename globtext then
    log_debug "{!r} matches {!r}" [filename; globtext] ;;;
    ret true
  else
    let bname := basename filename in
    if fnmatch.fnmatch charset_matches bname globtext then
      log_debug "{!r} matches {!r}" [bname; globtext] ;;;
      ret true
    else ret false.

(** The loop of [should_exclude] over the patterns. *)
Fixpoint should_exclude_loop (globs : list str) (filename : str) : W bool :=
  match globs with
  | [] => ret false
  | skip_glob :: rest =>
      m <- filename_matches_glob filename skip_glob ;;
      if m then ret true else should_exclude_loop rest filename
  end.

Definition should_exclude (self : AutodocIndex.t) (filename : str) : W bool :=
  should_exclude_loop (AutodocIndex.skip_globs self) filename.

Definition get_sorted_source_files (fs : filesystem) (self : AutodocIndex.t)
    (source_filenames_or_globs : filenames_or_globs) (recursive : bool)
  : W (list str) :=
  let source_filenames_or_globs :=
    match source_filenames_or_globs with
    | OneName s => [s]
    | ManyNames l => l
    end in
  final_filenames <-
    fold_W source_filenames_or_globs
      (fun final_filenames sfg =>
         let sfg_expanded := expanduser sfg in
         log_debug "Looking for: {!r}" [sfg_expanded] ;;;
         fold_W (glob_glob fs sfg_expanded recursive)
           (fun final_filenames filename =>
              log_debug "Trying: {!r}" [filename] ;;;
              skip <- should_exclude self filename ;;
              if skip then
                log_info "Skipping file {!r}" [filename] ;;;
                ret final_filenames
              else ret (final_filenames ++ [filename]))
           final_filenames)
      [] ;;
  ret (sort final_filenames).

Definition specific_file_rst_filename (self : AutodocIndex.t) (source_filename : str)
  : W str :=
  highest_code_to_target <-
    relative_filename_within_dir source_filename (AutodocIndex.highest_code_dir self) ;;
  let bname := basename source_filename in
  let result := join (AutodocIndex.autodoc_rst_root_dir self)
                     [dirname highest_code_to_target; bname ++ EXT_RST] in
  log_debug "Source {!r} -> RST {!r}" [source_filename; result] ;;;
  ret result.

Definition set_files_to_index (self : AutodocIndex.t)
    (files : list (AutodocIndex.entry AutodocIndex.t)) : AutodocIndex.t :=
  match self with
  | AutodocIndex.Build a b c d e f g h i j k l m n o p _ =>
      AutodocIndex.Build a b c d e f g h i j k l m n o p files
  end.

(** Whether [source_filenames_or_globs] is true in a condition. *)
Definition truthy (sfg : option filenames_or_globs) : bool :=
  match sfg with
  | None => false
  | Some (OneName s) => nonempty s
  | Some (ManyNames l) => negb (bool_decide (l = []))
  end.

(** [add_source_files] appends to [self.files_to_index]; the index with the
    longer list is the result. *)
Definition add_source_files (fs : filesystem) (self : AutodocIndex.t)
    (source_filenames_or_globs : option filenames_or_globs)
    (method : option AutodocMethod) (recursive : option bool)
    (source_rst_title_style_python : option bool)
    (pygments_language_override : option (gmap str str))
  : W AutodocIndex.t :=
  match source_filenames_or_globs with
  | Some sfg =>
      if negb (truthy source_filenames_or_globs) then ret self
      else
        let method := default (AutodocIndex.method self) method in
        let recursive := default (AutodocIndex.recursive self) recursive in
        let source_rst_title_style_python :=
          default (AutodocIndex.source_rst_title_style_python self)
                  source_rst_title_style_python in
        let pygments_language_override :=
          default (AutodocIndex.pygments_language_override self)
                  pygments_language_override in
        final_filenames <- get_sorted_source_files fs self sfg recursive ;;
        files <-
          fold_W final_filenames
            (fun files source_filename =>
               target <- specific_file_rst_filename self source_filename ;;
               f <- FileToAutodocument_init fs
                      source_filename
                      (AutodocIndex.project_root_dir self)
                      target
                      method
                      (Some (AutodocIndex.python_package_root_dir self))
                      source_rst_title_style_python
                      (Some pygments_language_override) ;;
               ret (files ++ [EFile f]))
            (AutodocIndex.files_to_index self) ;;
        ret (set_files_to_index self files)
  | None => ret self
  end.

Definition AutodocIndex_init
    (fs : filesystem)
    (index_filename project_root_dir autodoc_rst_root_dir highest_code_dir : str)
    (python_package_root_dir : option str)
    (source_filenames_or_globs : option filenames_or_globs)
    (index_heading_underline_char source_rst_heading_underline_char title : str)
    (recursive : bool)
    (skip_globs : option (list str))
    (toctree_maxdepth : Z)
    (method : AutodocMethod)
    (rst_prefix rst_suffix : str)
    (source_rst_title_style_python : bool)
    (pygments_language_override : option (gmap str str))
  : W AutodocIndex.t :=
  assert (nonempty index_filename) (Msg "" []) ;;;
  assert (nonempty project_root_dir) (Msg "" []) ;;;
  assert (nonempty autodoc_rst_root_dir) (Msg "" []) ;;;
  let self_index_filename := abspath (expanduser index_filename) in
  let self_project_root_dir := abspath (expanduser project_root_dir) in
  let self_autodoc_rst_root_dir := abspath (expanduser autodoc_rst_root_dir) in
  let self_highest_code_dir := abspath (expanduser highest_code_dir) in
  let self_python_package_root_dir :=
    match python_package_root_dir with
    | Some d => if nonempty d then abspath (expanduser d) else self_project_root_dir
    | None => self_project_root_dir
    end in
  let self_skip_globs :=
    match skip_globs with
    | Some g => g
    | None => DEFAULT_SKIP_GLOBS
    end in
  assert (isdir fs self_project_root_dir)
    (Msg "Not a directory: project_root_dir={!r}" [self_project_root_dir]) ;;;
  rel <- relative_filename_within_dir self_index_filename self_project_root_dir ;;
  assert (nonempty rel)
    (Msg "Index file {!r} is not within project directory {!r}"
         [self_index_filename; self_project_root_dir]) ;;;
  rel <- relative_filename_within_dir self_highest_code_dir self_project_root_dir ;;
  assert (nonempty rel)
    (Msg "Highest code directory {!r} is not within project directory {!r}"
         [self_highest_code_dir; self_project_root_dir]) ;;;
  rel <- relative_filename_within_dir self_autodoc_rst_root_dir self_project_root_dir ;;
  assert (nonempty rel)
    (Msg "Autodoc RST root directory {!r} is not within project directory {!r}"
         [self_autodoc_rst_root_dir; self_project_root_dir]) ;;;
  let self :=
    AutodocIndex.Build
      self_index_filename title self_project_root_dir self_autodoc_rst_root_dir
      self_highest_code_dir self_python_package_root_dir
      index_heading_underline_char source_rst_heading_underline_char
      recursive self_skip_globs toctree_maxdepth method rst_prefix rst_suffix
      source_rst_title_style_python (default ∅ pygments_language_override) [] in
  if truthy source_filenames_or_globs
  then add_source_files fs self source_filenames_or_globs None None None None
  else ret self.

Definition add_index (self index : AutodocIndex.t) : AutodocIndex.t :=
  set_files_to_index self (AutodocIndex.files_to_index self ++ [EIndex index]).

Definition add_indexes (self : AutodocIndex.t) (indexes : list AutodocIndex.t)
  : AutodocIndex.t :=
  fold_left add_index indexes self.

Definition index_filename_rel_project_root (self : AutodocIndex.t) : W str :=
  relpath (AutodocIndex.index_filename self) (AutodocIndex.project_root_dir self).

Definition index_filename_rel_other_index (self : AutodocIndex.t) (other : str) : W str :=
  relpath (AutodocIndex.index_filename self) (dirname other).

Definition index_content (self : AutodocIndex.t) : W str :=
  let index_filename := AutodocIndex.index_filename self in
  let spacer : str := "    " in
  let instruction_lines : list str :=
    ["..  toctree::" : str;
     spacer ++ ":maxdepth: " ++ str_of_int (AutodocIndex.toctree_maxdepth self);
     [] ] in
  instruction_lines <-
    fold_W (AutodocIndex.files_to_index self)
      (fun instruction_lines f =>
         rst_filename <-
           match f with
           | EFile f =>
               r <- rst_filename_rel_autodoc_index f index_filename ;;
               ret (spacer ++ r)
           | EIndex i =>
               r <- index_filename_rel_other_index i index_filename ;;
               ret (spacer ++ r)
           | EOther repr =>
               fail (Msg "Unknown thing in files_to_index: {!r}" [repr])
           end ;;
         ret (instruction_lines ++ [rst_filename]))
      instruction_lines ;;
  let instruction := str_join [NL] instruction_lines in
  filename <- index_filename_rel_project_root self ;;
  underlined_title <-
    rst_underline (AutodocIndex.title self)
                  (AutodocIndex.index_heading_underline_char self) ;;
  ret (strip (index_template filename (AutodocIndex.rst_prefix self) underlined_title
                             instruction (AutodocIndex.rst_suffix self))
       ++ [NL]).

Definition write_index (self : AutodocIndex.t) (overwrite mock : bool) : M unit :=
  content <~ liftW (index_content self) ;;
  write_if_allowed (AutodocIndex.index_filename self) content overwrite mock.

Fixpoint write_index_and_rst_files (self : AutodocIndex.t) (overwrite mock : bool)
  {struct self} : M unit :=
  match self with
  | AutodocIndex.Build _ _ _ _ _ _ _ _ _ _ _ _ _ _ _ _ files_to_index =>
      mfor_each files_to_index
        (fun f =>
           match f with
           | EFile f =>
               write_rst f (AutodocIndex.rst_prefix self) (AutodocIndex.rst_suffix self)
                         (AutodocIndex.source_rst_heading_underline_char self)
                         None overwrite mock
           | EIndex i => write_index_and_rst_files i overwrite mock
           | EOther repr =>
               liftW (fail (Msg "Unknown thing in files_to_index: {!r}" [repr]))
           end) ;;~
      write_index self overwrite mock
  end.

End Sphinxtools.

(** ** A small project, for the concrete scenarios *)

Definition ex_os : os_env :=
  {| getcwd := "/home/u";
     environ_HOME := Some (list_ascii_of_string "/home/u");
     getpwuid_dir := None;
     getpwnam_dir := fun _ => None |}.

(** Lexers by extension: Python for [.py], none otherwise. *)
Definition ex_lexer (filename : str) : option str :=
  if endswith filename ".py" then Some (list_ascii_of_string "Python") else None.

(** Sets without ranges or negation: the characters listed. *)
Definition ex_charset (stuff : str) (c : ascii) : bool := existsb (Ascii.eqb c) stuff.

(** [/proj/src/a/b.py], [/proj/src/a/__init__.py], [/proj/src/a/junk.tmp],
    [/proj/notes.txt], the directory [/proj/docs] and the working directory
    [/home/u]. *)
Definition ex_fs : filesystem :=
  <[ ["home" : str] := Dir ]>
  (<[ ["home" : str; "u" : str] := Dir ]>
  (<[ ["proj" : str] := Dir ]>
  (<[ ["proj" : str; "src" : str] := Dir ]>
  (<[ ["proj" : str; "src" : str; "a" : str] := Dir ]>
  (<[ ["proj" : str; "src" : str; "a" : str; "b.py" : str] := File "x = 1" ]>
  (<[ ["proj" : str; "src" : str; "a" : str; "__init__.py" : str] := File "" ]>
  (<[ ["proj" : str; "src" : str; "a" : str; "junk.tmp" : str] := File "?" ]>
  (<[ ["proj" : str; "notes.txt" : str] := File "notes" ]>
  (<[ ["proj" : str; "docs" : str] := Dir ]> ∅))))))))).

(** A [glob.glob] that knows one pattern. *)
Definition ex_glob (fs : filesystem) (pattern : str) (recursive : bool) : list str :=
  if str_eqb pattern "/proj/src/**/*" then
    ["/proj/src/a/junk.tmp" : str; "/proj/src/a/b.py" : str; "/proj/src/a/__init__.py" : str]
  else [].

Definition ex_file : FileToAutodocument.t :=
  {| FileToAutodocument.source_filename := "/proj/src/a/b.py";
     FileToAutodocument.project_root_dir := "/proj";
     FileToAutodocument.target_rst_filename := "/proj/docs/a/b.py.rst";
     FileToAutodocument.method := BEST;
     FileToAutodocument.source_rst_title_style_python := true;
     FileToAutodocument.python_package_root_dir := "/proj";
     FileToAutodocument.pygments_language_override := ∅ |}.

Definition ex_text_file : FileToAutodocument.t :=
  {| FileToAutodocument.source_filename := "/proj/notes.txt";
     FileToAutodocument.project_root_dir := "/proj";
     FileToAutodocument.target_rst_filename := "/proj/docs/notes.txt.rst";
     FileToAutodocument.method := BEST;
     FileToAutodocument.source_rst_title_style_python := true;
     FileToAutodocument.python_package_root_dir := "/proj";
     FileToAutodocument.pygments_language_override := ∅ |}.

Definition ex_index (skip_globs : list str)
    (files : list (AutodocIndex.entry AutodocIndex.t)) (index_filename : str)
  : AutodocIndex.t :=
  AutodocIndex.Build index_filename DEFAULT_INDEX_TITLE "/proj" "/proj/docs" "/proj/src"
    "/proj" "-" "~" true skip_globs 1 BEST "" "" true ∅ files.

Definition ex_init_file : FileToAutodocument.t :=
  {| FileToAutodocument.source_filename := "/proj/src/a/__init__.py";
     FileToAutodocument.project_root_dir := "/proj";
     FileToAutodocument.target_rst_filename := "/proj/docs/a/__init__.py.rst";
     FileToAutodocument.method := BEST;
     FileToAutodocument.source_rst_title_style_python := true;
     FileToAutodocument.python_package_root_dir := "/proj";
     FileToAutodocument.pygments_language_override := ∅ |}.

(** Two files and a sub-index with one file. *)
Definition ex_tree : AutodocIndex.t :=
  ex_index [] [EFile ex_file;
               EFile ex_text_file;
               EIndex (ex_index [] [EFile ex_init_file] "/proj/docs/sub/_index.rst")]
           "/proj/docs/_index.rst".

(** A file, something that is neither a file nor an index, a file. *)
Definition ex_bad_tree : AutodocIndex.t :=
  ex_index [] [EFile ex_file; EOther "42"; EFile ex_text_file] "/proj/docs/_index.rst".

(** The page of [ex_file], as [rst_content] renders it without prefix and
    suffix. *)
Definition ex_page : str :=
  Eval vm_compute in
    match fst (rst_content ex_os ex_lexer ex_file "" "" "=" None) with
    | Ok content => content
    | Raise _ => []
    end.

(** The index [AutodocIndex.__init__] builds over [/proj/src/**/*] with the
    default exclusion patterns, and the events of that call. *)
Definition ex_built : W AutodocIndex.t :=
  Eval vm_compute in
    AutodocIndex_init ex_os ex_glob ex_charset ex_fs
      "/proj/docs/_index.rst" "/proj" "/proj/docs" "/proj/src" None
      (Some (OneName "/proj/src/**/*")) "-" "~" DEFAULT_INDEX_TITLE true None 1 BEST
      "" "" true None.

Definition ex_built_index : AutodocIndex.t :=
  match fst ex_built with
  | Ok idx => idx
  | Raise _ => ex_index [] [] []
  end.

(** ** Notions used in the statements *)

(** A file name or its base name matches a pattern. *)
Definition matches_glob (charset_matches : str -> ascii -> bool)
    (filename globtext : str) : bool :=
  fnmatch.fnmatch charset_matches filename globtext
  || fnmatch.fnmatch charset_matches (posixpath.basename filename) globtext.

(** Some exclusion pattern matches. *)
Definition excluded (charset_matches : str -> ascii -> bool)
    (skip_globs : list str) (filename : str) : bool :=
  existsb (matches_glob charset_matches filename) skip_globs.

(** What the patterns yield, pattern by pattern in [glob]'s order, without
    the excluded files. *)
Definition discovered (os : os_env) (glob_glob : filesystem -> str -> bool -> list str)
    (charset_matches : str -> ascii -> bool) (fs : filesystem)
    (skip_globs : list str) (names : filenames_or_globs) (recursive : bool)
  : list str :=
  flat_map
    (fun sfg =>
       List.filter (fun f => negb (excluded charset_matches skip_globs f))
                   (glob_glob fs (expanduser os sfg) recursive))
    match names with
    | OneName s => [s]
    | ManyNames l => l
    end.

(** A file lies within a directory: [relative_filename_within_dir] returns
    a string that is not empty. *)
Definition lies_within (os : os_env) (filename directory : str) : bool :=
  match fst (relative_filename_within_dir os filename directory) with
  | Ok rel => nonempty rel
  | Raise _ => false
  end.

(** The Python package root [FileToAutodocument.__init__] settles on. *)
Definition package_root (os : os_env) (python_package_root_dir : option str)
    (project_root_dir : str) : str :=
  match python_package_root_dir with
  | Some d =>
      if nonempty d then abspath os (expanduser os d)
      else abspath os (expanduser os project_root_dir)
  | None => abspath os (expanduser os project_root_dir)
  end.

(** The files a run wrote, in the order it wrote them. *)
Definition written (t : list event) : list str :=
  flat_map (fun e => match e with
                     | EvWrite filename _ => [filename]
                     | _ => []
                     end) t.

Definition is_ok {A : Type} (r : res A) : bool :=
  match r with
  | Ok _ => true
  | Raise _ => false
  end.

(** The pages of a tree in the order a write is to produce them: for each
    entry its page (for a file) or the pages of its tree (for a sub-index),
    and the page of the index itself last. *)
Fixpoint pages_in_order (idx : AutodocIndex.t) : list str :=
  match idx with
  | AutodocIndex.Build index_filename _ _ _ _ _ _ _ _ _ _ _ _ _ _ _ files =>
      flat_map (fun e => match e with
                         | EFile f => [FileToAutodocument.target_rst_filename f]
                         | EIndex i => pages_in_order i
                         | EOther _ => []
                         end) files
      ++ [index_filename]
  end.

Definition entry_pages (e : AutodocIndex.entry AutodocIndex.t) : list str :=
  match e with
  | EFile f => [FileToAutodocument.target_rst_filename f]
  | EIndex i => pages_in_order i
  | EOther _ => []
  end.

(** The pages below an index: all of [pages_in_order] but its own page. *)
Definition children_pages (idx : AutodocIndex.t) : list str :=
  flat_map entry_pages (AutodocIndex.files_to_index idx).

(** The body of the loop of [write_index_and_rst_files]: what is done for
    one entry of [files_to_index]. *)
Definition write_entry (os : os_env) (get_lexer_for_filename : str -> option str)
    (self : AutodocIndex.t) (overwrite mock : bool)
    (f : AutodocIndex.entry AutodocIndex.t) : M unit :=
  match f with
  | EFile f =>
      write_rst os get_lexer_for_filename f
        (AutodocIndex.rst_prefix self) (AutodocIndex.rst_suffix self)
        (AutodocIndex.source_rst_heading_underline_char self)
        None overwrite mock
  | EIndex i => write_index_and_rst_files os get_lexer_for_filename i overwrite mock
  | EOther repr =>
      liftW (fail (Msg "Unknown thing in files_to_index: {!r}" [repr]))
  end.

(** What a write may have written: nothing in mock mode; [full] when it
    returned; a prefix of [partial] when it raised. *)
Definition writes_ok (mock : bool) (full partial : list str)
    (r : res unit) (t : list event) : Prop :=
  if mock then written t = []
  else if is_ok r then written t = full
       else written t `prefix_of` partial.

(** The lines of a text. *)
Definition lines (s : str) : list str := split s NL.

(** How many lines of a text are the marker line. *)
Definition marker_lines (s : str) : nat :=
  length (List.filter (str_eqb AUTOGENERATED_COMMENT) (lines s)).

(** No line of a text begins with the marker. *)
Definition no_marker_start (s : str) : bool :=
  forallb (fun l => negb (startswith l AUTOGENERATED_COMMENT)) (lines s).

(** A component of a normalised path: not empty, neither [.] nor [..], and
    without a separator. *)
Definition clean (c : str) : Prop :=
  c <> [] /\ c <> posixpath.curdir /\ c <> posixpath.pardir /\ ~ In posixpath.sep c.

(** The absolute path with [k] leading slashes and the components [cs]. *)
Definition abs_form (k : nat) (cs : list str) : str :=
  str_mul [posixpath.sep] k ++ str_join [posixpath.sep] cs.



(** A filesystem that has grown: what was a directory is a directory, what
    was a file is a file (its content may have changed). *)
Definition grows (fs fs' : filesystem) : Prop :=
  forall k,
    match fs !! k with
    | Some Dir => fs' !! k = Some Dir
    | Some (File _) => exists content, fs' !! k = Some (File content)
    | None => True
    end.

(** Whatever is a file in [fs] is a file in [fs']. *)
Definition keeps_files (os : os_env) (fs fs' : filesystem) : Prop :=
  forall p, isfile os fs p = true -> isfile os fs' p = true.

(** What a write leaves behind: the files there were, and, when it returned,
    [pages] as files. *)
Definition leaves_pages (os : os_env) (m : M unit) (pages : list str) : Prop :=
  forall fs,
    keeps_files os fs (snd (m fs))
    /\ (is_ok (fst (fst (m fs))) = true ->
        forall p, In p pages -> isfile os (snd (m fs)) p = true).

(** A pattern without the characters [fnmatch] reads as wildcards. *)
Definition literal (pat : str) : bool :=
  forallb (fun c => negb (Ascii.eqb c "*" || Ascii.eqb c "?" || Ascii.eqb c "[")%char) pat.

(** Whatever path exists in [fs] exists in [fs']. *)
Definition keeps_paths (os : os_env) (fs fs' : filesystem) : Prop :=
  forall p, path_exists os fs p = true -> path_exists os fs' p = true.

(** What a write that may not overwrite needs: it removes no path, and it
    returns only when none of [pages] was there before. *)
Definition needs_fresh (os : os_env) (m : M unit) (pages : list str) : Prop :=
  forall fs,
    keeps_paths os fs (snd (m fs))
    /\ (is_ok (fst (fst (m fs))) = true ->
        forall p, In p pages -> path_exists os fs p = false).

(** What a write outside mock mode that may not overwrite does when it
    returns: [pages] are different names, none was there before, all are there
    after. *)
Definition writes_fresh (os : os_env) (m : M unit) (pages : list str) : Prop :=
  forall fs,
    keeps_paths os fs (snd (m fs))
    /\ (is_ok (fst (fst (m fs))) = true ->
        List.NoDup pages
        /\ forall p, In p pages ->
             path_exists os fs p = false /\ path_exists os (snd (m fs)) p = true).

(** Every entry of a tree, at any depth, is a file descriptor or an index. *)
Fixpoint all_known (idx : AutodocIndex.t) : bool :=
  match idx with
  | AutodocIndex.Build _ _ _ _ _ _ _ _ _ _ _ _ _ _ _ _ files =>
      forallb (fun e => match e with
                        | EFile _ => true
                        | EIndex i => all_known i
                        | EOther _ => false
                        end) files
  end.

(** ** Properties *)

(** *** The monads *)

Lemma bind_Ok {A B : Type} (m : W A) (k : A -> W B) (b : B) (t : list event) :
  bind m k = (Ok b, t) ->
  exists a t1 t2, m = (Ok a, t1) /\ k a = (Ok b, t2) /\ t = t1 ++ t2.
Proof.
  unfold bind. destruct m as [[a|e] t1]; [|discriminate].
  destruct (k a) as [r t2] eqn:Hk. intros H. inversion H; subst.
  exists a, t1, t2. auto.
Qed.

Lemma bind_ret_l {A B : Type} (a : A) (k : A -> W B) : bind (ret a) k = k a.
Proof. unfold bind, ret. destruct (k a). reflexivity. Qed.

Lemma bind_Ok_l {A B : Type} (a : A) (t : list event) (k : A -> W B) :
  bind (Ok a, t) k = (fst (k a), t ++ snd (k a)).
Proof. unfold bind. destruct (k a). reflexivity. Qed.

Lemma bind_Raise_l {A B : Type} (e : exn) (t : list event) (k : A -> W B) :
  bind (Raise e, t) k = (Raise e, t).
Proof. reflexivity. Qed.

Lemma assert_Ok (c : bool) (m : message) (a : unit) (t : list event) :
  assert c m = (Ok a, t) -> c = true /\ t = [].
Proof. destruct c; cbn; [intros [= _ <-]; auto | discriminate]. Qed.

Lemma bind_fst {A B : Type} (m : W A) (k : A -> W B) :
  fst (bind m k) = match fst m with
                   | Ok a => fst (k a)
                   | Raise e => Raise e
                   end.
Proof. unfold bind. destruct m as [[a|e] t]; cbn; [destruct (k a)|]; reflexivity. Qed.

Lemma assert_fst (c : bool) (m : message) :
  fst (assert c m) = if c then Ok tt else Raise (AssertionError m).
Proof. destruct c; reflexivity. Qed.

Lemma bind_value {A B : Type} (m : W A) (k : A -> W B) (a : A) (b : B) :
  (exists t, m = (Ok a, t)) -> (exists t, k a = (Ok b, t)) ->
  exists t, bind m k = (Ok b, t).
Proof.
  intros [t1 ->] [t2 Hk]. unfold bind. rewrite Hk. eauto.
Qed.

Lemma emit_value (e : event) : exists t, emit e = (Ok tt, t).
Proof. unfold emit. eauto. Qed.

Lemma ret_value {A : Type} (a : A) : exists t, ret a = (Ok a, t).
Proof. unfold ret. eauto. Qed.

(** Inverts a run of binds that ended normally. *)
Ltac inv_bind H :=
  repeat
    match type of H with
    | bind _ _ = (Ok _, _) =>
        let a := fresh "a" in
        let t1 := fresh "t" in
        let t2 := fresh "t" in
        let H1 := fresh "H" in
        let H2 := fresh "H" in
        let Ht := fresh "Ht" in
        apply bind_Ok in H; destruct H as (a & t1 & t2 & H1 & H & Ht);
        try (apply assert_Ok in H1; destruct H1 as [H1 ->])
    end.

(** *** Prefixes and suffixes *)

Lemma startswith_iff (s p : str) : startswith s p = true <-> exists r, s = p ++ r.
Proof.
  revert s. induction p as [|a p IH]; intros s; cbn.
  - split; [intros _; exists s; reflexivity | reflexivity].
  - destruct s as [|b s]; cbn.
    + split; [discriminate | intros [r Hr]; discriminate].
    + rewrite andb_true_iff, Ascii.eqb_eq, IH. split.
      * intros [-> [r ->]]. exists r. reflexivity.
      * intros [r Hr]. injection Hr as -> ->. split; [reflexivity | exists r; reflexivity].
Qed.

Lemma endswith_iff (s x : str) : endswith s x = true <-> exists p, s = p ++ x.
Proof.
  unfold endswith. rewrite startswith_iff. split.
  - intros [r Hr]. exists (rev r).
    rewrite <- (rev_involutive s), Hr, rev_app_distr, rev_involutive. reflexivity.
  - intros [p ->]. exists (rev p). apply rev_app_distr.
Qed.

(** *** The order of strings *)

Section LexOrder.

Context {A : Type} (eqb ltb : A -> A -> bool).
Hypothesis eqb_eq : forall x y, eqb x y = true <-> x = y.
Hypothesis ltb_irrefl : forall x, ltb x x = false.
Hypothesis ltb_trans : forall x y z, ltb x y = true -> ltb y z = true -> ltb x z = true.
Hypothesis ltb_total : forall x y, ltb x y = true \/ x = y \/ ltb y x = true.

Lemma eqb_refl' x : eqb x x = true.
Proof. apply eqb_eq. reflexivity. Qed.

Lemma lex_ltb_irrefl l : lex_ltb eqb ltb l l = false.
Proof. induction l as [|x l IH]; cbn; [reflexivity|]. rewrite eqb_refl'. exact IH. Qed.

Lemma lex_ltb_trans l1 : forall l2 l3,
  lex_ltb eqb ltb l1 l2 = true -> lex_ltb eqb ltb l2 l3 = true ->
  lex_ltb eqb ltb l1 l3 = true.
Proof.
  induction l1 as [|x l1 IH]; intros [|y l2] [|z l3]; cbn; try congruence.
  destruct (eqb x y) eqn:Exy.
  - apply eqb_eq in Exy. subst y. destruct (eqb x z) eqn:Exz; [apply IH | auto].
  - destruct (eqb y z) eqn:Eyz.
    + apply eqb_eq in Eyz. subst z. rewrite Exy. auto.
    + intros Hxy Hyz. pose proof (ltb_trans _ _ _ Hxy Hyz) as Hxz.
      destruct (eqb x z) eqn:Exz; [|exact Hxz].
      apply eqb_eq in Exz. subst z. rewrite ltb_irrefl in Hxz. discriminate.
Qed.

Lemma lex_ltb_total l1 : forall l2,
  lex_ltb eqb ltb l1 l2 = true \/ l1 = l2 \/ lex_ltb eqb ltb l2 l1 = true.
Proof.
  induction l1 as [|x l1 IH]; intros [|y l2]; cbn; auto.
  destruct (eqb x y) eqn:Exy.
  - apply eqb_eq in Exy. subst y. rewrite eqb_refl'.
    destruct (IH l2) as [H|[H|H]]; auto. subst. auto.
  - destruct (eqb y x) eqn:Eyx.
    + apply eqb_eq in Eyx. subst y. rewrite eqb_refl' in Exy. discriminate.
    + destruct (ltb_total x y) as [H|[H|H]]; auto.
      subst y. rewrite eqb_refl' in Exy. discriminate.
Qed.

Lemma lex_ltb_asym l1 l2 :
  lex_ltb eqb ltb l1 l2 = true -> lex_ltb eqb ltb l2 l1 = false.
Proof.
  intros H. destruct (lex_ltb eqb ltb l2 l1) eqn:E; [|reflexivity].
  pose proof (lex_ltb_trans _ _ _ H E) as Hc. rewrite lex_ltb_irrefl in Hc. discriminate.
Qed.

End LexOrder.

Lemma ascii_eqb_eq (x y : ascii) : Ascii.eqb x y = true <-> x = y.
Proof. apply Ascii.eqb_eq. Qed.

Lemma chr_ltb_irrefl x : chr_ltb x x = false.
Proof. unfold chr_ltb. apply N.ltb_irrefl. Qed.

Lemma chr_ltb_trans x y z : chr_ltb x y = true -> chr_ltb y z = true -> chr_ltb x z = true.
Proof. unfold chr_ltb. rewrite !N.ltb_lt. lia. Qed.

Lemma chr_ltb_total x y : chr_ltb x y = true \/ x = y \/ chr_ltb y x = true.
Proof.
  unfold chr_ltb. rewrite !N.ltb_lt.
  destruct (N.lt_trichotomy (N_of_ascii x) (N_of_ascii y)) as [H|[H|H]]; auto.
  right; left. rewrite <- (ascii_N_embedding x), <- (ascii_N_embedding y). congruence.
Qed.

Lemma str_eqb_eq (x y : str) : str_eqb x y = true <-> x = y.
Proof. unfold str_eqb. apply bool_decide_eq_true. Qed.


Lemma str_eqb_neq (x y : str) : str_eqb x y = false <-> x <> y.
Proof. unfold str_eqb. apply bool_decide_eq_false. Qed.

Lemma str_ltb_irrefl x : str_ltb x x = false.
Proof. apply lex_ltb_irrefl; first [apply ascii_eqb_eq | apply chr_ltb_irrefl | apply chr_ltb_trans | apply chr_ltb_total]. Qed.

Lemma str_ltb_trans x y z : str_ltb x y = true -> str_ltb y z = true -> str_ltb x z = true.
Proof.
  apply lex_ltb_trans;
    first [apply ascii_eqb_eq | apply chr_ltb_irrefl | apply chr_ltb_trans | apply chr_ltb_total].
Qed.

Lemma str_ltb_total x y : str_ltb x y = true \/ x = y \/ str_ltb y x = true.
Proof. apply lex_ltb_total; first [apply ascii_eqb_eq | apply chr_ltb_irrefl | apply chr_ltb_trans | apply chr_ltb_total]. Qed.

Lemma str_ltb_asym x y : str_ltb x y = true -> str_ltb y x = false.
Proof.
  apply lex_ltb_asym;
    first [apply ascii_eqb_eq | apply chr_ltb_irrefl | apply chr_ltb_trans | apply chr_ltb_total].
Qed.

#[local] Instance str_le_total : Total str_le.
Proof.
  intros a b. unfold str_le, str_leb.
  destruct (str_ltb b a) eqn:E; [right | left; reflexivity].
  rewrite (str_ltb_asym _ _ E). reflexivity.
Qed.

#[local] Instance str_le_trans : Transitive str_le.
Proof.
  intros a b c. unfold str_le, str_leb. rewrite !negb_true_iff. intros Hba Hcb.
  destruct (str_ltb c a) eqn:Hca; [|reflexivity].
  destruct (str_ltb_total a b) as [H|[H|H]]; [|congruence|congruence].
  rewrite (str_ltb_trans _ _ _ Hca H) in Hcb. discriminate.
Qed.

#[local] Instance str_le_antisym : AntiSymm eq str_le.
Proof.
  intros a b. unfold str_le, str_leb. rewrite !negb_true_iff. intros Hba Hab.
  destruct (str_ltb_total a b) as [H|[H|H]]; congruence.
Qed.

Lemma sort_sorted (l : list str) : StronglySorted str_le (sort l).
Proof. apply StronglySorted_merge_sort; apply _. Qed.

Lemma sort_perm (l : list str) : sort l ≡ₚ l.
Proof. apply merge_sort_Permutation. Qed.

Lemma sort_of_perm (l1 l2 : list str) : l1 ≡ₚ l2 -> sort l1 = sort l2.
Proof.
  intros H. apply (Sorted_unique str_le).
  - apply Sorted_merge_sort, _.
  - apply Sorted_merge_sort, _.
  - rewrite !sort_perm. exact H.
Qed.

Section Properties.

Import posixpath.

Variable os : os_env.
Variable get_lexer_for_filename : str -> option str.
Variable glob_glob : filesystem -> str -> bool -> list str.
Variable charset_matches : str -> ascii -> bool.

(** *** write_if_allowed *)

(** C8.  When the destination exists and [overwrite] is false,
    [write_if_allowed] raises the collision error (a [RuntimeError], logged
    as critical) and leaves the filesystem as it was.  With [overwrite] and
    [mock] both true it returns normally, logs only, and leaves the
    filesystem as it was: no directory is made and no file is written. *)
Theorem write_if_allowed_collision_and_mock (filename content : str) (fs : filesystem) :
  (forall mock,
      path_exists os fs filename = true ->
      write_if_allowed os filename content false mock fs
      = ((Raise (RuntimeError (Msg "File exists, not overwriting: {!r}" [filename])),
          [EvLog CRITICAL (Msg "File exists, not overwriting: {!r}" [filename])]),
         fs))
  /\ write_if_allowed os filename content true true fs
     = ((Ok tt,
         [EvLog INFO (Msg "Writing to {!r}" [filename]);
          EvLog WARNING (Msg "Skipping writes as in mock mode" [])]),
        fs).
Proof.
  split.
  - intros mock Hex. unfold write_if_allowed, mbind. cbn. rewrite Hex. reflexivity.
  - reflexivity.
Qed.

(** *** pygments_language *)

(** C9.  When the extension of the source file is not a key of the override
    mapping and the lexer lookup finds nothing, [pygments_language] returns
    ["none"] after one warning, and raises nothing. *)
Theorem pygments_language_unknown_extension (f : FileToAutodocument.t) :
  FileToAutodocument.pygments_language_override f
    !! snd (splitext (FileToAutodocument.source_filename f)) = None ->
  get_lexer_for_filename (FileToAutodocument.source_filename f) = None ->
  pygments_language get_lexer_for_filename f
  = (Ok CODE_TYPE_NONE,
     [EvLog WARNING (Msg "Don't know Pygments code type for extension {!r}"
                         [source_extension f])])
  /\ CODE_TYPE_NONE = "none".
Proof.
  intros Hov Hlex. unfold pygments_language. rewrite Hov, Hlex. split; reflexivity.
Qed.

(** *** The scenario of the spec *)

(** C7.  With [highest_code_dir] [/proj/src] and [autodoc_rst_root_dir]
    [/proj/docs] (in the project [/proj]), [specific_file_rst_filename] maps
    [/proj/src/a/b.py] to [/proj/docs/a/b.py.rst]; and for the file whose
    page that is, the entry in the index [/proj/docs/_index.rst] is
    [a/b.py.rst]. *)
Theorem scenario_page_path_and_index_entry
    (idx : AutodocIndex.t) (f : FileToAutodocument.t) :
  AutodocIndex.project_root_dir idx = "/proj" ->
  AutodocIndex.highest_code_dir idx = "/proj/src" ->
  AutodocIndex.autodoc_rst_root_dir idx = "/proj/docs" ->
  FileToAutodocument.target_rst_filename f = "/proj/docs/a/b.py.rst" ->
  fst (specific_file_rst_filename os idx "/proj/src/a/b.py") = Ok (list_ascii_of_string "/proj/docs/a/b.py.rst")
  /\ rst_filename_rel_autodoc_index os f "/proj/docs/_index.rst"
     = ret (list_ascii_of_string "a/b.py.rst").
Proof.
  intros _ Hcode Hroot Htarget.
  unfold specific_file_rst_filename, rst_filename_rel_autodoc_index.
  rewrite Hcode, Hroot, Htarget. split; vm_compute; reflexivity.
Qed.

(** *** Discovery *)

Lemma filename_matches_glob_value (f g : str) :
  exists t, filename_matches_glob charset_matches f g
            = (Ok (matches_glob charset_matches f g), t).
Proof.
  unfold filename_matches_glob, matches_glob.
  destruct (fnmatch.fnmatch charset_matches f g); cbn; [eauto|].
  destruct (fnmatch.fnmatch charset_matches (basename f) g); cbn; eauto.
Qed.

Lemma should_exclude_loop_value (globs : list str) (f : str) :
  exists t, should_exclude_loop charset_matches globs f
            = (Ok (excluded charset_matches globs f), t).
Proof.
  induction globs as [|g globs IH]; cbn [should_exclude_loop excluded existsb].
  - apply ret_value.
  - destruct (filename_matches_glob_value f g) as [t1 H1]. rewrite H1.
    destruct (matches_glob charset_matches f g); cbn.
    + rewrite app_nil_r. eauto.
    + destruct IH as [t2 ->]. eauto.
Qed.

Lemma inner_loop_value (idx : AutodocIndex.t) (l : list str) : forall acc,
  exists t,
    fold_W l
      (fun final_filenames filename =>
         log_debug "Trying: {!r}" [filename] ;;;
         skip <- should_exclude charset_matches idx filename ;;
         if skip then
           log_info "Skipping file {!r}" [filename] ;;;
           ret final_filenames
         else ret (final_filenames ++ [filename]))
      acc
    = (Ok (acc ++ List.filter
                    (fun f => negb (excluded charset_matches (AutodocIndex.skip_globs idx) f))
                    l), t).
Proof.
  induction l as [|x l IH]; intros acc; cbn [fold_W List.filter].
  - rewrite app_nil_r. apply ret_value.
  - unfold should_exclude.
    destruct (should_exclude_loop_value (AutodocIndex.skip_globs idx) x) as [t1 H1].
    destruct (excluded charset_matches (AutodocIndex.skip_globs idx) x) eqn:Ex; cbn [negb].
    + eapply bind_value; [|apply IH].
      eapply bind_value; [apply emit_value|].
      rewrite H1. cbn. eauto.
    + replace (acc ++ x :: List.filter
                 (fun f => negb (excluded charset_matches (AutodocIndex.skip_globs idx) f)) l)
        with ((acc ++ [x]) ++ List.filter
                 (fun f => negb (excluded charset_matches (AutodocIndex.skip_globs idx) f)) l)
        by (rewrite <- app_assoc; reflexivity).
      eapply bind_value; [|apply IH].
      eapply bind_value; [apply emit_value|].
      rewrite H1. cbn. eauto.
Qed.

Lemma outer_loop_value (glob : filesystem -> str -> bool -> list str)
    (fs : filesystem) (idx : AutodocIndex.t) (recursive : bool)
    (l : list str) : forall acc,
  exists t,
    fold_W l
      (fun final_filenames sfg =>
         let sfg_expanded := expanduser os sfg in
         log_debug "Looking for: {!r}" [sfg_expanded] ;;;
         fold_W (glob fs sfg_expanded recursive)
           (fun final_filenames filename =>
              log_debug "Trying: {!r}" [filename] ;;;
              skip <- should_exclude charset_matches idx filename ;;
              if skip then
                log_info "Skipping file {!r}" [filename] ;;;
                ret final_filenames
              else ret (final_filenames ++ [filename]))
           final_filenames)
      acc
    = (Ok (acc ++ flat_map
             (fun sfg =>
                List.filter
                  (fun f => negb (excluded charset_matches (AutodocIndex.skip_globs idx) f))
                  (glob fs (expanduser os sfg) recursive)) l), t).
Proof.
  induction l as [|sfg l IH]; intros acc; cbn [fold_W flat_map].
  - rewrite app_nil_r. apply ret_value.
  - rewrite app_assoc. eapply bind_value; [|apply IH].
    eapply bind_value; [apply emit_value|]. apply inner_loop_value.
Qed.

Lemma get_sorted_source_files_value (glob : filesystem -> str -> bool -> list str)
    (fs : filesystem) (idx : AutodocIndex.t)
    (names : filenames_or_globs) (recursive : bool) :
  exists t,
    get_sorted_source_files os glob charset_matches fs idx names recursive
    = (Ok (sort (discovered os glob charset_matches fs
                            (AutodocIndex.skip_globs idx) names recursive)), t).
Proof.
  unfold get_sorted_source_files, discovered.
  eapply bind_value; [|apply ret_value].
  apply (outer_loop_value glob fs idx recursive _ []).
Qed.

Lemma elem_of_discovered (fs : filesystem) (skip_globs : list str)
    (names : filenames_or_globs) (recursive : bool) (f : str) :
  In f (discovered os glob_glob charset_matches fs skip_globs names recursive) ->
  excluded charset_matches skip_globs f = false.
Proof.
  unfold discovered. rewrite in_flat_map. intros (sfg & _ & Hin).
  apply filter_In in Hin. destruct Hin as [_ H]. apply negb_true_iff in H. exact H.
Qed.

Lemma excluded_false_In (skip_globs : list str) (f g : str) :
  excluded charset_matches skip_globs f = false -> In g skip_globs ->
  fnmatch.fnmatch charset_matches (basename f) g = false.
Proof.
  unfold excluded. intros H Hin.
  destruct (fnmatch.fnmatch charset_matches (basename f) g) eqn:E; [|reflexivity].
  assert (existsb (matches_glob charset_matches f) skip_globs = true) as Hc.
  { apply existsb_exists. exists g. split; [exact Hin|].
    unfold matches_glob. rewrite E. apply orb_true_r. }
  congruence.
Qed.

Lemma match_literals (l x : str) :
  fnmatch.match_toks charset_matches (map fnmatch.GLit l) x = true <-> x = l.
Proof.
  revert x. induction l as [|a l IH]; intros [|c x]; cbn [map fnmatch.match_toks].
  - split; reflexivity.
  - split; discriminate.
  - split; discriminate.
  - rewrite andb_true_iff, Ascii.eqb_eq, IH. split.
    + intros [-> ->]. reflexivity.
    + intros [= -> ->]. split; reflexivity.
Qed.

Lemma match_literal_tmp (x : str) :
  fnmatch.match_toks charset_matches
    [fnmatch.GLit "."; fnmatch.GLit "t"; fnmatch.GLit "m"; fnmatch.GLit "p"] x = true
  <-> x = ".tmp".
Proof. apply (match_literals ".tmp"). Qed.

Lemma fnmatch_star_tmp (name : str) :
  fnmatch.fnmatch charset_matches name "*.tmp" = endswith name ".tmp".
Proof.
  apply eq_true_iff_eq. rewrite endswith_iff.
  unfold fnmatch.fnmatch.
  change (fnmatch.tokens_from 0 "*.tmp")
    with [fnmatch.GStar; fnmatch.GLit "."; fnmatch.GLit "t"; fnmatch.GLit "m";
          fnmatch.GLit "p"].
  induction name as [|c name IH].
  - cbn. split; [discriminate|]. intros [p Hp]. destruct p; discriminate.
  - change (fnmatch.match_toks charset_matches
              [fnmatch.GStar; fnmatch.GLit "."; fnmatch.GLit "t"; fnmatch.GLit "m";
               fnmatch.GLit "p"] (c :: name))
      with (fnmatch.match_toks charset_matches
              [fnmatch.GLit "."; fnmatch.GLit "t"; fnmatch.GLit "m"; fnmatch.GLit "p"]
              (c :: name)
            || fnmatch.match_toks charset_matches
                 [fnmatch.GStar; fnmatch.GLit "."; fnmatch.GLit "t"; fnmatch.GLit "m";
                  fnmatch.GLit "p"] name).
    rewrite orb_true_iff, match_literal_tmp, IH. split.
    + intros [H|[p ->]]; [exists []; exact H | exists (c :: p); reflexivity].
    + intros [[|a p] Hp]; [left; exact Hp | right].
      injection Hp as -> ->. eauto.
Qed.

(** C4.  When [*.tmp] is among the exclusion patterns, discovery returns a
    list, and no path in it has a base name that matches [*.tmp] (that is: a
    base name that ends in [.tmp]), whatever directory the path lies in. *)
Theorem discovery_excludes_tmp (fs : filesystem) (idx : AutodocIndex.t)
    (names : filenames_or_globs) (recursive : bool) :
  In (list_ascii_of_string "*.tmp") (AutodocIndex.skip_globs idx) ->
  exists files t,
    get_sorted_source_files os glob_glob charset_matches fs idx names recursive
    = (Ok files, t)
    /\ forall f, In f files ->
         fnmatch.fnmatch charset_matches (basename f) "*.tmp" = false
         /\ endswith (basename f) ".tmp" = false.
Proof.
  intros Hin.
  destruct (get_sorted_source_files_value glob_glob fs idx names recursive) as [t Ht].
  eexists _, t. split; [exact Ht|].
  intros f Hf.
  assert (fnmatch.fnmatch charset_matches (basename f) "*.tmp" = false) as Hm.
  { eapply excluded_false_In; [|exact Hin].
    eapply elem_of_discovered.
    apply (Permutation_in f (sort_perm _)). exact Hf. }
  split; [exact Hm|]. rewrite <- fnmatch_star_tmp. exact Hm.
Qed.

(** C5.  Discovery returns a list sorted in the order of strings (by code
    point, a proper prefix first), and the list does not depend on the order
    in which [glob] yields the paths of a pattern: a [glob] that yields the
    same paths in another order gives the same list. *)
Theorem discovery_sorted_and_stable (fs : filesystem) (idx : AutodocIndex.t)
    (names : filenames_or_globs) (recursive : bool) :
  exists files t,
    get_sorted_source_files os glob_glob charset_matches fs idx names recursive
    = (Ok files, t)
    /\ StronglySorted str_le files
    /\ forall glob_glob' : filesystem -> str -> bool -> list str,
         (forall pattern, glob_glob' fs pattern recursive ≡ₚ glob_glob fs pattern recursive) ->
         fst (get_sorted_source_files os glob_glob' charset_matches fs idx names recursive)
         = Ok files.
Proof.
  destruct (get_sorted_source_files_value glob_glob fs idx names recursive) as [t Ht].
  eexists _, t. split; [exact Ht|]. split; [apply sort_sorted|].
  intros glob' Hperm.
  assert (forall l,
            flat_map (fun sfg =>
              List.filter (fun f => negb (excluded charset_matches (AutodocIndex.skip_globs idx) f))
                          (glob' fs (expanduser os sfg) recursive)) l
            ≡ₚ flat_map (fun sfg =>
              List.filter (fun f => negb (excluded charset_matches (AutodocIndex.skip_globs idx) f))
                          (glob_glob fs (expanduser os sfg) recursive)) l) as Hflat.
  { induction l as [|sfg l IH]; cbn [flat_map]; [reflexivity|].
    apply Permutation_app; [|exact IH].
    generalize (Hperm (expanduser os sfg)).
    generalize (glob' fs (expanduser os sfg) recursive)
               (glob_glob fs (expanduser os sfg) recursive).
    intros l1 l2 H12. induction H12; cbn [List.filter].
    - reflexivity.
    - destruct (negb _); [constructor|]; assumption.
    - destruct (negb (excluded _ _ y)), (negb (excluded _ _ x)); try reflexivity.
      apply perm_swap.
    - etransitivity; eassumption. }
  destruct (get_sorted_source_files_value glob' fs idx names recursive) as [t' Ht'].
  rewrite Ht'. cbn [fst]. f_equal. apply sort_of_perm. apply Hflat.
Qed.

(** *** The default exclusion patterns *)

Lemma ret_Ok {A : Type} (a b : A) (t : list event) : ret a = (Ok b, t) -> a = b /\ t = [].
Proof. unfold ret. intros [= -> <-]. auto. Qed.

Lemma set_files_to_index_skip_globs (self : AutodocIndex.t)
    (files : list (AutodocIndex.entry AutodocIndex.t)) :
  AutodocIndex.skip_globs (set_files_to_index self files) = AutodocIndex.skip_globs self.
Proof. destruct self. reflexivity. Qed.

Lemma add_source_files_skip_globs (fs : filesystem) (self idx : AutodocIndex.t)
    names method recursive style override (t : list event) :
  add_source_files os glob_glob charset_matches fs self names method recursive style override
  = (Ok idx, t) ->
  AutodocIndex.skip_globs idx = AutodocIndex.skip_globs self.
Proof.
  unfold add_source_files. destruct names as [sfg|].
  - destruct (negb (truthy (Some sfg))).
    + intros H. apply ret_Ok in H. destruct H as [<- _]. reflexivity.
    + intros H. inv_bind H. apply ret_Ok in H. destruct H as [<- _].
      apply set_files_to_index_skip_globs.
  - intros H. apply ret_Ok in H. destruct H as [<- _]. reflexivity.
Qed.

Lemma fnmatch_init_py (name : str) :
  fnmatch.fnmatch charset_matches name "__init__.py" = true <-> name = "__init__.py".
Proof. apply (match_literals "__init__.py"). Qed.

(** C10.  An [AutodocIndex] made with [skip_globs=None] has the exclusion
    patterns [["__init__.py"]], and every discovery call on it returns a
    list without any file whose base name is [__init__.py]. *)
Theorem default_skip_globs_exclude_init_py
    (fs : filesystem)
    (index_filename project_root_dir autodoc_rst_root_dir highest_code_dir : str)
    (python_package_root_dir : option str)
    (source_filenames_or_globs : option filenames_or_globs)
    (index_heading_underline_char source_rst_heading_underline_char title : str)
    (recursive : bool) (toctree_maxdepth : Z) (method : AutodocMethod)
    (rst_prefix rst_suffix : str) (source_rst_title_style_python : bool)
    (pygments_language_override : option (gmap str str))
    (idx : AutodocIndex.t) (t0 : list event) :
  AutodocIndex_init os glob_glob charset_matches fs
    index_filename project_root_dir autodoc_rst_root_dir highest_code_dir
    python_package_root_dir source_filenames_or_globs
    index_heading_underline_char source_rst_heading_underline_char title
    recursive None toctree_maxdepth method rst_prefix rst_suffix
    source_rst_title_style_python pygments_language_override
  = (Ok idx, t0) ->
  AutodocIndex.skip_globs idx = DEFAULT_SKIP_GLOBS
  /\ DEFAULT_SKIP_GLOBS = [list_ascii_of_string "__init__.py"]
  /\ forall (fs' : filesystem) (names : filenames_or_globs) (recursive' : bool),
       exists files t,
         get_sorted_source_files os glob_glob charset_matches fs' idx names recursive'
         = (Ok files, t)
         /\ forall f, In f files -> basename f <> "__init__.py".
Proof.
  intros Hinit.
  assert (AutodocIndex.skip_globs idx = DEFAULT_SKIP_GLOBS) as Hskip.
  { unfold AutodocIndex_init in Hinit. inv_bind Hinit.
    destruct (truthy source_filenames_or_globs).
    - apply add_source_files_skip_globs in Hinit. exact Hinit.
    - apply ret_Ok in Hinit. destruct Hinit as [<- _]. reflexivity. }
  split; [exact Hskip|]. split; [reflexivity|].
  intros fs' names recursive'.
  destruct (get_sorted_source_files_value glob_glob fs' idx names recursive') as [t Ht].
  eexists _, t. split; [exact Ht|].
  intros f Hf Hb.
  assert (fnmatch.fnmatch charset_matches (basename f) "__init__.py" = false) as Hm.
  { eapply excluded_false_In.
    - eapply elem_of_discovered. apply (Permutation_in f (sort_perm _)). exact Hf.
    - rewrite Hskip. left. reflexivity. }
  apply fnmatch_init_py in Hb. congruence.
Qed.

(** *** Construction of a FileToAutodocument *)


(** *** Writing a tree *)

Lemma written_app (t1 t2 : list event) : written (t1 ++ t2) = written t1 ++ written t2.
Proof. unfold written. apply flat_map_app. Qed.

Lemma bind_written {A B : Type} (m : W A) (k : A -> W B) :
  written (snd m) = [] -> (forall a, written (snd (k a)) = []) ->
  written (snd (bind m k)) = [].
Proof.
  unfold bind. destruct m as [[a|e] t]; cbn [snd]; intros Hm Hk; [|exact Hm].
  specialize (Hk a). destruct (k a) as [r t']. cbn [snd] in *.
  rewrite written_app, Hm, Hk. reflexivity.
Qed.

Lemma fold_W_written {A S : Type} (xs : list A) (body : S -> A -> W S) :
  (forall acc x, written (snd (body acc x)) = []) ->
  forall acc, written (snd (fold_W xs body acc)) = [].
Proof.
  intros Hb. induction xs as [|x xs IH]; intros acc; cbn [fold_W]; [reflexivity|].
  apply bind_written; [apply Hb | intros a; apply IH].
Qed.

Create HintDb logs.

(** Closes goals saying that a computation only logs. *)
Ltac logs :=
  repeat (first
    [ reflexivity
    | assumption
    | solve [auto with logs]
    | apply bind_written; [ | intros ? ]
    | apply fold_W_written; intros ? ?
    | match goal with
      | |- written (snd (if ?c then _ else _)) = [] => destruct c
      | |- written (snd (match ?x with _ => _ end)) = [] => destruct x
      end ]).

Lemma relpath_written (path start : str) : written (snd (relpath os path start)) = [].
Proof. unfold relpath. logs. Qed.

#[local] Hint Resolve relpath_written : logs.

Lemma rst_underline_written (heading c : str) :
  written (snd (rst_underline heading c)) = [].
Proof. unfold rst_underline, assert. logs. Qed.

#[local] Hint Resolve rst_underline_written : logs.

Lemma rst_content_written (f : FileToAutodocument.t) (prefix suffix c : str)
    (method : option AutodocMethod) :
  written (snd (rst_content os get_lexer_for_filename f prefix suffix c method)) = [].
Proof.
  unfold rst_content, title_and_instruction, python_module_name, pygments_language,
    source_filename_rel_project_root, source_filename_rel_python_root,
    source_filename_rel_rst_file, rst_filename_rel_project_root.
  logs.
Qed.

Lemma index_content_written (idx : AutodocIndex.t) :
  written (snd (index_content os idx)) = [].
Proof.
  unfold index_content, rst_filename_rel_autodoc_index, index_filename_rel_other_index,
    index_filename_rel_project_root, fail.
  logs.
Qed.

Lemma write_if_allowed_written (filename content : str) (overwrite mock : bool)
    (fs : filesystem) :
  written (snd (fst (write_if_allowed os filename content overwrite mock fs)))
  = if is_ok (fst (fst (write_if_allowed os filename content overwrite mock fs)))
       && negb mock
    then [filename] else [].
Proof.
  unfold write_if_allowed, mbind, mret, liftW, mkdir_p, write_text, fail, log_info,
    log_warning, emit, raise, ret, bind.
  destruct (negb overwrite && path_exists os fs filename); [reflexivity|].
  destruct mock; cbn; [reflexivity|].
  destruct (str_eqb (dirname filename) []); [reflexivity|].
  destruct (start_dir os fs (dirname filename)) as [d|]; [|reflexivity].
  destruct (makedirs fs d _) as [[|] fs1]; [|reflexivity].
  destruct (start_dir os fs1 filename) as [d1|]; [|reflexivity].
  destruct (resolve fs1 d1 _) as [parent|]; [|reflexivity].
  destruct (lookup_node fs1 parent) as [[?|]|]; try reflexivity.
  destruct (fs1 !! _) as [[?|]|]; try reflexivity;
    destruct (is_name _); reflexivity.
Qed.

Lemma writes_ok_of_written (mock : bool) (filename : str) (r : res unit) (t : list event) :
  written t = (if is_ok r && negb mock then [filename] else []) ->
  writes_ok mock [filename] [] r t.
Proof.
  unfold writes_ok. destruct mock, (is_ok r); cbn; intros ->;
    first [reflexivity | exists []; reflexivity].
Qed.

Lemma write_rst_writes (f : FileToAutodocument.t) (prefix suffix c : str)
    (method : option AutodocMethod) (overwrite mock : bool) (fs : filesystem) :
  writes_ok mock [FileToAutodocument.target_rst_filename f] []
    (fst (fst (write_rst os get_lexer_for_filename f prefix suffix c method overwrite mock fs)))
    (snd (fst (write_rst os get_lexer_for_filename f prefix suffix c method overwrite mock fs))).
Proof.
  unfold write_rst, mbind, liftW.
  pose proof (rst_content_written f prefix suffix c method) as Hlog.
  destruct (rst_content os get_lexer_for_filename f prefix suffix c method) as [[content|e] t1].
  - pose proof (write_if_allowed_written (FileToAutodocument.target_rst_filename f)
                  content overwrite mock fs) as Hw.
    destruct (write_if_allowed os (FileToAutodocument.target_rst_filename f) content
                overwrite mock fs) as [[r t2] fs2].
    cbn [fst snd] in *. apply writes_ok_of_written.
    rewrite written_app, Hlog. exact Hw.
  - cbn [fst snd] in *. unfold writes_ok. rewrite Hlog.
    destruct mock; cbn; [reflexivity | exists []; reflexivity].
Qed.

Lemma write_index_writes (idx : AutodocIndex.t) (overwrite mock : bool) (fs : filesystem) :
  writes_ok mock [AutodocIndex.index_filename idx] []
    (fst (fst (write_index os idx overwrite mock fs)))
    (snd (fst (write_index os idx overwrite mock fs))).
Proof.
  unfold write_index, mbind, liftW.
  pose proof (index_content_written idx) as Hlog.
  destruct (index_content os idx) as [[content|e] t1].
  - pose proof (write_if_allowed_written (AutodocIndex.index_filename idx)
                  content overwrite mock fs) as Hw.
    destruct (write_if_allowed os (AutodocIndex.index_filename idx) content
                overwrite mock fs) as [[r t2] fs2].
    cbn [fst snd] in *. apply writes_ok_of_written.
    rewrite written_app, Hlog. exact Hw.
  - cbn [fst snd] in *. unfold writes_ok. rewrite Hlog.
    destruct mock; cbn; [reflexivity | exists []; reflexivity].
Qed.

(** Two writes in sequence. *)
Lemma writes_ok_seq (mock : bool) (full1 part1 full2 part2 : list str)
    (m1 : M unit) (m2 : M unit) (fs : filesystem) :
  part1 `prefix_of` full1 ->
  writes_ok mock full1 part1 (fst (fst (m1 fs))) (snd (fst (m1 fs))) ->
  (forall fs1, writes_ok mock full2 part2 (fst (fst (m2 fs1))) (snd (fst (m2 fs1)))) ->
  writes_ok mock (full1 ++ full2)
    (if is_ok (fst (fst (m1 fs))) then full1 ++ part2 else part1)
    (fst (fst ((m1 ;;~ m2) fs))) (snd (fst ((m1 ;;~ m2) fs))).
Proof.
  intros Hp H1 H2. unfold mbind.
  destruct (m1 fs) as [[[[]|e] t1] fs1]; cbn [fst snd is_ok] in *.
  - specialize (H2 fs1). destruct (m2 fs1) as [[r2 t2] fs2]. cbn [fst snd] in *.
    unfold writes_ok in *. rewrite written_app.
    destruct mock; [rewrite H1, H2; reflexivity|].
    cbn [is_ok] in H1. rewrite H1. destruct (is_ok r2).
    + rewrite H2. reflexivity.
    + apply prefix_app. exact H2.
  - unfold writes_ok in *. destruct mock; [exact H1|]. cbn [is_ok] in *. exact H1.
Qed.

Lemma writes_ok_weaken (mock : bool) (full part part' : list str)
    (r : res unit) (t : list event) :
  part `prefix_of` part' -> writes_ok mock full part r t -> writes_ok mock full part' r t.
Proof.
  unfold writes_ok. intros Hp. destruct mock, (is_ok r); auto.
  intros H. etransitivity; eassumption.
Qed.

Lemma mfor_each_cons {A : Type} (x : A) (xs : list A) (body : A -> M unit) :
  mfor_each (x :: xs) body = (body x ;;~ mfor_each xs body).
Proof. reflexivity. Qed.

Lemma loop_writes (mock : bool) (body : AutodocIndex.entry AutodocIndex.t -> M unit)
    (es : list (AutodocIndex.entry AutodocIndex.t)) :
  Forall (fun e => forall fs,
            writes_ok mock (entry_pages e) (entry_pages e)
              (fst (fst (body e fs))) (snd (fst (body e fs)))) es ->
  forall fs,
    writes_ok mock (flat_map entry_pages es) (flat_map entry_pages es)
      (fst (fst (mfor_each es body fs))) (snd (fst (mfor_each es body fs))).
Proof.
  induction 1 as [|e es He Hes IH]; intros fs.
  - unfold writes_ok. cbn. destruct mock; reflexivity.
  - rewrite mfor_each_cons. cbn [flat_map].
    eapply writes_ok_weaken;
      [|apply (writes_ok_seq mock (entry_pages e) (entry_pages e)
                 (flat_map entry_pages es) (flat_map entry_pages es));
        [reflexivity | apply He | apply IH]].
    destruct (is_ok _); [reflexivity | apply prefix_app_r; reflexivity].
Qed.

Lemma AutodocIndex_nested_ind (P : AutodocIndex.t -> Prop) :
  (forall idx,
      Forall (fun e => match e with
                       | EIndex i => P i
                       | _ => True
                       end) (AutodocIndex.files_to_index idx) ->
      P idx) ->
  forall idx, P idx.
Proof.
  intros H. fix IH 1. intros idx. apply H.
  destruct idx as [? ? ? ? ? ? ? ? ? ? ? ? ? ? ? ? files]. cbn [AutodocIndex.files_to_index].
  revert files. fix IHf 1. intros [|e files].
  - constructor.
  - constructor; [|apply IHf].
    destruct e as [f|i|r]; [exact I | apply IH | exact I].
Qed.

Lemma write_index_and_rst_files_eq (idx : AutodocIndex.t) (overwrite mock : bool) :
  write_index_and_rst_files os get_lexer_for_filename idx overwrite mock
  = (mfor_each (AutodocIndex.files_to_index idx)
       (write_entry os get_lexer_for_filename idx overwrite mock) ;;~
     write_index os idx overwrite mock).
Proof. destruct idx. reflexivity. Qed.

Lemma pages_in_order_eq (idx : AutodocIndex.t) :
  pages_in_order idx = children_pages idx ++ [AutodocIndex.index_filename idx].
Proof. destruct idx. reflexivity. Qed.

Lemma tree_writes (mock : bool) (idx : AutodocIndex.t) : forall overwrite fs,
  writes_ok mock (pages_in_order idx) (children_pages idx)
    (fst (fst (write_index_and_rst_files os get_lexer_for_filename idx overwrite mock fs)))
    (snd (fst (write_index_and_rst_files os get_lexer_for_filename idx overwrite mock fs))).
Proof.
  induction idx as [idx IH] using AutodocIndex_nested_ind. intros overwrite fs.
  rewrite write_index_and_rst_files_eq, pages_in_order_eq.
  eapply writes_ok_weaken;
    [|apply (writes_ok_seq mock (children_pages idx) (children_pages idx)
               [AutodocIndex.index_filename idx] []);
      [reflexivity | | intros fs1; apply write_index_writes]].
  - destruct (is_ok _); [rewrite app_nil_r|]; reflexivity.
  - apply loop_writes.
    induction IH as [|e es He Hes IHes]; constructor; [|exact IHes].
    intros fs1. destruct e as [f|i|r]; cbn [write_entry entry_pages].
    + eapply writes_ok_weaken; [|apply write_rst_writes]. apply prefix_nil.
    + eapply writes_ok_weaken; [|apply He].
      rewrite pages_in_order_eq. apply prefix_app_r. reflexivity.
    + unfold writes_ok. cbn. destruct mock; [reflexivity | exists []; reflexivity].
Qed.

Lemma mfor_each_raise {A : Type} (body : A -> M unit) (before : list A) (c : A)
    (after : list A) (e : exn) : forall fs t1 fs1 t2 fs2,
  mfor_each before body fs = ((Ok tt, t1), fs1) ->
  body c fs1 = ((Raise e, t2), fs2) ->
  mfor_each (before ++ c :: after) body fs = ((Raise e, t1 ++ t2), fs2).
Proof.
  induction before as [|b bs IH]; intros fs t1 fs1 t2 fs2 Hb Hc.
  - cbn in Hb. injection Hb as <- <-. cbn [app].
    rewrite mfor_each_cons. unfold mbind. rewrite Hc. reflexivity.
  - rewrite <- app_comm_cons, mfor_each_cons. rewrite mfor_each_cons in Hb.
    unfold mbind in *.
    destruct (body b fs) as [[[[]|eb] ta] fsa]; [|discriminate].
    destruct (mfor_each bs body fsa) as [[rb tb] fsb] eqn:Hbs.
    injection Hb as -> <- ->.
    rewrite (IH fsa tb fs1 t2 fs2 Hbs Hc). rewrite app_assoc. reflexivity.
Qed.

(** C6.  [write_index_and_rst_files] writes the pages in the order
    [pages_in_order]: the page of every file and the whole tree of every
    sub-index first, the page of the index itself last.  A run that returns
    (not in mock mode) has written exactly these pages in this order; a run
    that raises has written a prefix of the pages below the index and not
    the index's own page; and when the write of an entry raises, the run
    ends there with that exception: nothing is done for the entries after it
    nor for the index page. *)
Theorem write_children_before_index_and_abort
    (idx : AutodocIndex.t) (overwrite mock : bool) (fs : filesystem) :
  let run := write_index_and_rst_files os get_lexer_for_filename idx overwrite mock fs in
  pages_in_order idx = children_pages idx ++ [AutodocIndex.index_filename idx]
  /\ (mock = false -> fst (fst run) = Ok tt ->
      written (snd (fst run)) = pages_in_order idx)
  /\ (forall e, fst (fst run) = Raise e ->
      written (snd (fst run)) `prefix_of` children_pages idx)
  /\ (forall before c after e t1 fs1 t2 fs2,
        AutodocIndex.files_to_index idx = before ++ c :: after ->
        mfor_each before (write_entry os get_lexer_for_filename idx overwrite mock) fs
        = ((Ok tt, t1), fs1) ->
        write_entry os get_lexer_for_filename idx overwrite mock c fs1
        = ((Raise e, t2), fs2) ->
        run = ((Raise e, t1 ++ t2), fs2)).
Proof.
  intros run. split; [apply pages_in_order_eq|].
  pose proof (tree_writes mock idx overwrite fs) as Hw. fold run in Hw.
  unfold writes_ok in Hw.
  split; [|split].
  - intros -> Hok. rewrite Hok in Hw. exact Hw.
  - intros e He. rewrite He in Hw. destruct mock; [rewrite Hw; apply prefix_nil | exact Hw].
  - intros before c after e t1 fs1 t2 fs2 Hfiles Hbefore Hc. subst run.
    rewrite write_index_and_rst_files_eq, Hfiles. unfold mbind at 1.
    rewrite (mfor_each_raise _ before c after e fs t1 fs1 t2 fs2 Hbefore Hc).
    reflexivity.
Qed.

(** *** Lines and white space *)

Lemma split_ne (s : str) (c : ascii) : split s c <> [].
Proof.
  destruct s as [|x s]; cbn; [discriminate|].
  destruct (Ascii.eqb x c); [discriminate|]. destruct (split s c); discriminate.
Qed.

Lemma split_app_sep (a b : str) (c : ascii) :
  split (a ++ c :: b) c = split a c ++ split b c.
Proof.
  induction a as [|x a IH]; cbn [app split].
  - rewrite Ascii.eqb_refl. reflexivity.
  - destruct (Ascii.eqb x c); [rewrite IH; reflexivity|].
    rewrite IH. pose proof (split_ne a c) as Hne.
    destruct (split a c); [contradiction | reflexivity].
Qed.

(** The lines of a text and those of a text that begins with it. *)
Lemma split_app_cut (x y : str) (c : ascii) :
  exists L a b L',
    split x c = L ++ [a] /\ split y c = b :: L' /\ split (x ++ y) c = L ++ [a ++ b] ++ L'.
Proof.
  induction x as [|ch x IH]; cbn [app split].
  - pose proof (split_ne y c) as Hne. destruct (split y c) as [|b L']; [contradiction|].
    exists [], [], b, L'. auto.
  - destruct IH as (L & a & b & L' & Hx & Hy & Hxy). rewrite Hx, Hxy.
    destruct (Ascii.eqb ch c).
    + exists ([] :: L), a, b, L'. auto.
    + destruct L as [|l0 L0]; cbn [app].
      * exists [], (ch :: a), b, L'. auto.
      * exists ((ch :: l0) :: L0), a, b, L'. auto.
Qed.

Lemma split_no_sep (s : str) (c : ascii) : ~ In c s -> split s c = [s].
Proof.
  induction s as [|x s IH]; cbn [split]; [reflexivity|]. intros Hn.
  destruct (Ascii.eqb x c) eqn:E.
  - apply Ascii.eqb_eq in E. subst. exfalso. apply Hn. left. reflexivity.
  - rewrite IH; [reflexivity|]. intros H. apply Hn. right. exact H.
Qed.

Lemma split_chars (s : str) (c : ascii) (l : str) (ch : ascii) :
  In l (split s c) -> In ch l -> In ch s.
Proof.
  revert l. induction s as [|x s IH]; cbn [split]; intros l Hl Hch.
  - destruct Hl as [<-|[]]. exact Hch.
  - destruct (Ascii.eqb x c).
    + destruct Hl as [<-|Hl]; [destruct Hch|]. right. eapply IH; eassumption.
    + destruct (split s c) as [|hd tl] eqn:Hs.
      * destruct Hl as [<-|[]]. destruct Hch as [<-|[]]. left. reflexivity.
      * destruct Hl as [<-|Hl].
        -- destruct Hch as [<-|Hch]; [left; reflexivity|].
           right. apply (IH hd); [left; reflexivity | exact Hch].
        -- right. apply (IH l); [right; exact Hl | exact Hch].
Qed.

Lemma lstrip_suffix (s : str) : exists w, s = w ++ lstrip s.
Proof.
  induction s as [|c s [w IH]]; cbn [lstrip]; [exists []; reflexivity|].
  destruct (isspace c); [|exists []; reflexivity].
  exists (c :: w). cbn. rewrite <- IH. reflexivity.
Qed.

Lemma lstrip_head (s : str) :
  lstrip s = [] \/ exists c s', lstrip s = c :: s' /\ isspace c = false.
Proof.
  induction s as [|c s IH]; cbn [lstrip]; [left; reflexivity|].
  destruct (isspace c) eqn:E; [exact IH|]. right. exists c, s. auto.
Qed.

Lemma lstrip_app_nonspace (a b : str) (c : ascii) :
  isspace c = false -> lstrip (a ++ c :: b) = lstrip a ++ c :: b.
Proof.
  intros Hc. induction a as [|x a IH]; cbn [app lstrip].
  - rewrite Hc. reflexivity.
  - destruct (isspace x); [exact IH | reflexivity].
Qed.

Lemma rstrip_app_nonspace (p q : str) (c : ascii) :
  isspace c = false -> rstrip (p ++ c :: q) = p ++ c :: rstrip q.
Proof.
  intros Hc. unfold rstrip.
  replace (rev (p ++ c :: q)) with (rev q ++ c :: rev p)
    by (rewrite rev_app_distr; cbn [rev]; rewrite <- app_assoc; reflexivity).
  rewrite (lstrip_app_nonspace _ _ _ Hc), rev_app_distr. cbn [rev].
  rewrite rev_involutive, <- app_assoc. reflexivity.
Qed.

Lemma rstrip_prefix (q : str) : exists w, q = rstrip q ++ w.
Proof.
  unfold rstrip. destruct (lstrip_suffix (rev q)) as [w Hw].
  exists (rev w). rewrite <- rev_app_distr, <- Hw, rev_involutive. reflexivity.
Qed.

Lemma rstrip_last (q : str) :
  rstrip q = [] \/ exists b c, rstrip q = b ++ [c] /\ isspace c = false.
Proof.
  unfold rstrip. destruct (lstrip_head (rev q)) as [->|(c & s' & -> & Hc)];
    [left; reflexivity|].
  right. exists (rev s'), c. auto.
Qed.

Lemma lstrip_cons_space (c : ascii) (s : str) : isspace c = true -> lstrip (c :: s) = lstrip s.
Proof. intros H. cbn [lstrip]. rewrite H. reflexivity. Qed.

Lemma lstrip_cons_nonspace (c : ascii) (s : str) : isspace c = false -> lstrip (c :: s) = c :: s.
Proof. intros H. cbn [lstrip]. rewrite H. reflexivity. Qed.

Lemma rstrip_after_marker (a b : str) :
  rstrip (a ++ AUTOGENERATED_COMMENT ++ b) = a ++ AUTOGENERATED_COMMENT ++ rstrip b.
Proof.
  change AUTOGENERATED_COMMENT
    with (".. THIS FILE IS AUTOMATICALLY GENERATED. DO NOT EDIT" ++ ["."%char]).
  rewrite <- !app_assoc. cbn [app].
  rewrite (app_assoc a). rewrite rstrip_app_nonspace by reflexivity.
  rewrite <- app_assoc. reflexivity.
Qed.

Lemma strip_page_template (filename prefix underlined_title instruction suffix : str) :
  strip (page_template filename prefix underlined_title instruction suffix)
  = (".. " ++ filename ++ [NL] ++ "        " ++ [NL]) ++ AUTOGENERATED_COMMENT
    ++ rstrip (NL :: NL :: prefix ++ NL :: NL :: underlined_title ++ NL :: NL
               :: instruction ++ NL :: NL :: suffix ++ NL :: "        ").
Proof.
  unfold strip. rewrite <- rstrip_after_marker. f_equal.
  unfold page_template. cbn [app list_ascii_of_string].
  rewrite lstrip_cons_space by reflexivity.
  rewrite lstrip_cons_nonspace by reflexivity.
  rewrite <- !app_assoc. reflexivity.
Qed.

(** *** The marker line *)

Lemma marker_lines_app_nl (a b : str) :
  marker_lines (a ++ NL :: b) = marker_lines a + marker_lines b.
Proof.
  unfold marker_lines, lines. rewrite split_app_sep, List.filter_app, length_app. reflexivity.
Qed.

Lemma no_marker_start_app_nl (a b : str) :
  no_marker_start (a ++ NL :: b) = no_marker_start a && no_marker_start b.
Proof.
  unfold no_marker_start, lines. rewrite split_app_sep. apply forallb_app.
Qed.

Lemma startswith_app (p r : str) : startswith (p ++ r) p = true.
Proof. apply startswith_iff. exists r. reflexivity. Qed.

Lemma marker_lines_prefix (x y : str) :
  no_marker_start (x ++ y) = true -> marker_lines x = 0.
Proof.
  unfold no_marker_start, marker_lines, lines.
  destruct (split_app_cut x y NL) as (L & a & b & L' & -> & _ & ->).
  rewrite !forallb_app, List.filter_app, length_app. cbn [forallb List.filter].
  rewrite !andb_true_iff. intros (HL & (Ha & _) & _).
  assert (List.filter (str_eqb AUTOGENERATED_COMMENT) L = []) as ->.
  { clear -HL. induction L as [|l L IH]; cbn [List.filter forallb] in *; [reflexivity|].
    apply andb_true_iff in HL. destruct HL as [Hl HL].
    destruct (str_eqb AUTOGENERATED_COMMENT l) eqn:E; [|apply IH, HL].
    apply str_eqb_eq in E. subst l.
    rewrite <- (app_nil_r AUTOGENERATED_COMMENT) in Hl at 1.
    rewrite startswith_app in Hl. discriminate. }
  destruct (str_eqb AUTOGENERATED_COMMENT a) eqn:E; [|reflexivity].
  apply str_eqb_eq in E. subst a. rewrite startswith_app in Ha. discriminate.
Qed.

Lemma marker_lines_none (x : str) : no_marker_start x = true -> marker_lines x = 0.
Proof. intros H. apply (marker_lines_prefix x []). rewrite app_nil_r. exact H. Qed.

Lemma in_str_mul (c ch : ascii) (n : nat) : In ch (str_mul [c] n) -> ch = c.
Proof.
  induction n as [|n IH]; cbn; [intros []|]. intros [H|H]; [congruence | auto].
Qed.

Lemma no_marker_start_underline (c : ascii) (n : nat) :
  no_marker_start (str_mul [c] n) = true.
Proof.
  unfold no_marker_start. apply forallb_forall. intros l Hl.
  destruct (startswith l AUTOGENERATED_COMMENT) eqn:E; [|reflexivity]. exfalso.
  apply startswith_iff in E. destruct E as [r ->].
  assert ("."%char = c) as H1.
  { apply (in_str_mul c _ n), (split_chars _ NL _ _ Hl). left. reflexivity. }
  assert (" "%char = c) as H2.
  { apply (in_str_mul c _ n), (split_chars _ NL _ _ Hl). right. right. left. reflexivity. }
  congruence.
Qed.

Lemma rst_underline_Ok (heading underline_char result : str) (t : list event) :
  rst_underline heading underline_char = (Ok result, t) ->
  exists c, underline_char = [c]
            /\ result = heading ++ NL :: str_mul [c] (length heading).
Proof.
  unfold rst_underline. intros H. inv_bind H. apply ret_Ok in H. destruct H as [<- _].
  destruct underline_char as [|c [|? ?]]; try discriminate. exists c. auto.
Qed.

Lemma marker_lines_marker : marker_lines AUTOGENERATED_COMMENT = 1.
Proof. reflexivity. Qed.

Lemma no_marker_start_cons_nl (b : str) : no_marker_start (NL :: b) = no_marker_start b.
Proof. apply (no_marker_start_app_nl [] b). Qed.

(** The rendered page, cut at the marker line: the label, the marker, and
    what is left of the rest once the trailing white space is stripped. *)
Lemma marker_lines_content (label rest : str) :
  exists tail,
    label ++ NL :: AUTOGENERATED_COMMENT ++ rstrip (NL :: rest) ++ [NL]
    = label ++ NL :: AUTOGENERATED_COMMENT ++ NL :: tail
    /\ marker_lines (label ++ NL :: AUTOGENERATED_COMMENT ++ rstrip (NL :: rest) ++ [NL])
       = marker_lines label + 1 + marker_lines tail
    /\ (no_marker_start rest = true -> marker_lines tail = 0).
Proof.
  destruct (rstrip_prefix (NL :: rest)) as [w Hw].
  destruct (rstrip (NL :: rest)) as [|x X] eqn:HX.
  - exists []. cbn [app]. split; [reflexivity|].
    rewrite !marker_lines_app_nl, marker_lines_marker. auto.
  - cbn [app] in Hw. injection Hw as <- Hrest.
    exists (X ++ [NL]). cbn [app]. split; [reflexivity|].
    rewrite !marker_lines_app_nl, marker_lines_marker.
    split; [lia|]. intros Hno.
    rewrite (marker_lines_prefix X w); [reflexivity|]. rewrite <- Hrest. exact Hno.
Qed.

(** C3, as amended.  The text [rst_content] returns ends with exactly one
    newline (the character before it is not white space) and contains the
    marker line at least once; it contains it exactly once when no line of
    the label, the prefix, the title, the instruction or the suffix begins
    with the marker. *)
Theorem rst_content_newline_and_marker (f : FileToAutodocument.t)
    (prefix suffix heading_underline_char : str) (method : option AutodocMethod)
    (content : str) (t : list event) :
  rst_content os get_lexer_for_filename f prefix suffix heading_underline_char method
  = (Ok content, t) ->
  (exists body c, content = body ++ [c; NL] /\ isspace c = false)
  /\ 1 <= marker_lines content
  /\ (forall title instruction filename,
        fst (title_and_instruction os get_lexer_for_filename f (final_method f method))
        = Ok (title, instruction) ->
        fst (rst_filename_rel_project_root os f) = Ok filename ->
        no_marker_start (".. " ++ filename) = true ->
        no_marker_start prefix = true ->
        no_marker_start title = true ->
        no_marker_start instruction = true ->
        no_marker_start suffix = true ->
        marker_lines content = 1).
Proof.
  intros H. unfold rst_content in H. inv_bind H.
  apply ret_Ok in H. destruct H as [<- _].
  destruct a as [title instruction]. cbn [fst snd] in *.
  apply rst_underline_Ok in H2. destruct H2 as (c & -> & ->).
  rewrite strip_page_template.
  set (rest := NL :: prefix ++ NL :: NL :: (title ++ NL :: str_mul [c] (length title))
                 ++ NL :: NL :: instruction ++ NL :: NL :: suffix ++ NL :: "        ").
  split; [|split].
  - destruct (rstrip_last (NL :: rest)) as [->|(b & x & -> & Hx)].
    + exists ((".. " ++ a0 ++ [NL] ++ "        " ++ [NL])
              ++ ".. THIS FILE IS AUTOMATICALLY GENERATED. DO NOT EDIT"), "."%char.
      split; [|reflexivity]. rewrite app_nil_r, <- !app_assoc. reflexivity.
    + exists ((".. " ++ a0 ++ [NL] ++ "        " ++ [NL]) ++ AUTOGENERATED_COMMENT ++ b), x.
      split; [|exact Hx]. rewrite <- !app_assoc. reflexivity.
  - destruct (marker_lines_content (".. " ++ a0 ++ [NL] ++ "        ") rest)
      as (tail & _ & Hm & _).
    rewrite <- !app_assoc in *. cbn [app] in *. rewrite Hm. lia.
  - intros title' instruction' filename Hti Hfn Hlabel Hprefix Htitle Hinstr Hsuffix.
    rewrite H0 in Hti. rewrite H1 in Hfn. cbn [fst] in *.
    injection Hti as <- <-. injection Hfn as <-.
    destruct (marker_lines_content (".. " ++ a0 ++ [NL] ++ "        ") rest)
      as (tail & _ & Hm & Htail).
    rewrite <- !app_assoc in *. cbn [app] in *. rewrite Hm.
    rewrite Htail.
    + replace (".. " ++ a0 ++ NL :: "        ") with ((".. " ++ a0) ++ NL :: "        ")
        by (rewrite <- app_assoc; reflexivity).
      rewrite marker_lines_app_nl, (marker_lines_none _ Hlabel). reflexivity.
    + subst rest.
      repeat (rewrite ?no_marker_start_cons_nl, ?no_marker_start_app_nl).
      rewrite Hprefix, Htitle, Hinstr, Hsuffix, no_marker_start_underline.
      reflexivity.
Qed.

(** *** Normalised absolute paths *)

Lemma split_parts_no_sep (s : str) (c : ascii) (l : str) :
  In l (split s c) -> ~ In c l.
Proof.
  revert l. induction s as [|x s IH]; cbn [split]; intros l Hl.
  - destruct Hl as [<-|[]]. intros [].
  - destruct (Ascii.eqb x c) eqn:E.
    + destruct Hl as [<-|Hl]; [intros [] | apply IH, Hl].
    + destruct (split s c) as [|hd tl] eqn:Hs.
      * destruct Hl as [<-|[]]. intros [->|[]]. rewrite Ascii.eqb_refl in E. discriminate.
      * destruct Hl as [<-|Hl].
        -- intros [->|H]; [rewrite Ascii.eqb_refl in E; discriminate|].
           apply (IH hd); [left; reflexivity | exact H].
        -- apply IH. right. exact Hl.
Qed.

Lemma str_join_cons (x : str) (cs : list str) :
  cs <> [] -> str_join [sep] (x :: cs) = x ++ sep :: str_join [sep] cs.
Proof. destruct cs; [contradiction | reflexivity]. Qed.

Lemma split_join (cs : list str) :
  Forall clean cs -> cs <> [] -> split (str_join [sep] cs) sep = cs.
Proof.
  induction 1 as [|x cs Hx Hcs IH]; intros Hne; [contradiction|].
  destruct cs as [|y cs].
  - cbn [str_join]. apply split_no_sep. apply Hx.
  - rewrite str_join_cons by discriminate. rewrite split_app_sep.
    rewrite IH by discriminate. rewrite split_no_sep by apply Hx. reflexivity.
Qed.

Lemma split_slashes (k : nat) (s : str) :
  split (str_mul [sep] k ++ s) sep = repeat [] k ++ split s sep.
Proof.
  induction k as [|k IH]; cbn [str_mul repeat app]; [reflexivity|].
  cbn [split]. rewrite Ascii.eqb_refl, IH. reflexivity.
Qed.

Lemma str_join_clean_head (cs : list str) :
  Forall clean cs -> startswith (str_join [sep] cs) [sep] = false.
Proof.
  intros H. destruct H as [|x cs Hx Hcs]; [reflexivity|].
  destruct Hx as (Hne & _ & _ & Hsep).
  destruct x as [|c x]; [contradiction|].
  assert (Ascii.eqb sep c = false) as E.
  { apply Ascii.eqb_neq. intros <-. apply Hsep. left. reflexivity. }
  destruct cs; cbn [str_join app startswith]; rewrite E; reflexivity.
Qed.

Lemma str_join_clean_nil (cs : list str) :
  Forall clean cs -> str_join [sep] cs = [] -> cs = [].
Proof.
  intros H. destruct H as [|x cs Hx Hcs]; [reflexivity|].
  destruct Hx as (Hne & _). destruct x as [|c x]; [contradiction|].
  destruct cs; discriminate.
Qed.

Lemma str_join_clean_inj (cs cs' : list str) :
  Forall clean cs -> Forall clean cs' ->
  str_join [sep] cs = str_join [sep] cs' -> cs = cs'.
Proof.
  intros H H' E. destruct cs as [|x cs].
  - symmetry. apply str_join_clean_nil; [exact H' | symmetry; exact E].
  - destruct cs' as [|x' cs'].
    + apply str_join_clean_nil; assumption.
    + rewrite <- (split_join (x :: cs)), <- (split_join (x' :: cs')) by (assumption || discriminate).
      rewrite E. reflexivity.
Qed.

Lemma filter_nonempty_repeat (k : nat) (l : list str) :
  List.filter nonempty (repeat [] k ++ l) = List.filter nonempty l.
Proof. induction k as [|k IH]; [reflexivity | exact IH]. Qed.

Lemma filter_clean (p : str -> bool) (cs : list str) :
  (forall c, clean c -> p c = true) -> Forall clean cs -> List.filter p cs = cs.
Proof.
  intros Hp. induction 1 as [|x cs Hx Hcs IH]; cbn [List.filter]; [reflexivity|].
  rewrite (Hp x Hx), IH. reflexivity.
Qed.

Lemma clean_nonempty (c : str) : clean c -> nonempty c = true.
Proof.
  intros (Hne & _). unfold nonempty. apply negb_true_iff, str_eqb_neq. exact Hne.
Qed.

(** The components of a normalised absolute path. *)
Lemma components_abs_form (p : str -> bool) (k : nat) (cs : list str) :
  (forall c, clean c -> p c = true) -> p [] = false -> Forall clean cs ->
  List.filter p (split (abs_form k cs) sep) = cs.
Proof.
  intros Hp Hnil Hcs. unfold abs_form. rewrite split_slashes.
  rewrite List.filter_app.
  assert (List.filter p (repeat [] k) = []) as ->.
  { induction k as [|k IH]; cbn [repeat List.filter]; [reflexivity|]. rewrite Hnil. exact IH. }
  cbn [app]. destruct cs as [|x cs].
  - cbn. rewrite Hnil. reflexivity.
  - rewrite split_join by (assumption || discriminate). apply filter_clean; assumption.
Qed.

Lemma clean_last (acc : list str) :
  Forall clean acc -> bool_decide (last acc = Some pardir) = false.
Proof.
  intros H. apply bool_decide_eq_false. intros Hl.
  apply last_Some in Hl. destruct Hl as [l' ->].
  apply Forall_app in H. destruct H as [_ H]. inversion H as [|? ? (_ & _ & Hp & _) _]; subst.
  apply Hp. reflexivity.
Qed.

Lemma In_removelast {A : Type} (l : list A) (x : A) : In x (removelast l) -> In x l.
Proof.
  induction l as [|y l IH]; cbn [removelast]; [intros []|].
  destruct l as [|z l]; [intros []|]. intros [->|H]; [left; reflexivity | right; apply IH, H].
Qed.

Lemma normpath_step_clean (k : nat) (acc : list str) (comp : str) :
  k <> 0 -> Forall clean acc -> ~ In sep comp -> Forall clean (normpath_step k acc comp).
Proof.
  intros Hk Hacc Hsep. unfold normpath_step.
  destruct (str_eqb comp []) eqn:E1; [exact Hacc|].
  destruct (str_eqb comp curdir) eqn:E2; [exact Hacc|]. cbn [orb].
  destruct (str_eqb comp pardir) eqn:E3; cbn [negb orb].
  - rewrite (clean_last acc Hacc), andb_false_r, orb_false_r.
    destruct k as [|k]; [contradiction|]. cbn [Nat.eqb andb].
    apply List.Forall_forall. intros x Hx. apply In_removelast in Hx.
    revert x Hx. apply List.Forall_forall. exact Hacc.
  - apply Forall_app. split; [exact Hacc|]. constructor; [|constructor].
    apply str_eqb_neq in E1, E2, E3. repeat split; assumption.
Qed.

Lemma fold_normpath_clean (k : nat) (comps : list str) : forall acc,
  k <> 0 -> Forall (fun c => ~ In sep c) comps -> Forall clean acc ->
  Forall clean (fold_left (normpath_step k) comps acc).
Proof.
  induction comps as [|c comps IH]; intros acc Hk Hc Hacc; [exact Hacc|].
  cbn [fold_left]. inversion Hc; subst.
  apply IH; [exact Hk | assumption | apply normpath_step_clean; assumption].
Qed.

Lemma normpath_step_append (k : nat) (acc : list str) (c : str) :
  clean c -> normpath_step k acc c = acc ++ [c].
Proof.
  intros (H1 & H2 & H3 & _). unfold normpath_step.
  apply str_eqb_neq in H1, H2, H3. rewrite H1, H2, H3. reflexivity.
Qed.

Lemma fold_normpath_append (k : nat) (cs : list str) : forall acc,
  Forall clean cs -> fold_left (normpath_step k) cs acc = acc ++ cs.
Proof.
  induction cs as [|c cs IH]; intros acc H; cbn [fold_left]; [rewrite app_nil_r; reflexivity|].
  inversion H; subst. rewrite normpath_step_append by assumption.
  rewrite IH by assumption. rewrite <- app_assoc. reflexivity.
Qed.

Lemma fold_normpath_skip (k n : nat) (l : list str) (acc : list str) :
  fold_left (normpath_step k) (repeat [] n ++ l) acc = fold_left (normpath_step k) l acc.
Proof. induction n as [|n IH]; [reflexivity | exact IH]. Qed.

Lemma startswith_cons (c d : ascii) (s p : str) :
  startswith (c :: s) (d :: p) = Ascii.eqb d c && startswith s p.
Proof. reflexivity. Qed.

Lemma startswith_nil (s : str) : startswith s [] = true.
Proof. reflexivity. Qed.

Lemma abs_form_1 (cs : list str) : abs_form 1 cs = sep :: str_join [sep] cs.
Proof. reflexivity. Qed.

Lemma abs_form_2 (cs : list str) : abs_form 2 cs = sep :: sep :: str_join [sep] cs.
Proof. reflexivity. Qed.

(** A normalised absolute path is left as it is by [normpath]. *)
Lemma normpath_abs_form (k : nat) (cs : list str) :
  k = 1 \/ k = 2 -> Forall clean cs -> normpath (abs_form k cs) = abs_form k cs.
Proof.
  intros Hk Hcs. unfold normpath.
  assert (fold_left (normpath_step k) (split (abs_form k cs) sep) [] = cs) as Hfold.
  { unfold abs_form. rewrite split_slashes, fold_normpath_skip.
    destruct cs as [|c cs]; [reflexivity|].
    rewrite split_join by (assumption || discriminate).
    apply fold_normpath_append. exact Hcs. }
  pose proof (str_join_clean_head cs Hcs) as Hhead.
  destruct Hk as [-> | ->].
  - rewrite abs_form_1 in *.
    change (str_eqb (sep :: str_join [sep] cs) []) with false. cbv iota.
    rewrite !startswith_cons, startswith_nil, Hhead, Ascii.eqb_refl.
    cbn [andb]. rewrite Hfold. reflexivity.
  - rewrite abs_form_2 in *.
    change (str_eqb (sep :: sep :: str_join [sep] cs) []) with false. cbv iota.
    rewrite !startswith_cons, !startswith_nil, Hhead, Ascii.eqb_refl.
    cbn [andb negb]. rewrite Hfold. reflexivity.
Qed.

(** [normpath] of an absolute path is a normalised absolute path. *)
Lemma normpath_is_abs_form (p : str) :
  isabs p = true ->
  exists k cs, (k = 1 \/ k = 2) /\ Forall clean cs /\ normpath p = abs_form k cs.
Proof.
  intros Habs. unfold isabs in Habs. unfold normpath.
  destruct p as [|c p]; [discriminate|].
  change (str_eqb (c :: p) []) with false. cbv iota. rewrite Habs.
  set (k := if startswith (c :: p) [sep; sep] && negb (startswith (c :: p) [sep; sep; sep])
            then 2 else 1).
  assert (k = 1 \/ k = 2) as Hk by (subst k; destruct (_ && _); auto).
  exists k, (fold_left (normpath_step k) (split (c :: p) sep) []).
  split; [exact Hk|]. split.
  - apply fold_normpath_clean; [destruct Hk; lia | | constructor].
    apply List.Forall_forall. intros x Hx.
    apply (split_parts_no_sep _ _ _ Hx).
  - unfold abs_form.
    destruct (str_mul [sep] k ++ _) eqn:E; [|reflexivity].
    destruct Hk as [-> | ->]; discriminate.
Qed.

Lemma isabs_abs_form (k : nat) (cs : list str) : k = 1 \/ k = 2 -> isabs (abs_form k cs) = true.
Proof. intros [-> | ->]; unfold isabs, abs_form; cbn [str_mul app]; 
  rewrite startswith_cons, Ascii.eqb_refl; reflexivity. Qed.

(** With an absolute working directory, [abspath] gives a normalised absolute
    path. *)
Lemma abspath_is_abs_form (p : str) :
  isabs (getcwd os) = true ->
  exists k cs, (k = 1 \/ k = 2) /\ Forall clean cs /\ abspath os p = abs_form k cs.
Proof.
  intros Hcwd. unfold abspath. destruct (isabs p) eqn:Hp; cbn [negb].
  - apply normpath_is_abs_form, Hp.
  - apply normpath_is_abs_form. unfold join, join2. cbn [fold_left].
    unfold isabs in Hp. rewrite Hp.
    unfold isabs in Hcwd. destruct (getcwd os) as [|c cwd]; [discriminate|].
    destruct (str_eqb (c :: cwd) [] || endswith (c :: cwd) [sep]);
      unfold isabs; cbn [app]; rewrite startswith_cons in *;
      apply andb_true_iff in Hcwd; destruct Hcwd as [-> _]; reflexivity.
Qed.

Lemma abspath_abs_form (k : nat) (cs : list str) :
  k = 1 \/ k = 2 -> Forall clean cs -> abspath os (abs_form k cs) = abs_form k cs.
Proof.
  intros Hk Hcs. unfold abspath. rewrite isabs_abs_form by exact Hk. cbn [negb].
  apply normpath_abs_form; assumption.
Qed.

Lemma abs_form_nonempty (k : nat) (cs : list str) :
  k = 1 \/ k = 2 -> str_eqb (abs_form k cs) [] = false.
Proof. intros [-> | ->]; reflexivity. Qed.

(** *** Common prefixes *)

Lemma common_run_prefix_l (s1 : list str) : forall s2,
  exists r, s1 = common_run s1 s2 ++ r.
Proof.
  induction s1 as [|c s1 IH]; intros s2; cbn [common_run]; [exists []; reflexivity|].
  destruct s2 as [|c2 s2]; [exists (c :: s1); reflexivity|].
  destruct (str_eqb c c2); [|exists (c :: s1); reflexivity].
  destruct (IH s2) as [r Hr]. exists r. cbn [app]. rewrite <- Hr. reflexivity.
Qed.

Lemma common_run_prefix_r (s1 : list str) : forall s2,
  exists r, s2 = common_run s1 s2 ++ r.
Proof.
  induction s1 as [|c s1 IH]; intros s2; cbn [common_run]; [exists s2; reflexivity|].
  destruct s2 as [|c2 s2]; [exists []; reflexivity|].
  destruct (str_eqb c c2) eqn:E; [|exists (c2 :: s2); reflexivity].
  apply str_eqb_eq in E. subst c2.
  destruct (IH s2) as [r Hr]. exists r. cbn [app]. rewrite <- Hr. reflexivity.
Qed.

Lemma comps_ltb_total (a b : list str) :
  comps_ltb a b = true \/ a = b \/ comps_ltb b a = true.
Proof. apply lex_ltb_total; [apply str_eqb_eq | apply str_ltb_total]. Qed.

(** The common run of the smaller and the larger of two lists is a prefix of
    both. *)
Lemma common_min_max (a b : list str) :
  let common := common_run (seq_min comps_ltb a [b]) (seq_max comps_ltb a [b]) in
  (exists r, a = common ++ r) /\ (exists r, b = common ++ r).
Proof.
  unfold seq_min, seq_max. cbn [fold_left].
  destruct (comps_ltb b a) eqn:Hba, (comps_ltb a b) eqn:Hab.
  - exfalso. unfold comps_ltb in *. apply lex_ltb_asym in Hab;
      [congruence | apply str_eqb_eq | apply str_ltb_irrefl | apply str_ltb_trans].
  - split; [apply common_run_prefix_r | apply common_run_prefix_l].
  - split; [apply common_run_prefix_l | apply common_run_prefix_r].
  - destruct (comps_ltb_total a b) as [H|[H|H]]; try congruence. subst b.
    split; apply common_run_prefix_l.
Qed.

Lemma clean_not_curdir (c : str) :
  clean c -> negb (str_eqb c []) && negb (str_eqb c curdir) = true.
Proof.
  intros (H1 & H2 & _). apply str_eqb_neq in H1, H2. rewrite H1, H2. reflexivity.
Qed.

Lemma commonpath_two (k1 k2 : nat) (cs1 cs2 : list str) :
  (k1 = 1 \/ k1 = 2) -> (k2 = 1 \/ k2 = 2) -> Forall clean cs1 -> Forall clean cs2 ->
  commonpath [abs_form k2 cs2; abs_form k1 cs1]
  = ret (sep :: str_join [sep]
                  (common_run (seq_min comps_ltb cs2 [cs1]) (seq_max comps_ltb cs2 [cs1]))).
Proof.
  intros Hk1 Hk2 H1 H2. unfold commonpath. cbn [forallb map].
  rewrite !isabs_abs_form by assumption. cbn [eqb andb].
  rewrite !components_abs_form by (assumption || reflexivity || apply clean_not_curdir).
  reflexivity.
Qed.

Lemma Forall_clean_prefix (a r : list str) : Forall clean (a ++ r) -> Forall clean a.
Proof. intros H. apply Forall_app in H. apply H. Qed.

(** What it takes for a file to lie within a directory. *)
Lemma within_abs_form (k1 k2 : nat) (cs1 cs2 : list str) (rel : str) (t : list event) :
  (k1 = 1 \/ k1 = 2) -> (k2 = 1 \/ k2 = 2) -> Forall clean cs1 -> Forall clean cs2 ->
  relative_filename_within_dir os (abs_form k1 cs1) (abs_form k2 cs2) = (Ok rel, t) ->
  nonempty rel = true ->
  k2 = 1
  /\ common_run (seq_min comps_ltb cs2 [cs1]) (seq_max comps_ltb cs2 [cs1]) = cs2
  /\ (exists rest, cs1 = cs2 ++ rest)
  /\ relpath os (abs_form k1 cs1) (abs_form k2 cs2) = (Ok rel, t).
Proof.
  intros Hk1 Hk2 H1 H2 Hrel Hne. unfold relative_filename_within_dir in Hrel.
  rewrite !abspath_abs_form in Hrel by assumption.
  rewrite commonpath_two, bind_ret_l in Hrel by assumption.
  destruct (common_min_max cs2 cs1) as [[r2 Hr2] [r1 Hr1]]. cbv zeta in Hr1, Hr2.
  set (common := common_run (seq_min comps_ltb cs2 [cs1]) (seq_max comps_ltb cs2 [cs1])) in *.
  assert (Forall clean common) as Hc.
  { apply (Forall_clean_prefix common r2). rewrite <- Hr2. exact H2. }
  destruct (str_eqb (sep :: str_join [sep] common) (abs_form k2 cs2)) eqn:E; cbn [negb] in Hrel.
  - apply str_eqb_eq in E.
    assert (k2 = 1) as ->.
    { destruct Hk2 as [-> | ->]; [reflexivity|]. rewrite abs_form_2 in E.
      injection E as E. pose proof (str_join_clean_head common Hc) as Hh.
      rewrite E, startswith_cons, Ascii.eqb_refl in Hh. discriminate. }
    rewrite abs_form_1 in E. injection E as E.
    apply str_join_clean_inj in E; [|assumption|assumption].
    split; [reflexivity|]. split; [exact E|]. split; [|exact Hrel].
    exists r1. rewrite <- E. exact Hr1.
  - apply ret_Ok in Hrel. destruct Hrel as [<- _]. discriminate.
Qed.

Lemma endswith_last (s : str) (c d : ascii) : endswith (s ++ [c]) [d] = Ascii.eqb d c.
Proof.
  unfold endswith. rewrite rev_app_distr. cbn [rev app].
  rewrite startswith_cons, startswith_nil. apply andb_true_r.
Qed.

Lemma clean_snoc (x : str) : clean x -> exists x' c, x = x' ++ [c] /\ c <> sep.
Proof.
  intros (Hne & _ & _ & Hsep).
  destruct (exists_last Hne) as (x' & c & ->). exists x', c. split; [reflexivity|].
  intros ->. apply Hsep. apply in_or_app. right. left. reflexivity.
Qed.

Lemma endswith_clean (pre x : str) : clean x -> endswith (pre ++ x) [sep] = false.
Proof.
  intros Hx. destruct (clean_snoc x Hx) as (x' & c & -> & Hc).
  rewrite app_assoc, endswith_last. apply Ascii.eqb_neq. congruence.
Qed.

Lemma startswith_clean (x rest : str) : clean x -> startswith (x ++ rest) [sep] = false.
Proof.
  intros (Hne & _ & _ & Hsep). destruct x as [|c x]; [contradiction|].
  cbn [app]. rewrite startswith_cons, startswith_nil, andb_true_r.
  apply Ascii.eqb_neq. intros <-. apply Hsep. left. reflexivity.
Qed.

(** Joining clean components puts one separator between them. *)
Lemma fold_join2_clean (p : list str) : forall acc,
  acc <> [] -> endswith acc [sep] = false -> Forall clean p ->
  fold_left join2 p acc = str_join [sep] (acc :: p).
Proof.
  induction p as [|x p IH]; intros acc Hne Hend Hp; [reflexivity|].
  inversion Hp as [|? ? Hx Hp']; subst. cbn [fold_left].
  assert (join2 acc x = acc ++ sep :: x) as ->.
  { unfold join2. rewrite <- (app_nil_r x) at 1. rewrite (startswith_clean x [] Hx).
    apply str_eqb_neq in Hne. rewrite Hne, Hend. reflexivity. }
  rewrite IH; [| destruct acc; discriminate | | exact Hp'].
  - rewrite (str_join_cons acc) by discriminate.
    destruct p as [|y p]; [reflexivity|].
    rewrite !str_join_cons by discriminate. rewrite <- app_assoc. reflexivity.
  - change (acc ++ sep :: x) with (acc ++ [sep] ++ x). rewrite app_assoc.
    apply endswith_clean, Hx.
Qed.

Lemma join_clean (a : str) (p : list str) :
  Forall clean (a :: p) -> join a p = str_join [sep] (a :: p).
Proof.
  intros H. inversion H as [|? ? Ha Hp]; subst. unfold join.
  apply fold_join2_clean; [apply Ha | | exact Hp].
  apply (endswith_clean [] a Ha).
Qed.

Lemma str_join_app (cs cs' : list str) :
  cs <> [] -> cs' <> [] ->
  str_join [sep] (cs ++ cs') = str_join [sep] cs ++ sep :: str_join [sep] cs'.
Proof.
  intros Hne Hne'. induction cs as [|x cs IH]; [contradiction|].
  destruct cs as [|y cs].
  - cbn [app]. rewrite str_join_cons by exact Hne'. reflexivity.
  - cbn [app] in *. rewrite (str_join_cons x (y :: cs ++ cs')) by discriminate.
    rewrite IH by discriminate. rewrite (str_join_cons x (y :: cs)) by discriminate.
    rewrite <- app_assoc. reflexivity.
Qed.

Lemma endswith_join_clean (pre : str) (cs : list str) :
  Forall clean cs -> cs <> [] -> endswith (pre ++ str_join [sep] cs) [sep] = false.
Proof.
  intros H. revert pre. induction H as [|x cs Hx Hcs IH]; intros pre Hne; [contradiction|].
  destruct cs as [|y cs].
  - cbn [str_join]. apply endswith_clean, Hx.
  - rewrite str_join_cons by discriminate.
    change (pre ++ x ++ sep :: str_join [sep] (y :: cs))
      with (pre ++ x ++ [sep] ++ str_join [sep] (y :: cs)).
    rewrite !app_assoc. apply IH. discriminate.
Qed.

(** Joining a root with the path of clean components below it. *)
Lemma join_root (cs2 rest : list str) :
  Forall clean cs2 -> Forall clean rest -> rest <> [] ->
  join (abs_form 1 cs2) [str_join [sep] rest] = abs_form 1 (cs2 ++ rest).
Proof.
  intros H2 Hr Hne. unfold join. cbn [fold_left]. unfold join2.
  rewrite (str_join_clean_head rest Hr).
  rewrite abs_form_nonempty by auto. cbn [orb].
  destruct cs2 as [|x cs2].
  - reflexivity.
  - rewrite !abs_form_1.
    change (sep :: str_join [sep] (x :: cs2)) with ([sep] ++ str_join [sep] (x :: cs2)).
    rewrite endswith_join_clean by (assumption || discriminate).
    rewrite str_join_app by (assumption || discriminate).
    reflexivity.
Qed.

Lemma relpath_below (k1 : nat) (cs2 rest : list str) :
  (k1 = 1 \/ k1 = 2) -> Forall clean cs2 -> Forall clean rest -> rest <> [] ->
  common_run (seq_min comps_ltb cs2 [cs2 ++ rest]) (seq_max comps_ltb cs2 [cs2 ++ rest]) = cs2 ->
  relpath os (abs_form k1 (cs2 ++ rest)) (abs_form 1 cs2) = ret (str_join [sep] rest).
Proof.
  intros Hk1 H2 Hr Hne Hcommon.
  assert (Forall clean (cs2 ++ rest)) as H1 by (apply Forall_app; auto).
  unfold relpath. rewrite abs_form_nonempty by assumption.
  rewrite !abspath_abs_form by auto.
  rewrite !components_abs_form by (assumption || reflexivity || apply clean_nonempty).
  unfold commonprefix. rewrite Hcommon, Nat.sub_diag, drop_app_length. cbn [repeat app].
  destruct rest as [|a p]; [contradiction|].
  rewrite join_clean by exact Hr. reflexivity.
Qed.

Lemma resolve_root_empties (fs : filesystem) (k : nat) (comps : list str) :
  resolve fs [] (repeat [] k ++ comps) = resolve fs [] comps.
Proof. induction k as [|k IH]; [reflexivity | exact IH]. Qed.

(** The entry a normalised absolute path names: its components are walked
    from the root. *)
Lemma stat_abs_form (fs : filesystem) (k : nat) (cs : list str) :
  (k = 1 \/ k = 2) -> Forall clean cs ->
  stat os fs (abs_form k cs)
  = match resolve fs [] cs with
    | Some key => lookup_node fs key
    | None => None
    end.
Proof.
  intros Hk Hcs. unfold stat, start_dir.
  rewrite abs_form_nonempty, isabs_abs_form by assumption.
  unfold abs_form. rewrite split_slashes, resolve_root_empties.
  destruct cs as [|c cs]; [reflexivity|].
  rewrite split_join by (assumption || discriminate). reflexivity.
Qed.

(** C2, as amended.  With an absolute working directory, for every
    [FileToAutodocument] that was constructed and whose absolute source
    filename does not begin with two slashes, [source_filename_rel_project_root]
    returns a path, and joining the project root directory with it gives the
    source filename back. *)
Theorem join_root_relpath_is_source
    (fs : filesystem) (source_filename project_root_dir target_rst_filename : str)
    (method : AutodocMethod) (python_package_root_dir : option str)
    (source_rst_title_style_python : bool)
    (pygments_language_override : option (gmap str str))
    (f : FileToAutodocument.t) (t : list event) :
  isabs (getcwd os) = true ->
  FileToAutodocument_init os fs source_filename project_root_dir target_rst_filename
    method python_package_root_dir source_rst_title_style_python
    pygments_language_override
  = (Ok f, t) ->
  startswith (FileToAutodocument.source_filename f) [sep; sep] = false ->
  exists rel,
    source_filename_rel_project_root os f = ret rel
    /\ join (FileToAutodocument.project_root_dir f) [rel]
       = FileToAutodocument.source_filename f.
Proof.
  intros Hcwd Hinit Hslash. unfold FileToAutodocument_init in Hinit.
  inv_bind Hinit. apply ret_Ok in Hinit. destruct Hinit as [<- _].
  unfold source_filename_rel_project_root. cbn [FileToAutodocument.source_filename
    FileToAutodocument.project_root_dir] in *.
  destruct (abspath_is_abs_form (expanduser os source_filename) Hcwd)
    as (k1 & cs1 & Hk1 & Hcs1 & E1).
  destruct (abspath_is_abs_form (expanduser os project_root_dir) Hcwd)
    as (k2 & cs2 & Hk2 & Hcs2 & E2).
  rewrite E1, E2 in *.
  destruct (within_abs_form k1 k2 cs1 cs2 _ _ Hk1 Hk2 Hcs1 Hcs2 H1 H2)
    as (-> & Hcommon & [rest ->] & Hrel).
  assert (Forall clean rest) as Hrest by (apply Forall_app in Hcs1; apply Hcs1).
  assert (rest <> []) as Hne.
  { intros ->. rewrite app_nil_r in *.
    unfold isfile, isdir in *. rewrite stat_abs_form in H, H0 by auto.
    destruct (resolve fs [] cs2) as [key|]; [|discriminate].
    destruct (lookup_node fs key) as [[?|]|]; discriminate. }
  assert (k1 = 1) as ->.
  { destruct Hk1 as [-> | ->]; [reflexivity|]. rewrite abs_form_2 in Hslash.
    rewrite !startswith_cons, startswith_nil, Ascii.eqb_refl in Hslash. discriminate. }
  exists (str_join [sep] rest). split.
  - apply relpath_below; auto.
  - apply join_root; assumption.
Qed.

(** *** Containment, as the paths are written *)











(** *** More on writing: mock mode *)

Lemma mbind_keeps_fs {A B : Type} (m : M A) (k : A -> M B) (fs : filesystem) :
  snd (m fs) = fs -> (forall a, snd (k a fs) = fs) -> snd ((x <~ m ;; k x) fs) = fs.
Proof.
  unfold mbind. destruct (m fs) as [[[a|e] t] fs1]; cbn [snd]; intros -> Hk; [|reflexivity].
  specialize (Hk a). destruct (k a fs) as [[r t'] fs2]. exact Hk.
Qed.

Lemma write_if_allowed_mock_fs (filename content : str) (overwrite : bool)
    (fs : filesystem) :
  snd (write_if_allowed os filename content overwrite true fs) = fs.
Proof.
  unfold write_if_allowed, mbind, mret, liftW.
  destruct (negb overwrite && path_exists os fs filename); reflexivity.
Qed.

Lemma write_rst_mock_fs (f : FileToAutodocument.t) (prefix suffix c : str)
    (method : option AutodocMethod) (overwrite : bool) (fs : filesystem) :
  snd (write_rst os get_lexer_for_filename f prefix suffix c method overwrite true fs) = fs.
Proof.
  unfold write_rst. apply mbind_keeps_fs; [reflexivity|].
  intros content. apply write_if_allowed_mock_fs.
Qed.

Lemma write_index_mock_fs (idx : AutodocIndex.t) (overwrite : bool) (fs : filesystem) :
  snd (write_index os idx overwrite true fs) = fs.
Proof.
  unfold write_index. apply mbind_keeps_fs; [reflexivity|].
  intros content. apply write_if_allowed_mock_fs.
Qed.

Lemma mfor_each_keeps_fs {A : Type} (body : A -> M unit) (xs : list A) :
  Forall (fun x => forall fs, snd (body x fs) = fs) xs ->
  forall fs, snd (mfor_each xs body fs) = fs.
Proof.
  induction 1 as [|x xs Hx Hxs IH]; intros fs; [reflexivity|].
  rewrite mfor_each_cons. apply mbind_keeps_fs; [apply Hx | intros _; apply IH].
Qed.

(** X1.  In mock mode [write_index_and_rst_files] leaves the filesystem as
    it was and writes no file, whatever the tree holds, whether the run
    returns or raises. *)
Theorem mock_write_changes_nothing (idx : AutodocIndex.t) (overwrite : bool)
    (fs : filesystem) :
  snd (write_index_and_rst_files os get_lexer_for_filename idx overwrite true fs) = fs
  /\ written (snd (fst (write_index_and_rst_files os get_lexer_for_filename idx
                          overwrite true fs))) = [].
Proof.
  split; [|apply (tree_writes true idx overwrite fs)].
  revert fs. induction idx as [idx IH] using AutodocIndex_nested_ind. intros fs.
  rewrite write_index_and_rst_files_eq.
  apply mbind_keeps_fs; [|intros _; apply write_index_mock_fs].
  apply mfor_each_keeps_fs.
  induction IH as [|e es He Hes IHes]; constructor; [|exact IHes].
  intros fs1. destruct e as [f|i|r]; cbn [write_entry].
  - apply write_rst_mock_fs.
  - apply He.
  - reflexivity.
Qed.

(** *** More on writing: what a real write leaves behind *)

Lemma grows_refl (fs : filesystem) : grows fs fs.
Proof. intros k. destruct (fs !! k) as [[c|]|]; eauto. Qed.

Lemma grows_trans (fs1 fs2 fs3 : filesystem) :
  grows fs1 fs2 -> grows fs2 fs3 -> grows fs1 fs3.
Proof.
  intros H12 H23 k. specialize (H12 k). specialize (H23 k).
  destruct (fs1 !! k) as [[c|]|]; [| |exact I].
  - destruct H12 as [c2 H12]. rewrite H12 in H23. exact H23.
  - rewrite H12 in H23. exact H23.
Qed.

Lemma grows_insert_file (fs : filesystem) (k : list str) (content : str) :
  fs !! k <> Some Dir -> grows fs (<[k := File content]> fs).
Proof.
  intros Hk k'. destruct (decide (k = k')) as [<-|Hne].
  - rewrite lookup_insert_eq. destruct (fs !! k) as [[c|]|]; [eauto | contradiction | exact I].
  - rewrite lookup_insert_ne by exact Hne. destruct (fs !! k') as [[c|]|]; eauto.
Qed.

Lemma grows_insert_dir (fs : filesystem) (k : list str) :
  fs !! k = None -> grows fs (<[k := Dir]> fs).
Proof.
  intros Hk k'. destruct (decide (k = k')) as [<-|Hne].
  - rewrite Hk. exact I.
  - rewrite lookup_insert_ne by exact Hne. destruct (fs !! k') as [[c|]|]; eauto.
Qed.

Lemma grows_lookup_dir (fs fs' : filesystem) (k : list str) :
  grows fs fs' -> lookup_node fs k = Some Dir -> lookup_node fs' k = Some Dir.
Proof.
  intros H. destruct k as [|c k]; [reflexivity|]. cbn [lookup_node].
  intros Hk. specialize (H (c :: k)). rewrite Hk in H. exact H.
Qed.

Lemma grows_lookup_file (fs fs' : filesystem) (k : list str) (content : str) :
  grows fs fs' -> lookup_node fs k = Some (File content) ->
  exists content', lookup_node fs' k = Some (File content').
Proof.
  intros H. destruct k as [|c k]; [discriminate|]. cbn [lookup_node].
  intros Hk. specialize (H (c :: k)). rewrite Hk in H. exact H.
Qed.

(** What resolves in a filesystem resolves to the same entry when the
    filesystem has grown. *)
Lemma resolve_grows (fs fs' : filesystem) (comps : list str) : forall cur key,
  grows fs fs' -> resolve fs cur comps = Some key -> resolve fs' cur comps = Some key.
Proof.
  induction comps as [|c comps IH]; intros cur key Hg; cbn [resolve]; [auto|].
  destruct (lookup_node fs cur) as [[?|]|] eqn:Hcur; try discriminate.
  rewrite (grows_lookup_dir _ _ _ Hg Hcur).
  destruct (str_eqb c [] || str_eqb c curdir); [apply IH; exact Hg|].
  destruct (str_eqb c pardir); apply IH; exact Hg.
Qed.

Lemma start_dir_grows (fs fs' : filesystem) (path : str) (d : list str) :
  grows fs fs' -> start_dir os fs path = Some d -> start_dir os fs' path = Some d.
Proof.
  unfold start_dir. destruct (isabs path); [auto|]. apply resolve_grows.
Qed.

Lemma stat_grows (fs fs' : filesystem) (path : str) :
  grows fs fs' ->
  match stat os fs path with
  | Some Dir => stat os fs' path = Some Dir
  | Some (File _) => exists content, stat os fs' path = Some (File content)
  | None => True
  end.
Proof.
  intros Hg. unfold stat. destruct (str_eqb path []); [exact I|].
  destruct (start_dir os fs path) as [d|] eqn:Hd; [|exact I].
  rewrite (start_dir_grows _ _ _ _ Hg Hd).
  destruct (resolve fs d (split path sep)) as [key|] eqn:Hk; [|exact I].
  rewrite (resolve_grows _ _ _ _ _ Hg Hk).
  destruct (lookup_node fs key) as [[c|]|] eqn:Hn; [| |exact I].
  - eapply grows_lookup_file; eassumption.
  - eapply grows_lookup_dir; eassumption.
Qed.

Lemma keeps_files_refl (fs : filesystem) : keeps_files os fs fs.
Proof. intros p H. exact H. Qed.

Lemma keeps_files_trans (fs1 fs2 fs3 : filesystem) :
  keeps_files os fs1 fs2 -> keeps_files os fs2 fs3 -> keeps_files os fs1 fs3.
Proof. intros H12 H23 p H. apply H23, H12, H. Qed.

Lemma keeps_files_grows (fs fs' : filesystem) : grows fs fs' -> keeps_files os fs fs'.
Proof.
  intros Hg p. unfold isfile. pose proof (stat_grows fs fs' p Hg) as H.
  destruct (stat os fs p) as [[c|]|]; try discriminate.
  destruct H as [c' ->]. reflexivity.
Qed.

Lemma makedirs_grows (comps : list str) : forall fs cur,
  grows fs (snd (makedirs fs cur comps)).
Proof.
  induction comps as [|c comps IH]; intros fs cur; cbn [makedirs].
  - apply grows_refl.
  - destruct (lookup_node fs cur) as [[?|]|]; try apply grows_refl.
    destruct (str_eqb c [] || str_eqb c curdir); [apply IH|].
    destruct (str_eqb c pardir); [apply IH|].
    destruct (fs !! (cur ++ [c])) as [[?|]|] eqn:E; [apply grows_refl | apply IH |].
    eapply grows_trans; [apply grows_insert_dir; exact E | apply IH].
Qed.

Lemma mkdir_p_grows (path : str) (fs : filesystem) : grows fs (snd (mkdir_p os path fs)).
Proof.
  unfold mkdir_p. destruct (str_eqb path []); [apply grows_refl|].
  destruct (start_dir os fs path) as [d|]; [|apply grows_refl].
  pose proof (makedirs_grows (split path sep) fs d) as H.
  destruct (makedirs fs d _) as [[|] fs']; exact H.
Qed.

Lemma write_text_grows (filename content : str) (fs : filesystem) :
  grows fs (snd (write_text os filename content fs)).
Proof.
  unfold write_text.
  destruct (start_dir os fs filename) as [d|]; [|apply grows_refl].
  destruct (resolve fs d _) as [parent|]; [|apply grows_refl].
  destruct (lookup_node fs parent) as [[?|]|]; try apply grows_refl.
  destruct (fs !! _) as [[?|]|] eqn:E; try apply grows_refl;
    (destruct (is_name _); [|apply grows_refl]);
    cbn [snd]; apply grows_insert_file; rewrite E; discriminate.
Qed.

Lemma write_if_allowed_grows (filename content : str) (overwrite mock : bool)
    (fs : filesystem) :
  grows fs (snd (write_if_allowed os filename content overwrite mock fs)).
Proof.
  unfold write_if_allowed, mbind, mret, liftW.
  destruct (negb overwrite && path_exists os fs filename); [apply grows_refl|].
  destruct mock; cbn [negb fst snd]; [apply grows_refl|].
  pose proof (mkdir_p_grows (dirname filename) fs) as Hmk.
  destruct (mkdir_p os (dirname filename) fs) as [[[[]|e] t1] fs1]; cbn [snd] in *;
    [|exact Hmk].
  cbn [snd fst ret log_info emit bind app].
  pose proof (write_text_grows filename content fs1) as Hwk.
  destruct (write_text os filename content fs1) as [[r t2] fs2]. cbn [snd] in *.
  eapply grows_trans; eassumption.
Qed.

Lemma resolve_app (fs : filesystem) (a b : list str) : forall cur,
  resolve fs cur (a ++ b)
  = match resolve fs cur a with
    | Some k => resolve fs k b
    | None => None
    end.
Proof.
  induction a as [|c a IH]; intros cur; cbn [app resolve]; [reflexivity|].
  destruct (lookup_node fs cur) as [[?|]|]; try reflexivity.
  destruct (str_eqb c [] || str_eqb c curdir); [apply IH|].
  destruct (str_eqb c pardir); apply IH.
Qed.

Lemma lookup_node_snoc (fs : filesystem) (parent : list str) (name : str) :
  lookup_node fs (parent ++ [name]) = fs !! (parent ++ [name]).
Proof. destruct parent; reflexivity. Qed.

Lemma resolve_name (fs : filesystem) (parent : list str) (name : str) :
  lookup_node fs parent = Some Dir -> is_name name = true ->
  resolve fs parent [name] = Some (parent ++ [name]).
Proof.
  intros Hp Hn. cbn [resolve]. rewrite Hp. unfold is_name in Hn.
  apply andb_true_iff in Hn. destruct Hn as [Hn H3].
  apply andb_true_iff in Hn. destruct Hn as [H1 H2].
  apply negb_true_iff in H1, H2, H3. rewrite H1, H2, H3. reflexivity.
Qed.

(** The file that was opened for writing is there afterwards, under the
    name it was opened by. *)
Lemma write_text_Ok (filename content : str) (fs fs' : filesystem) (t : list event) :
  write_text os filename content fs = ((Ok tt, t), fs') ->
  stat os fs' filename = Some (File content).
Proof.
  intros Hw. pose proof (write_text_grows filename content fs) as Hg.
  rewrite Hw in Hg. cbn [snd] in Hg. revert Hw. unfold write_text.
  destruct (start_dir os fs filename) as [d|] eqn:Hd; [|discriminate].
  destruct (resolve fs d (removelast (split filename sep))) as [parent|] eqn:Hp;
    [|discriminate].
  destruct (lookup_node fs parent) as [[?|]|] eqn:Hdir; try discriminate.
  destruct (is_name (List.last (split filename sep) [])) eqn:Hn;
    [|destruct (fs !! _) as [[?|]|]; discriminate].
  intros Hw.
  assert (fs' = <[parent ++ [List.last (split filename sep) []] := File content]> fs)
    as Hfs.
  { revert Hw. destruct (fs !! _) as [[?|]|]; [|discriminate|];
      intros [= _ <-]; reflexivity. }
  unfold stat.
  assert (str_eqb filename [] = false) as ->.
  { destruct filename; [vm_compute in Hn; discriminate | reflexivity]. }
  rewrite (start_dir_grows _ _ _ _ Hg Hd).
  rewrite (app_removelast_last [] (split_ne filename sep)), resolve_app.
  rewrite (resolve_grows _ _ _ _ _ Hg Hp).
  rewrite (resolve_name _ _ _ (grows_lookup_dir _ _ _ Hg Hdir) Hn).
  rewrite lookup_node_snoc, Hfs. apply lookup_insert_eq.
Qed.

Lemma write_if_allowed_keeps (filename content : str) (overwrite mock : bool)
    (fs : filesystem) :
  keeps_files os fs (snd (write_if_allowed os filename content overwrite mock fs)).
Proof. apply keeps_files_grows, write_if_allowed_grows. Qed.

Lemma write_if_allowed_Ok_stat (filename content : str) (overwrite : bool)
    (fs fs' : filesystem) (t : list event) :
  write_if_allowed os filename content overwrite false fs = ((Ok tt, t), fs') ->
  stat os fs' filename = Some (File content).
Proof.
  unfold write_if_allowed, mbind, mret, liftW.
  destruct (negb overwrite && path_exists os fs filename); [discriminate|].
  cbn [negb fst snd].
  destruct (mkdir_p os (dirname filename) fs) as [[[[]|e] t1] fs1]; [|discriminate].
  cbn [snd fst ret log_info emit bind app].
  destruct (write_text os filename content fs1) as [[r t2] fs2] eqn:Hw.
  intros [= -> <- <-]. eapply write_text_Ok; eassumption.
Qed.

(** X2.  When [write_if_allowed] returns outside mock mode, the file is
    there with the content given, every file there was before is still a file,
    and a further [write_if_allowed] to the same name without [overwrite]
    raises the collision error. *)
Theorem write_if_allowed_leaves_the_file (filename content : str) (overwrite : bool)
    (fs fs' : filesystem) (t : list event) :
  write_if_allowed os filename content overwrite false fs = ((Ok tt, t), fs') ->
  stat os fs' filename = Some (File content)
  /\ keeps_files os fs fs'
  /\ forall content' mock,
       fst (fst (write_if_allowed os filename content' false mock fs'))
       = Raise (RuntimeError (Msg "File exists, not overwriting: {!r}" [filename])).
Proof.
  intros Hrun.
  pose proof (write_if_allowed_Ok_stat _ _ _ _ _ _ Hrun) as Hst.
  split; [exact Hst|]. split.
  - pose proof (write_if_allowed_keeps filename content overwrite false fs) as Hk.
    rewrite Hrun in Hk. exact Hk.
  - intros content' mock. unfold write_if_allowed, mbind.
    unfold path_exists. rewrite Hst. reflexivity.
Qed.

Lemma write_if_allowed_leaves (filename content : str) (overwrite : bool) :
  leaves_pages os (write_if_allowed os filename content overwrite false) [filename].
Proof.
  intros fs.
  destruct (write_if_allowed os filename content overwrite false fs) as [[[[]|e] t] fs'] eqn:Hrun;
    cbn [fst snd is_ok].
  - pose proof (write_if_allowed_Ok_stat _ _ _ _ _ _ Hrun) as Hst.
    split; [pose proof (write_if_allowed_keeps filename content overwrite false fs) as Hk; rewrite Hrun in Hk; exact Hk|]. intros _ p [<-|[]]. unfold isfile. rewrite Hst. reflexivity.
  - split; [|discriminate].
    replace fs' with (snd (write_if_allowed os filename content overwrite false fs))
      by (rewrite Hrun; reflexivity).
    apply write_if_allowed_keeps.
Qed.

Lemma leaves_pages_seq (m1 m2 : M unit) (pages1 pages2 : list str) :
  leaves_pages os m1 pages1 -> leaves_pages os m2 pages2 ->
  leaves_pages os (m1 ;;~ m2) (pages1 ++ pages2).
Proof.
  intros H1 H2 fs. unfold mbind. specialize (H1 fs).
  destruct (m1 fs) as [[[[]|e] t1] fs1]; cbn [fst snd is_ok] in *.
  - specialize (H2 fs1). destruct (m2 fs1) as [[r2 t2] fs2]. cbn [fst snd] in *.
    destruct H1 as [K1 P1], H2 as [K2 P2]. split.
    + eapply keeps_files_trans; eassumption.
    + intros Hok p Hp. apply in_app_or in Hp. destruct Hp as [Hp|Hp].
      * apply K2, P1; [reflexivity | exact Hp].
      * apply P2; assumption.
  - split; [apply H1 | discriminate].
Qed.

Lemma leaves_pages_liftW {A : Type} (w : W A) (k : A -> M unit) (pages : list str) :
  (forall a, leaves_pages os (k a) pages) ->
  leaves_pages os (a <~ liftW w ;; k a) pages.
Proof.
  intros H fs. unfold mbind, liftW. destruct w as [[a|e] t1].
  - specialize (H a fs). destruct (k a fs) as [[r2 t2] fs2]. exact H.
  - cbn. split; [apply keeps_files_refl | discriminate].
Qed.

Lemma leaves_pages_loop (body : AutodocIndex.entry AutodocIndex.t -> M unit)
    (es : list (AutodocIndex.entry AutodocIndex.t)) :
  Forall (fun e => leaves_pages os (body e) (entry_pages e)) es ->
  leaves_pages os (mfor_each es body) (flat_map entry_pages es).
Proof.
  induction 1 as [|e es He Hes IH].
  - intros fs. cbn. split; [apply keeps_files_refl | intros _ p []].
  - rewrite mfor_each_cons. cbn [flat_map]. apply leaves_pages_seq; assumption.
Qed.

(** X3.  Outside mock mode, [write_index_and_rst_files] removes no file, and
    when it returns every page of [pages_in_order] (the pages of all files
    and sub-indexes, and the index page) is a file. *)
Theorem written_tree_is_on_disk (idx : AutodocIndex.t) (overwrite : bool)
    (fs : filesystem) :
  let run := write_index_and_rst_files os get_lexer_for_filename idx overwrite false fs in
  keeps_files os fs (snd run)
  /\ (is_ok (fst (fst run)) = true ->
      forall p, In p (pages_in_order idx) -> isfile os (snd run) p = true).
Proof.
  cbv zeta. revert fs.
  change (leaves_pages os
            (write_index_and_rst_files os get_lexer_for_filename idx overwrite false)
            (pages_in_order idx)).
  revert overwrite.
  induction idx as [idx IH] using AutodocIndex_nested_ind. intros overwrite.
  rewrite write_index_and_rst_files_eq, pages_in_order_eq.
  apply leaves_pages_seq.
  - apply leaves_pages_loop.
    induction IH as [|e es He Hes IHes]; constructor; [|exact IHes].
    destruct e as [f|i|r]; cbn [write_entry entry_pages].
    + unfold write_rst. apply leaves_pages_liftW. intros content.
      apply write_if_allowed_leaves.
    + apply He.
    + intros fs. cbn. split; [apply keeps_files_refl | discriminate].
  - unfold write_index. apply leaves_pages_liftW. intros content.
    apply write_if_allowed_leaves.
Qed.

(** *** More on discovery and exclusion *)

(** X4.  Discovery always returns, and what it returns is a rearrangement of
    what the patterns yield without the excluded files: a path is in the
    list exactly when [glob] yields it for one of the patterns and no
    exclusion pattern matches it, and as often as it is yielded. *)
Theorem discovery_loses_and_adds_nothing (fs : filesystem) (idx : AutodocIndex.t)
    (names : filenames_or_globs) (recursive : bool) :
  exists files t,
    get_sorted_source_files os glob_glob charset_matches fs idx names recursive
    = (Ok files, t)
    /\ files ≡ₚ discovered os glob_glob charset_matches fs
                  (AutodocIndex.skip_globs idx) names recursive
    /\ forall f,
         In f files <->
         (exists sfg,
             In sfg match names with OneName s => [s] | ManyNames l => l end
             /\ In f (glob_glob fs (expanduser os sfg) recursive))
         /\ fst (should_exclude charset_matches idx f) = Ok false.
Proof.
  destruct (get_sorted_source_files_value glob_glob fs idx names recursive) as [t Ht].
  eexists _, t. split; [exact Ht|]. split; [apply sort_perm|].
  intros f. unfold should_exclude.
  destruct (should_exclude_loop_value (AutodocIndex.skip_globs idx) f) as [t1 ->].
  cbn [fst]. split.
  - intros Hf. apply (Permutation_in f (sort_perm _)) in Hf.
    unfold discovered in Hf. apply in_flat_map in Hf. destruct Hf as (sfg & Hsfg & Hin).
    apply filter_In in Hin. destruct Hin as [Hin Hex].
    apply negb_true_iff in Hex. rewrite Hex. split; [eauto | reflexivity].
  - intros [(sfg & Hsfg & Hin) Hex].
    apply (Permutation_in f (Permutation_sym (sort_perm _))).
    unfold discovered. apply in_flat_map. exists sfg. split; [exact Hsfg|].
    apply filter_In. split; [exact Hin|].
    injection Hex as ->. reflexivity.
Qed.

(** X5.  [should_exclude] never raises, and it returns [True] exactly when
    one of the index's exclusion patterns matches the file name or its base
    name. *)
Theorem should_exclude_iff_some_glob_matches (idx : AutodocIndex.t) (f : str) :
  exists b t,
    should_exclude charset_matches idx f = (Ok b, t)
    /\ (b = true <->
        exists g, In g (AutodocIndex.skip_globs idx)
                  /\ (fnmatch.fnmatch charset_matches f g = true
                      \/ fnmatch.fnmatch charset_matches (basename f) g = true)).
Proof.
  unfold should_exclude.
  destruct (should_exclude_loop_value (AutodocIndex.skip_globs idx) f) as [t Ht].
  eexists _, t. split; [exact Ht|].
  unfold excluded. rewrite existsb_exists. unfold matches_glob.
  split; intros (g & Hg & Hm); exists g; (split; [exact Hg|]).
  - apply orb_true_iff. exact Hm.
  - apply orb_true_iff. exact Hm.
Qed.

Lemma tokens_from_literal (pat : str) :
  literal pat = true -> fnmatch.tokens_from 0 pat = map fnmatch.GLit pat.
Proof.
  induction pat as [|c pat IH]; cbn [literal forallb fnmatch.tokens_from map];
    [reflexivity|].
  rewrite andb_true_iff, negb_true_iff, !orb_false_iff.
  intros [[[-> ->] ->] H]. rewrite (IH H). reflexivity.
Qed.

Lemma fnmatch_literal (name pat : str) :
  literal pat = true ->
  fnmatch.fnmatch charset_matches name pat = str_eqb name pat.
Proof.
  intros H. unfold fnmatch.fnmatch. rewrite (tokens_from_literal pat H).
  apply eq_true_iff_eq. rewrite match_literals. unfold str_eqb.
  rewrite bool_decide_eq_true. reflexivity.
Qed.

Lemma match_star_literals (x name : str) :
  fnmatch.match_toks charset_matches (fnmatch.GStar :: map fnmatch.GLit x) name = true
  <-> exists p, name = p ++ x.
Proof.
  induction name as [|c name IH].
  - cbn [fnmatch.match_toks]. rewrite orb_false_r, match_literals. split.
    + intros <-. exists []. reflexivity.
    + intros [p Hp]. symmetry in Hp. apply app_eq_nil in Hp. symmetry. apply Hp.
  - change (fnmatch.match_toks charset_matches (fnmatch.GStar :: map fnmatch.GLit x)
              (c :: name))
      with (fnmatch.match_toks charset_matches (map fnmatch.GLit x) (c :: name)
            || fnmatch.match_toks charset_matches (fnmatch.GStar :: map fnmatch.GLit x) name).
    rewrite orb_true_iff, match_literals, IH. split.
    + intros [H|[p ->]]; [exists []; exact H | exists (c :: p); reflexivity].
    + intros [[|a p] Hp]; [left; exact Hp | right].
      injection Hp as -> ->. eauto.
Qed.

Lemma fnmatch_star_literal (name x : str) :
  literal x = true ->
  fnmatch.fnmatch charset_matches name ("*"%char :: x) = endswith name x.
Proof.
  intros H. unfold fnmatch.fnmatch. cbn [fnmatch.tokens_from].
  change (Ascii.eqb "*" "*") with true. cbv iota.
  rewrite (tokens_from_literal x H).
  apply eq_true_iff_eq. rewrite match_star_literals, endswith_iff. reflexivity.
Qed.

Lemma basename_suffix (f : str) : exists p, f = p ++ basename f.
Proof.
  unfold basename, from. eexists. symmetry. apply take_drop.
Qed.

(** X6.  For a pattern without [*], [?] and [[], [filename_matches_glob]
    is true exactly when the file name or its base name is the pattern
    itself. *)
Theorem literal_glob_matches_the_name_only (filename globtext : str) :
  literal globtext = true ->
  fst (filename_matches_glob charset_matches filename globtext)
  = Ok (str_eqb filename globtext || str_eqb (basename filename) globtext).
Proof.
  intros H.
  destruct (filename_matches_glob_value filename globtext) as [t ->].
  unfold matches_glob. rewrite !fnmatch_literal by exact H. reflexivity.
Qed.

(** X7.  For a pattern [*x] with [x] free of [*], [?] and [[],
    [filename_matches_glob] is true exactly when the file name ends in
    [x]. *)
Theorem star_glob_matches_the_ending (filename x : str) :
  literal x = true ->
  fst (filename_matches_glob charset_matches filename ("*"%char :: x))
  = Ok (endswith filename x).
Proof.
  intros H.
  destruct (filename_matches_glob_value filename ("*"%char :: x)) as [t ->].
  unfold matches_glob. rewrite !fnmatch_star_literal by exact H. cbn [fst]. f_equal.
  destruct (endswith filename x) eqn:E; [reflexivity|]. cbn [orb].
  destruct (endswith (basename filename) x) eqn:Eb; [|reflexivity].
  apply endswith_iff in Eb. destruct Eb as [p Hp].
  destruct (basename_suffix filename) as [q Hq].
  assert (endswith filename x = true) as Hc.
  { apply endswith_iff. exists (q ++ p). rewrite <- app_assoc, <- Hp. exact Hq. }
  congruence.
Qed.

(** *** Writing without [overwrite] *)

Lemma keeps_paths_refl (fs : filesystem) : keeps_paths os fs fs.
Proof. intros p H. exact H. Qed.

Lemma keeps_paths_trans (fs1 fs2 fs3 : filesystem) :
  keeps_paths os fs1 fs2 -> keeps_paths os fs2 fs3 -> keeps_paths os fs1 fs3.
Proof. intros H12 H23 p H. apply H23, H12, H. Qed.

Lemma keeps_paths_grows (fs fs' : filesystem) : grows fs fs' -> keeps_paths os fs fs'.
Proof.
  intros Hg p. unfold path_exists. pose proof (stat_grows fs fs' p Hg) as H.
  destruct (stat os fs p) as [[c|]|]; try discriminate.
  - destruct H as [c' ->]. reflexivity.
  - rewrite H. reflexivity.
Qed.

Lemma write_if_allowed_keeps_paths (filename content : str) (overwrite mock : bool)
    (fs : filesystem) :
  keeps_paths os fs (snd (write_if_allowed os filename content overwrite mock fs)).
Proof. apply keeps_paths_grows, write_if_allowed_grows. Qed.

Lemma write_if_allowed_needs_fresh (filename content : str) (mock : bool) :
  needs_fresh os (write_if_allowed os filename content false mock) [filename].
Proof.
  intros fs. split; [apply write_if_allowed_keeps_paths|].
  intros Hok p [<-|[]]. revert Hok. unfold write_if_allowed, mbind.
  cbn [negb andb]. destruct (path_exists os fs filename); [discriminate | reflexivity].
Qed.

Lemma needs_fresh_seq (m1 m2 : M unit) (pages1 pages2 : list str) :
  needs_fresh os m1 pages1 -> needs_fresh os m2 pages2 ->
  needs_fresh os (m1 ;;~ m2) (pages1 ++ pages2).
Proof.
  intros H1 H2 fs. unfold mbind. specialize (H1 fs).
  destruct (m1 fs) as [[[[]|e] t1] fs1]; cbn [fst snd is_ok] in *.
  - specialize (H2 fs1). destruct (m2 fs1) as [[r2 t2] fs2]. cbn [fst snd] in *.
    destruct H1 as [K1 P1], H2 as [K2 P2]. split.
    + eapply keeps_paths_trans; eassumption.
    + intros Hok p Hp. apply in_app_or in Hp. destruct Hp as [Hp|Hp].
      * apply P1; [reflexivity | exact Hp].
      * destruct (path_exists os fs p) eqn:E; [|reflexivity].
        rewrite <- (P2 Hok p Hp). symmetry. apply K1. exact E.
  - split; [apply H1 | discriminate].
Qed.

Lemma needs_fresh_liftW {A : Type} (w : W A) (k : A -> M unit) (pages : list str) :
  (forall a, needs_fresh os (k a) pages) ->
  needs_fresh os (a <~ liftW w ;; k a) pages.
Proof.
  intros H fs. unfold mbind, liftW. destruct w as [[a|e] t1].
  - specialize (H a fs). destruct (k a fs) as [[r2 t2] fs2]. exact H.
  - cbn. split; [apply keeps_paths_refl | discriminate].
Qed.

Lemma needs_fresh_loop (body : AutodocIndex.entry AutodocIndex.t -> M unit)
    (es : list (AutodocIndex.entry AutodocIndex.t)) :
  Forall (fun e => needs_fresh os (body e) (entry_pages e)) es ->
  needs_fresh os (mfor_each es body) (flat_map entry_pages es).
Proof.
  induction 1 as [|e es He Hes IH].
  - intros fs. cbn. split; [apply keeps_paths_refl | intros _ p []].
  - rewrite mfor_each_cons. cbn [flat_map]. apply needs_fresh_seq; assumption.
Qed.

Lemma tree_needs_fresh (mock : bool) (idx : AutodocIndex.t) :
  needs_fresh os (write_index_and_rst_files os get_lexer_for_filename idx false mock)
    (pages_in_order idx).
Proof.
  induction idx as [idx IH] using AutodocIndex_nested_ind.
  rewrite write_index_and_rst_files_eq, pages_in_order_eq.
  apply needs_fresh_seq.
  - apply needs_fresh_loop.
    induction IH as [|e es He Hes IHes]; constructor; [|exact IHes].
    destruct e as [f|i|r]; cbn [write_entry entry_pages].
    + unfold write_rst. apply needs_fresh_liftW. intros content.
      apply write_if_allowed_needs_fresh.
    + apply He.
    + intros fs. cbn. split; [apply keeps_paths_refl | discriminate].
  - unfold write_index. apply needs_fresh_liftW. intros content.
    apply write_if_allowed_needs_fresh.
Qed.

(** X8.  Without [overwrite], [write_index_and_rst_files] returns only when
    none of the pages of the tree was there before the run (in mock mode
    too), and no path that existed is gone after the run, whether it returns
    or raises. *)
Theorem no_overwrite_touches_fresh_pages_only (idx : AutodocIndex.t) (mock : bool)
    (fs : filesystem) :
  let run := write_index_and_rst_files os get_lexer_for_filename idx false mock fs in
  keeps_paths os fs (snd run)
  /\ (is_ok (fst (fst run)) = true ->
      forall p, In p (pages_in_order idx) -> path_exists os fs p = false).
Proof. cbv zeta. apply tree_needs_fresh. Qed.

Lemma write_if_allowed_writes_fresh (filename content : str) :
  writes_fresh os (write_if_allowed os filename content false false) [filename].
Proof.
  intros fs. split; [apply write_if_allowed_keeps_paths|].
  intros Hok. split; [constructor; [intros [] | constructor]|].
  intros p [<-|[]]. split.
  - apply (write_if_allowed_needs_fresh filename content false fs); [exact Hok | left; reflexivity].
  - destruct (write_if_allowed os filename content false false fs) as [[[[]|e] t] fs'] eqn:Hrun;
      [|discriminate].
    cbn [snd]. unfold path_exists.
    rewrite (write_if_allowed_Ok_stat _ _ _ _ _ _ Hrun). reflexivity.
Qed.

Lemma writes_fresh_seq (m1 m2 : M unit) (pages1 pages2 : list str) :
  writes_fresh os m1 pages1 -> writes_fresh os m2 pages2 ->
  writes_fresh os (m1 ;;~ m2) (pages1 ++ pages2).
Proof.
  intros H1 H2 fs. unfold mbind. specialize (H1 fs).
  destruct (m1 fs) as [[[[]|e] t1] fs1]; cbn [fst snd is_ok] in *.
  - specialize (H2 fs1). destruct (m2 fs1) as [[r2 t2] fs2]. cbn [fst snd] in *.
    destruct H1 as [K1 P1], H2 as [K2 P2]. split.
    + eapply keeps_paths_trans; eassumption.
    + intros Hok. destruct (P1 eq_refl) as [N1 F1]. destruct (P2 Hok) as [N2 F2].
      split.
      * apply List.NoDup_app; [exact N1 | exact N2 |].
        intros p Hp1 Hp2.
        destruct (F1 p Hp1) as [_ Ha]. destruct (F2 p Hp2) as [Hb _]. congruence.
      * intros p Hp. apply in_app_or in Hp. destruct Hp as [Hp|Hp].
        -- destruct (F1 p Hp) as [Ha Hb]. split; [exact Ha | apply K2, Hb].
        -- destruct (F2 p Hp) as [Ha Hb]. split; [|exact Hb].
           destruct (path_exists os fs p) eqn:E; [|reflexivity].
           rewrite <- Ha. symmetry. apply K1. exact E.
  - split; [apply H1 | discriminate].
Qed.

Lemma writes_fresh_liftW {A : Type} (w : W A) (k : A -> M unit) (pages : list str) :
  (forall a, writes_fresh os (k a) pages) ->
  writes_fresh os (a <~ liftW w ;; k a) pages.
Proof.
  intros H fs. unfold mbind, liftW. destruct w as [[a|e] t1].
  - specialize (H a fs). destruct (k a fs) as [[r2 t2] fs2]. exact H.
  - cbn. split; [apply keeps_paths_refl | discriminate].
Qed.

Lemma writes_fresh_loop (body : AutodocIndex.entry AutodocIndex.t -> M unit)
    (es : list (AutodocIndex.entry AutodocIndex.t)) :
  Forall (fun e => writes_fresh os (body e) (entry_pages e)) es ->
  writes_fresh os (mfor_each es body) (flat_map entry_pages es).
Proof.
  induction 1 as [|e es He Hes IH].
  - intros fs. cbn. split; [apply keeps_paths_refl|].
    intros _. split; [constructor | intros p []].
  - rewrite mfor_each_cons. cbn [flat_map]. apply writes_fresh_seq; assumption.
Qed.

Lemma tree_writes_fresh (idx : AutodocIndex.t) :
  writes_fresh os (write_index_and_rst_files os get_lexer_for_filename idx false false)
    (pages_in_order idx).
Proof.
  induction idx as [idx IH] using AutodocIndex_nested_ind.
  rewrite write_index_and_rst_files_eq, pages_in_order_eq.
  apply writes_fresh_seq.
  - apply writes_fresh_loop.
    induction IH as [|e es He Hes IHes]; constructor; [|exact IHes].
    destruct e as [f|i|r]; cbn [write_entry entry_pages].
    + unfold write_rst. apply writes_fresh_liftW. intros content.
      apply write_if_allowed_writes_fresh.
    + apply He.
    + intros fs. cbn. split; [apply keeps_paths_refl | discriminate].
  - unfold write_index. apply writes_fresh_liftW. intros content.
    apply write_if_allowed_writes_fresh.
Qed.

(** X9.  Without [overwrite] and outside mock mode, a tree that names the
    same page twice is never written to the end: when
    [write_index_and_rst_files] returns, the pages of the tree are all
    different. *)
Theorem written_pages_are_distinct (idx : AutodocIndex.t) (fs : filesystem) :
  is_ok (fst (fst (write_index_and_rst_files os get_lexer_for_filename idx false false fs)))
  = true ->
  List.NoDup (pages_in_order idx).
Proof. intros Hok. apply (proj2 (tree_writes_fresh idx fs) Hok). Qed.

(** *** Building an index *)

Lemma set_files_to_index_files (self : AutodocIndex.t)
    (files : list (AutodocIndex.entry AutodocIndex.t)) :
  AutodocIndex.files_to_index (set_files_to_index self files) = files.
Proof. destruct self. reflexivity. Qed.

Lemma set_files_to_index_twice (self : AutodocIndex.t)
    (files files' : list (AutodocIndex.entry AutodocIndex.t)) :
  set_files_to_index (set_files_to_index self files) files' = set_files_to_index self files'.
Proof. destruct self. reflexivity. Qed.

Lemma set_files_to_index_same (self : AutodocIndex.t) :
  set_files_to_index self (AutodocIndex.files_to_index self) = self.
Proof. destruct self. reflexivity. Qed.

Lemma set_files_to_index_index_filename (self : AutodocIndex.t)
    (files : list (AutodocIndex.entry AutodocIndex.t)) :
  AutodocIndex.index_filename (set_files_to_index self files)
  = AutodocIndex.index_filename self.
Proof. destruct self. reflexivity. Qed.

Lemma add_indexes_eq (indexes : list AutodocIndex.t) : forall self,
  add_indexes self indexes
  = set_files_to_index self (AutodocIndex.files_to_index self ++ map EIndex indexes).
Proof.
  unfold add_indexes.
  induction indexes as [|i indexes IH]; intros self; cbn [fold_left map].
  - rewrite app_nil_r, set_files_to_index_same. reflexivity.
  - rewrite IH. unfold add_index.
    rewrite set_files_to_index_files, set_files_to_index_twice, <- app_assoc.
    reflexivity.
Qed.

(** X10.  [add_indexes] appends the sub-indexes to [files_to_index] in the
    order given, after the entries there are, and changes nothing else of
    the index; a later write takes their trees after the pages of the
    earlier entries and before the index's own page. *)
Theorem add_indexes_appends_in_order (self : AutodocIndex.t)
    (indexes : list AutodocIndex.t) :
  AutodocIndex.files_to_index (add_indexes self indexes)
  = AutodocIndex.files_to_index self ++ map EIndex indexes
  /\ set_files_to_index (add_indexes self indexes) (AutodocIndex.files_to_index self)
     = self
  /\ pages_in_order (add_indexes self indexes)
     = children_pages self ++ flat_map pages_in_order indexes
       ++ [AutodocIndex.index_filename self].
Proof.
  rewrite add_indexes_eq. split; [apply set_files_to_index_files|]. split.
  - rewrite set_files_to_index_twice. apply set_files_to_index_same.
  - rewrite pages_in_order_eq. unfold children_pages.
    rewrite set_files_to_index_files, set_files_to_index_index_filename.
    rewrite flat_map_app, <- app_assoc. f_equal. f_equal.
    induction indexes as [|i indexes IH]; cbn [map flat_map entry_pages];
      [reflexivity | rewrite IH; reflexivity].
Qed.

Lemma FileToAutodocument_init_Ok (fs : filesystem)
    (source_filename project_root_dir target_rst_filename : str)
    (method : AutodocMethod) (python_package_root_dir : option str)
    (source_rst_title_style_python : bool)
    (pygments_language_override : option (gmap str str))
    (f : FileToAutodocument.t) (t : list event) :
  FileToAutodocument_init os fs source_filename project_root_dir target_rst_filename
    method python_package_root_dir source_rst_title_style_python
    pygments_language_override = (Ok f, t) ->
  f = {| FileToAutodocument.source_filename := abspath os (expanduser os source_filename);
         FileToAutodocument.project_root_dir := abspath os (expanduser os project_root_dir);
         FileToAutodocument.target_rst_filename :=
           abspath os (expanduser os target_rst_filename);
         FileToAutodocument.method := method;
         FileToAutodocument.source_rst_title_style_python := source_rst_title_style_python;
         FileToAutodocument.python_package_root_dir :=
           package_root os python_package_root_dir project_root_dir;
         FileToAutodocument.pygments_language_override :=
           default ∅ pygments_language_override |}
  /\ isfile os fs (abspath os (expanduser os source_filename)) = true
  /\ isdir os fs (abspath os (expanduser os project_root_dir)) = true.
Proof.
  unfold FileToAutodocument_init. intros H. inv_bind H.
  apply ret_Ok in H. destruct H as [<- _].
  split; [|split; assumption].
  unfold package_root. destruct pygments_language_override; reflexivity.
Qed.

Lemma add_source_files_loop (fs : filesystem) (self : AutodocIndex.t)
    (method : AutodocMethod) (style : bool) (override : gmap str str)
    (l : list str) : forall (acc files : list (AutodocIndex.entry AutodocIndex.t)) t,
  fold_W l
    (fun (files : list (AutodocIndex.entry AutodocIndex.t)) source_filename =>
       target <- specific_file_rst_filename os self source_filename ;;
       f <- FileToAutodocument_init os fs source_filename
              (AutodocIndex.project_root_dir self) target method
              (Some (AutodocIndex.python_package_root_dir self)) style
              (Some override) ;;
       ret (files ++ [EFile f]))
    acc = (Ok files, t) ->
  exists new,
    files = acc ++ map EFile new
    /\ map FileToAutodocument.source_filename new
       = map (fun s => abspath os (expanduser os s)) l
    /\ Forall (fun f =>
                 isfile os fs (FileToAutodocument.source_filename f) = true
                 /\ FileToAutodocument.method f = method
                 /\ FileToAutodocument.source_rst_title_style_python f = style
                 /\ FileToAutodocument.pygments_language_override f = override
                 /\ exists s page,
                      In s l
                      /\ fst (specific_file_rst_filename os self s) = Ok page
                      /\ FileToAutodocument.source_filename f
                         = abspath os (expanduser os s)
                      /\ FileToAutodocument.target_rst_filename f
                         = abspath os (expanduser os page)) new.
Proof.
  induction l as [|s l IH]; intros acc files t; cbn [fold_W].
  - intros H. apply ret_Ok in H. destruct H as [<- _].
    exists []. rewrite app_nil_r. split; [reflexivity|]. split; [reflexivity | constructor].
  - intros H. apply bind_Ok in H. destruct H as (acc' & t1 & t2 & Hstep & Hrest & _).
    inv_bind Hstep. apply ret_Ok in Hstep. destruct Hstep as [<- _].
    match goal with Hi : FileToAutodocument_init _ _ _ _ _ _ _ _ _ = _ |- _ =>
      apply FileToAutodocument_init_Ok in Hi; destruct Hi as (Hf & Hfile & _) end.
    destruct (IH _ _ _ Hrest) as (new & -> & Hsrc & Hall).
    match goal with f : FileToAutodocument.t |- _ =>
      exists (f :: new); subst f end.
    rewrite <- app_assoc. split; [reflexivity|]. split.
    + cbn [map FileToAutodocument.source_filename]. rewrite Hsrc. reflexivity.
    + constructor.
      * cbn. repeat (split; [auto|]). exists s. eexists. split; [left; reflexivity|].
        match goal with Hp : specific_file_rst_filename _ _ _ = _ |- _ => rewrite Hp end.
        auto.
      * eapply Forall_impl; [exact Hall|]. cbn beta.
        intros f (? & ? & ? & ? & s' & page & Hin & ?).
        repeat (split; [assumption|]). exists s', page. split; [right; exact Hin | assumption].
Qed.

(** X11.  [add_source_files] does nothing for an argument that is empty
    ([None], the empty string, the empty list).  Otherwise, when it returns,
    it has appended one file descriptor for each discovered file, in the
    sorted order of discovery and after the entries there were, each for an
    existing file, with the page [specific_file_rst_filename] gives it, and
    with the method, title style and language overrides given (or the
    index's own for those left out); nothing else of the index has changed. *)
Theorem add_source_files_appends_sorted (fs : filesystem) (self : AutodocIndex.t)
    (names : option filenames_or_globs) (method : option AutodocMethod)
    (recursive : option bool) (style : option bool)
    (override : option (gmap str str)) :
  let run := add_source_files os glob_glob charset_matches fs self names method
               recursive style override in
  (truthy names = false -> run = (Ok self, []))
  /\ forall sfg idx t,
       names = Some sfg -> truthy names = true -> run = (Ok idx, t) ->
       exists new,
         AutodocIndex.files_to_index idx
         = AutodocIndex.files_to_index self ++ map EFile new
         /\ map FileToAutodocument.source_filename new
            = map (fun s => abspath os (expanduser os s))
                (sort (discovered os glob_glob charset_matches fs
                         (AutodocIndex.skip_globs self) sfg
                         (default (AutodocIndex.recursive self) recursive)))
         /\ Forall (fun f =>
                      isfile os fs (FileToAutodocument.source_filename f) = true
                      /\ FileToAutodocument.method f
                         = default (AutodocIndex.method self) method
                      /\ FileToAutodocument.source_rst_title_style_python f
                         = default (AutodocIndex.source_rst_title_style_python self) style
                      /\ FileToAutodocument.pygments_language_override f
                         = default (AutodocIndex.pygments_language_override self)
                                   override
                      /\ exists s page,
                           In s (sort (discovered os glob_glob charset_matches fs
                                         (AutodocIndex.skip_globs self) sfg
                                         (default (AutodocIndex.recursive self) recursive)))
                           /\ fst (specific_file_rst_filename os self s) = Ok page
                           /\ FileToAutodocument.source_filename f
                              = abspath os (expanduser os s)
                           /\ FileToAutodocument.target_rst_filename f
                              = abspath os (expanduser os page)) new
         /\ set_files_to_index idx (AutodocIndex.files_to_index self) = self.
Proof.
  cbv zeta. unfold add_source_files. split.
  - intros Hf. destruct names as [sfg|]; [|reflexivity]. rewrite Hf. reflexivity.
  - intros sfg idx t -> Ht. rewrite Ht. cbn [negb].
    destruct (get_sorted_source_files_value glob_glob fs self sfg
                (default (AutodocIndex.recursive self) recursive)) as [t0 Hd].
    rewrite Hd. intros H. apply bind_Ok in H.
    destruct H as (l & t1 & t2 & Hl & H & _). injection Hl as <- <-.
    apply bind_Ok in H. destruct H as (files & t3 & t4 & Hloop & H & _).
    apply ret_Ok in H. destruct H as [<- _].
    apply add_source_files_loop in Hloop. destruct Hloop as (new & -> & Hsrc & Hall).
    exists new. rewrite set_files_to_index_files, set_files_to_index_twice.
    split; [reflexivity|]. split; [exact Hsrc|]. split; [exact Hall|].
    apply set_files_to_index_same.
Qed.

Ltac index_init_fails :=
  split; [split; [intros (? & ? & ? & ? & ? & ? & ?); discriminate
                 | intros [? ?]; discriminate]
         | intros ? ?; discriminate].

(** X12.  [AutodocIndex.__init__] without source files succeeds exactly when
    the index file name, the project root and the RST root are not empty,
    the project root is an existing directory, and the index file, the
    highest code directory and the RST root lie within the project root.
    The index it makes has no entries, holds the absolute paths, and
    excludes [__init__.py] when no exclusion patterns are given. *)
Theorem AutodocIndex_init_succeeds_iff (fs : filesystem)
    (index_filename project_root_dir autodoc_rst_root_dir highest_code_dir : str)
    (python_package_root_dir : option str)
    (index_heading_underline_char source_rst_heading_underline_char title : str)
    (recursive : bool) (skip_globs : option (list str)) (toctree_maxdepth : Z)
    (method : AutodocMethod) (rst_prefix rst_suffix : str)
    (source_rst_title_style_python : bool)
    (pygments_language_override : option (gmap str str)) :
  let root := abspath os (expanduser os project_root_dir) in
  let idxfile := abspath os (expanduser os index_filename) in
  let code := abspath os (expanduser os highest_code_dir) in
  let rstroot := abspath os (expanduser os autodoc_rst_root_dir) in
  let made :=
    fst (AutodocIndex_init os glob_glob charset_matches fs index_filename
           project_root_dir autodoc_rst_root_dir highest_code_dir
           python_package_root_dir None index_heading_underline_char
           source_rst_heading_underline_char title recursive skip_globs
           toctree_maxdepth method rst_prefix rst_suffix
           source_rst_title_style_python pygments_language_override) in
  ((nonempty index_filename = true /\ nonempty project_root_dir = true
    /\ nonempty autodoc_rst_root_dir = true
    /\ isdir os fs root = true
    /\ lies_within os idxfile root = true
    /\ lies_within os code root = true
    /\ lies_within os rstroot root = true)
   <-> exists idx, made = Ok idx)
  /\ (forall idx, made = Ok idx ->
        AutodocIndex.files_to_index idx = []
        /\ AutodocIndex.index_filename idx = idxfile
        /\ AutodocIndex.project_root_dir idx = root
        /\ AutodocIndex.autodoc_rst_root_dir idx = rstroot
        /\ AutodocIndex.highest_code_dir idx = code
        /\ AutodocIndex.python_package_root_dir idx
           = package_root os python_package_root_dir project_root_dir
        /\ AutodocIndex.skip_globs idx = default DEFAULT_SKIP_GLOBS skip_globs).
Proof.
  intros root idxfile code rstroot made. subst made.
  unfold AutodocIndex_init, lies_within, package_root. cbn [truthy].
  set (pkg := match python_package_root_dir with
              | Some d => if nonempty d then abspath os (expanduser os d)
                          else abspath os (expanduser os project_root_dir)
              | None => abspath os (expanduser os project_root_dir)
              end).
  change (abspath os (expanduser os project_root_dir)) with root.
  change (abspath os (expanduser os index_filename)) with idxfile.
  change (abspath os (expanduser os highest_code_dir)) with code.
  change (abspath os (expanduser os autodoc_rst_root_dir)) with rstroot.
  clearbody root idxfile code rstroot pkg.
  rewrite bind_fst, assert_fst.
  destruct (nonempty index_filename); [|index_init_fails].
  rewrite bind_fst, assert_fst.
  destruct (nonempty project_root_dir); [|index_init_fails].
  rewrite bind_fst, assert_fst.
  destruct (nonempty autodoc_rst_root_dir); [|index_init_fails].
  rewrite bind_fst, assert_fst.
  destruct (isdir os fs root); [|index_init_fails].
  rewrite bind_fst.
  destruct (fst (relative_filename_within_dir os idxfile root)) as [r1|e1]; [|index_init_fails].
  rewrite bind_fst, assert_fst.
  destruct (nonempty r1); [|index_init_fails].
  rewrite bind_fst.
  destruct (fst (relative_filename_within_dir os code root)) as [r2|e2]; [|index_init_fails].
  rewrite bind_fst, assert_fst.
  destruct (nonempty r2); [|index_init_fails].
  rewrite bind_fst.
  destruct (fst (relative_filename_within_dir os rstroot root)) as [r3|e3]; [|index_init_fails].
  rewrite bind_fst, assert_fst.
  destruct (nonempty r3); [|index_init_fails].
  split; [split; [intros _; eexists; reflexivity | intros _; repeat split] |].
  intros idx [= <-]. cbn. repeat split.
Qed.

(** *** The text of a page *)

Lemma str_mul_repeat (u : ascii) (n : nat) : str_mul [u] n = repeat u n.
Proof. induction n as [|n IH]; cbn; [|rewrite IH]; reflexivity. Qed.

Lemma contains_chr_false (s : str) (c : ascii) : contains_chr s c = false <-> ~ In c s.
Proof.
  unfold contains_chr. split.
  - intros H Hin. assert (existsb (Ascii.eqb c) s = true) as Ht.
    { apply existsb_exists. exists c. split; [exact Hin | apply Ascii.eqb_refl]. }
    congruence.
  - intros H. destruct (existsb (Ascii.eqb c) s) eqn:E; [|reflexivity].
    apply existsb_exists in E. destruct E as (x & Hx & Heq).
    apply Ascii.eqb_eq in Heq. subst x. contradiction.
Qed.

(** X13.  [rst_underline] returns exactly when the heading holds no newline
    and the underline is one character; what it returns is the heading, a
    newline and the underline character as often as the heading is long:
    two lines of the same length, unless the underline character is itself a
    newline. *)
Theorem rst_underline_two_lines (heading underline_char : str) :
  ((contains_chr heading NL = false /\ length underline_char = 1)
   <-> exists s, fst (rst_underline heading underline_char) = Ok s)
  /\ forall s, fst (rst_underline heading underline_char) = Ok s ->
       exists u, underline_char = [u]
                 /\ s = heading ++ NL :: repeat u (length heading)
                 /\ (u <> NL -> lines s = [heading; repeat u (length heading)]).
Proof.
  unfold rst_underline.
  rewrite bind_fst, assert_fst.
  destruct (contains_chr heading NL) eqn:Hnl; cbn [negb];
    [split; [split; [intros [? _]; discriminate | intros [? ?]; discriminate]
            | intros ? ?; discriminate]|].
  rewrite bind_fst, assert_fst.
  destruct (Nat.eqb (length underline_char) 1) eqn:Hlen;
    [|split; [split; [intros [_ H]; apply Nat.eqb_neq in Hlen; contradiction
                     | intros [? ?]; discriminate]
             | intros ? ?; discriminate]].
  apply Nat.eqb_eq in Hlen.
  split; [split; [intros _; eexists; reflexivity | auto]|].
  intros s [= <-].
  destruct underline_char as [|u [|? ?]]; try discriminate.
  exists u. split; [reflexivity|]. rewrite str_mul_repeat. split; [reflexivity|].
  intros Hu. unfold lines. cbn [app]. rewrite split_app_sep.
  apply contains_chr_false in Hnl.
  rewrite (split_no_sep heading NL Hnl), split_no_sep; [reflexivity|].
  intros Hin. apply repeat_spec in Hin. congruence.
Qed.

(** Where the instruction stands in a page: the text of the page holds the
    instruction up to its last character that is not white space. *)
Lemma page_holds_instruction (filename prefix underlined_title suffix : str)
    (instruction held directive rest : str) (c : ascii) :
  isspace c = false ->
  instruction = directive ++ c :: rest ->
  held = directive ++ [c] ->
  exists a b,
    strip (page_template filename prefix underlined_title instruction suffix) ++ [NL]
    = a ++ held ++ b.
Proof.
  intros Hc -> ->. rewrite strip_page_template.
  exists ((".. " ++ filename ++ [NL] ++ "        " ++ [NL]) ++ AUTOGENERATED_COMMENT
          ++ NL :: NL :: prefix ++ NL :: NL :: underlined_title ++ NL :: [NL]),
         (rstrip (rest ++ NL :: NL :: suffix ++ NL :: "        ") ++ [NL]).
  replace (NL :: NL :: prefix ++ NL :: NL :: underlined_title ++ NL :: NL
           :: (directive ++ c :: rest) ++ NL :: NL :: suffix ++ NL :: "        ")
    with ((NL :: NL :: prefix ++ NL :: NL :: underlined_title ++ NL :: NL :: directive)
          ++ c :: (rest ++ NL :: NL :: suffix ++ NL :: "        "))
    by (repeat (progress (rewrite <- ?app_assoc; cbn [app])); reflexivity).
  rewrite rstrip_app_nonspace by exact Hc.
  repeat (progress (rewrite <- ?app_assoc; cbn [app])). reflexivity.
Qed.

(** X14.  The method of a page, for the members of [AutodocMethod]: [None]
    stands for the descriptor's own method; [BEST] is [AUTOMODULE] for a
    Python file and [CONTENTS] for any other; for a file that is not Python
    every method gives the page of [CONTENTS].  A page made with [CONTENTS]
    holds a [literalinclude] directive for the source file as seen from the
    page, with a [:language:] option; a page made with [AUTOMODULE] for a
    Python file holds an [automodule] directive for [python_module_name],
    with [:members:]. *)
Theorem rst_content_method_choice (f : FileToAutodocument.t)
    (prefix suffix heading_underline_char : str) :
  let page := rst_content os get_lexer_for_filename f prefix suffix
                heading_underline_char in
  page None = page (Some (FileToAutodocument.method f))
  /\ page (Some BEST) = page (Some (if is_python f then AUTOMODULE else CONTENTS))
  /\ (is_python f = false -> forall m, page m = page (Some CONTENTS))
  /\ (forall content t,
        page (Some CONTENTS) = (Ok content, t) ->
        exists filename,
          fst (source_filename_rel_rst_file os f) = Ok filename
          /\ exists a b,
               content = a ++ (".. literalinclude:: " ++ filename ++ [NL]
                               ++ "    :language:") ++ b)
  /\ (is_python f = true ->
      forall content t,
        page (Some AUTOMODULE) = (Ok content, t) ->
        exists modulename,
          fst (python_module_name os f) = Ok modulename
          /\ exists a b,
               content = a ++ (".. automodule:: " ++ modulename ++ [NL]
                               ++ "    :members:") ++ b).
Proof.
  cbv zeta. split; [reflexivity|]. split; [|split; [|split]].
  - unfold rst_content, final_method.
    destruct (is_python f) eqn:E; cbn; rewrite ?E; reflexivity.
  - intros Hpy m. unfold rst_content, final_method. rewrite Hpy.
    destruct (match m with None => FileToAutodocument.method f | Some m0 => m0 end);
      reflexivity.
  - intros content t H. unfold rst_content in H.
    change (final_method f (Some CONTENTS)) with CONTENTS in H.
    cbn [title_and_instruction] in H. inv_bind H.
    apply ret_Ok in H. destruct H as [<- _].
    match goal with
    | Hti : bind (source_filename_rel_project_root os f) _ = _ |- _ =>
        inv_bind Hti; apply ret_Ok in Hti; destruct Hti as [<- _]
    end.
    cbn [fst snd] in *.
    match goal with
    | H3 : source_filename_rel_rst_file os f = (Ok ?x, _),
      H4 : pygments_language _ f = (Ok ?lang, _) |- _ =>
        exists x; rewrite H3; split; [reflexivity|];
        apply (page_holds_instruction _ _ _ _ _ _
                 (".. literalinclude:: " ++ x ++ [NL] ++ "    :language")
                 (" " ++ lang) ":"%char eq_refl);
        repeat (progress (rewrite <- ?app_assoc; cbn [app list_ascii_of_string]));
        reflexivity
    end.
  - intros Hpy content t H. unfold rst_content in H.
    assert (final_method f (Some AUTOMODULE) = AUTOMODULE) as Hm
      by (unfold final_method; rewrite Hpy; reflexivity).
    rewrite Hm in H. cbn [title_and_instruction] in H. inv_bind H.
    apply ret_Ok in H. destruct H as [<- _].
    match goal with
    | Hti : bind _ _ = (Ok _, _) |- _ =>
        inv_bind Hti; apply ret_Ok in Hti; destruct Hti as [<- _]
    end.
    cbn [fst snd] in *.
    match goal with
    | H3 : python_module_name os f = (Ok ?x, _) |- _ =>
        exists x; rewrite H3; split; [reflexivity|];
        apply (page_holds_instruction _ _ _ _ _ _
                 (".. automodule:: " ++ x ++ [NL] ++ "    :members")
                 [] ":"%char eq_refl);
        repeat (progress (rewrite <- ?app_assoc; cbn [app list_ascii_of_string]));
        reflexivity
    end.
Qed.

Lemma in_str_join (s : str) (parts : list str) (ch : ascii) :
  In ch (str_join s parts) -> In ch s \/ exists p, In p parts /\ In ch p.
Proof.
  induction parts as [|x [|y rest] IH]; cbn [str_join].
  - intros [].
  - intros H. right. exists x. split; [left; reflexivity | exact H].
  - intros H. apply in_app_or in H. destruct H as [H|H].
    + right. exists x. split; [left; reflexivity | exact H].
    + apply in_app_or in H. destruct H as [H|H]; [left; exact H|].
      destruct (IH H) as [Hs | (p & Hp & Hc)]; [left; exact Hs|].
      right. exists p. split; [right; exact Hp | exact Hc].
Qed.

Lemma split_str_join (c : ascii) (parts : list str) :
  parts <> [] -> Forall (fun p => ~ In c p) parts ->
  split (str_join [c] parts) c = parts.
Proof.
  induction parts as [|x [|y rest] IH]; intros Hne Hall; [contradiction| |].
  - cbn [str_join]. apply split_no_sep. inversion Hall; assumption.
  - change (str_join [c] (x :: y :: rest)) with (x ++ c :: str_join [c] (y :: rest)).
    rewrite split_app_sep. inversion Hall as [|? ? Hx Hrest]; subst.
    rewrite (split_no_sep x c Hx), IH; [reflexivity | discriminate | exact Hrest].
Qed.

(** X15.  [python_module_name] is the empty string for a file that is not
    Python.  For a Python file it holds no path separator, and when the path
    of the file below the package root holds no dot but that of its
    extension, the dotted parts of the name are the components of that path
    without the extension. *)
Theorem python_module_name_is_dotted_path (f : FileToAutodocument.t)
    (name : str) (t : list event) :
  python_module_name os f = (Ok name, t) ->
  ~ In sep name
  /\ (is_python f = false -> name = [])
  /\ (is_python f = true ->
      exists filepath,
        fst (source_filename_rel_python_root os f) = Ok filepath
        /\ (~ In "."%char (fst (splitext filepath)) ->
            split name "." = split (fst (splitext filepath)) sep)).
Proof.
  unfold python_module_name. destruct (is_python f); cbn [negb].
  - intros H. inv_bind H. apply ret_Ok in H. destruct H as [<- _].
    split; [|split; [discriminate|]].
    + intros Hin. apply in_str_join in Hin.
      destruct Hin as [Hin | (p & Hp & Hin)].
      * destruct Hin as [Hc|[]]. discriminate.
      * apply split_parts_no_sep in Hp. contradiction.
    + intros _. exists a. rewrite H0. split; [reflexivity|].
      intros Hdot. apply (split_str_join "."%char).
      * apply split_ne.
      * apply List.Forall_forall. intros p Hp Hin.
        apply Hdot. eapply split_chars; eassumption.
  - intros H. apply ret_Ok in H. destruct H as [<- _].
    split; [intros []|]. split; [reflexivity | discriminate].
Qed.

(** *** The text of an index *)

Lemma strip_index_template (filename prefix underlined_title instruction suffix : str) :
  strip (index_template filename prefix underlined_title instruction suffix)
  = (".. " ++ filename ++ [NL] ++ [NL]) ++ AUTOGENERATED_COMMENT
    ++ rstrip (NL :: NL :: prefix ++ NL :: NL :: underlined_title ++ NL :: NL
               :: instruction ++ NL :: NL :: suffix ++ NL :: "                ").
Proof.
  unfold strip. rewrite <- rstrip_after_marker. f_equal.
  unfold index_template. cbn [app list_ascii_of_string].
  rewrite lstrip_cons_space by reflexivity.
  rewrite lstrip_cons_nonspace by reflexivity.
  rewrite <- !app_assoc. reflexivity.
Qed.

(** A toctree loop that ends normally has met no entry of an unknown kind. *)
Lemma toctree_loop_Ok (index_filename : str)
    (es : list (AutodocIndex.entry AutodocIndex.t)) : forall (acc out : list str) t,
  fold_W es
    (fun instruction_lines f =>
       rst_filename <-
         match f with
         | EFile f =>
             r <- rst_filename_rel_autodoc_index os f index_filename ;;
             ret ("    " ++ r)
         | EIndex i =>
             r <- index_filename_rel_other_index os i index_filename ;;
             ret ("    " ++ r)
         | EOther repr =>
             fail (Msg "Unknown thing in files_to_index: {!r}" [repr])
         end ;;
       ret (instruction_lines ++ [rst_filename]))
    acc = (Ok out, t) ->
  Forall (fun e => forall repr, e <> EOther repr) es
  /\ length out = length acc + length es.
Proof.
  induction es as [|e es IH]; intros acc out t; cbn [fold_W].
  - intros H. apply ret_Ok in H. destruct H as [<- _].
    split; [constructor | cbn; lia].
  - intros H. apply bind_Ok in H. destruct H as (acc' & t1 & t2 & Hstep & Hrest & _).
    apply bind_Ok in Hstep. destruct Hstep as (line & t3 & t4 & Hline & Hret & _).
    apply ret_Ok in Hret. destruct Hret as [<- _].
    destruct (IH _ _ _ Hrest) as [Hall Hlen]. split.
    + constructor; [|exact Hall]. intros repr ->. discriminate.
    + rewrite Hlen, length_app. cbn. lia.
Qed.

(** X16.  When [index_content] returns, no entry of the index is of an
    unknown kind, and the text begins with the label line of the index,
    ends with exactly one newline (the character before it is not white
    space) and holds the autogenerated-marker line. *)
Theorem index_content_label_marker_newline (idx : AutodocIndex.t)
    (content : str) (t : list event) :
  index_content os idx = (Ok content, t) ->
  Forall (fun e => forall repr, e <> EOther repr) (AutodocIndex.files_to_index idx)
  /\ (exists filename,
        fst (index_filename_rel_project_root os idx) = Ok filename
        /\ startswith content (".. " ++ filename ++ [NL]) = true)
  /\ (exists body c, content = body ++ [c; NL] /\ isspace c = false)
  /\ 1 <= marker_lines content.
Proof.
  intros H. unfold index_content in H. inv_bind H.
  apply ret_Ok in H. destruct H as [<- _].
  apply toctree_loop_Ok in H0. destruct H0 as [Hall _].
  split; [exact Hall|].
  rewrite strip_index_template.
  set (rest := NL :: AutodocIndex.rst_prefix idx ++ NL :: NL :: a1
                 ++ NL :: NL :: str_join [NL] a ++ NL :: NL
                 :: AutodocIndex.rst_suffix idx ++ NL :: "                ").
  split; [|split].
  - exists a0. rewrite H1. split; [reflexivity|].
    apply startswith_iff. eexists. rewrite <- ?app_assoc. cbn [app].
    rewrite <- ?app_assoc. cbn [app]. reflexivity.
  - destruct (rstrip_last (NL :: rest)) as [->|(b & x & -> & Hx)].
    + exists ((".. " ++ a0 ++ [NL] ++ [NL])
              ++ ".. THIS FILE IS AUTOMATICALLY GENERATED. DO NOT EDIT"), "."%char.
      split; [|reflexivity]. rewrite app_nil_r, <- !app_assoc. reflexivity.
    + exists ((".. " ++ a0 ++ [NL] ++ [NL]) ++ AUTOGENERATED_COMMENT ++ b), x.
      split; [|exact Hx]. rewrite <- !app_assoc. reflexivity.
  - destruct (marker_lines_content (".. " ++ a0 ++ [NL]) rest) as (tail & _ & Hm & _).
    rewrite <- !app_assoc in *. cbn [app] in *. rewrite Hm. lia.
Qed.

Lemma all_known_eq (idx : AutodocIndex.t) :
  all_known idx
  = forallb (fun e => match e with
                      | EFile _ => true
                      | EIndex i => all_known i
                      | EOther _ => false
                      end) (AutodocIndex.files_to_index idx).
Proof. destruct idx. reflexivity. Qed.

Lemma mbind_ok (m1 m2 : M unit) (fs : filesystem) :
  is_ok (fst (fst ((m1 ;;~ m2) fs))) = true ->
  is_ok (fst (fst (m1 fs))) = true
  /\ is_ok (fst (fst (m2 (snd (m1 fs))))) = true.
Proof.
  unfold mbind. destruct (m1 fs) as [[[[]|e] t1] fs1]; cbn [fst snd is_ok];
    [|discriminate].
  destruct (m2 fs1) as [[r2 t2] fs2]. cbn [fst snd]. auto.
Qed.

Lemma mfor_each_ok {A : Type} (body : A -> M unit) (xs : list A) : forall fs,
  is_ok (fst (fst (mfor_each xs body fs))) = true ->
  Forall (fun x => exists fs1, is_ok (fst (fst (body x fs1))) = true) xs.
Proof.
  induction xs as [|x xs IH]; intros fs; [constructor|].
  rewrite mfor_each_cons. intros H. apply mbind_ok in H. destruct H as [H1 H2].
  constructor; [eauto | eapply IH; exact H2].
Qed.

(** X17.  A tree that holds an entry of an unknown kind, at any depth, is
    never written to the end: [write_index_and_rst_files] returns only for
    a tree all of whose entries are file descriptors or indexes. *)
Theorem unknown_entry_stops_the_write (idx : AutodocIndex.t) (overwrite mock : bool)
    (fs : filesystem) :
  is_ok (fst (fst (write_index_and_rst_files os get_lexer_for_filename idx
                     overwrite mock fs))) = true ->
  all_known idx = true.
Proof.
  revert fs. induction idx as [idx IH] using AutodocIndex_nested_ind. intros fs.
  rewrite write_index_and_rst_files_eq, all_known_eq. intros H.
  apply mbind_ok in H. destruct H as [H _]. apply mfor_each_ok in H.
  apply forallb_forall. intros e He.
  rewrite List.Forall_forall in IH, H.
  specialize (IH e He). destruct (H e He) as [fs1 Hok].
  destruct e as [f|i|r]; cbn [write_entry] in *.
  - reflexivity.
  - eapply IH. exact Hok.
  - discriminate.
Qed.

(** *** The name of a page *)

Lemma rfind_aux_none (c : ascii) (s : str) : forall i found,
  ~ In c s -> rfind_aux c s i found = found.
Proof.
  induction s as [|x s IH]; intros i found Hn; cbn [rfind_aux]; [reflexivity|].
  destruct (Ascii.eqb x c) eqn:E.
  - apply Ascii.eqb_eq in E. subst x. exfalso. apply Hn. left. reflexivity.
  - apply IH. intros Hin. apply Hn. right. exact Hin.
Qed.

Lemma rfind_aux_last (c : ascii) (x b : str) : forall i found,
  ~ In c b -> rfind_aux c (x ++ c :: b) i found = (i + Z.of_nat (length x))%Z.
Proof.
  induction x as [|a x IH]; intros i found Hn; cbn [app rfind_aux length].
  - rewrite Ascii.eqb_refl, rfind_aux_none by exact Hn. lia.
  - rewrite IH by exact Hn. lia.
Qed.

Lemma last_occurrence (c : ascii) (s : str) :
  ~ In c s \/ exists x b, s = x ++ c :: b /\ ~ In c b.
Proof.
  induction s as [|a s IH]; [left; intros []|].
  destruct IH as [Hn | (x & b & -> & Hb)].
  - destruct (Ascii.eqb a c) eqn:E.
    + apply Ascii.eqb_eq in E. subst a. right. exists [], s. auto.
    + left. intros [->|Hin]; [|contradiction].
      rewrite Ascii.eqb_refl in E. discriminate.
  - right. exists (a :: x), b. auto.
Qed.

Lemma basename_no_sep (b : str) : ~ In sep b -> basename b = b.
Proof.
  intros Hn. unfold basename, rfind. rewrite rfind_aux_none by exact Hn. reflexivity.
Qed.

Lemma basename_after_sep (x b : str) : ~ In sep b -> basename (x ++ sep :: b) = b.
Proof.
  intros Hn. unfold basename, rfind, from. rewrite rfind_aux_last by exact Hn.
  replace (Z.to_nat (0 + Z.of_nat (length x) + 1)) with (length (x ++ [sep]))
    by (rewrite length_app; cbn; lia).
  replace (x ++ sep :: b) with ((x ++ [sep]) ++ b) by (rewrite <- app_assoc; reflexivity).
  apply drop_app_length.
Qed.

Lemma basename_has_no_sep (s : str) : ~ In sep (basename s).
Proof.
  destruct (last_occurrence sep s) as [Hn | (x & b & -> & Hb)].
  - rewrite basename_no_sep; assumption.
  - rewrite basename_after_sep; assumption.
Qed.

Lemma basename_join2 (path b : str) :
  b <> [] -> ~ In sep b -> basename (join2 path b) = b.
Proof.
  intros Hne Hn. unfold join2.
  assert (startswith b [sep] = false) as ->.
  { destruct (startswith b [sep]) eqn:E; [|reflexivity].
    apply startswith_iff in E. destruct E as [r ->].
    exfalso. apply Hn. left. reflexivity. }
  destruct (str_eqb path []) eqn:Hp; cbn [orb].
  - unfold str_eqb in Hp. apply bool_decide_eq_true in Hp. subst path.
    apply basename_no_sep. exact Hn.
  - destruct (endswith path [sep]) eqn:He.
    + apply endswith_iff in He. destruct He as [p ->].
      rewrite <- app_assoc. apply basename_after_sep. exact Hn.
    + apply basename_after_sep. exact Hn.
Qed.

(** X18.  The page [specific_file_rst_filename] gives a source file has the
    base name of the source file with [.rst] added, so two source files
    that differ in their base names (as [thing.h] and [thing.cpp]) never get
    the same page. *)
Theorem specific_file_rst_filename_keeps_basename (idx : AutodocIndex.t)
    (source_filename page : str) (t : list event) :
  specific_file_rst_filename os idx source_filename = (Ok page, t) ->
  basename page = basename source_filename ++ EXT_RST
  /\ forall source_filename' t',
       specific_file_rst_filename os idx source_filename' = (Ok page, t') ->
       basename source_filename' = basename source_filename.
Proof.
  assert (forall s p tr, specific_file_rst_filename os idx s = (Ok p, tr) ->
            basename p = basename s ++ EXT_RST) as Hb.
  { intros s p tr H. unfold specific_file_rst_filename in H. inv_bind H.
    apply ret_Ok in H. destruct H as [<- _].
    unfold join. cbn [fold_left]. apply basename_join2.
    - intros Hnil. apply app_eq_nil in Hnil. destruct Hnil as [_ Hnil]. discriminate.
    - intros Hin. apply in_app_or in Hin. destruct Hin as [Hin|Hin].
      + exact (basename_has_no_sep _ Hin).
      + exact (proj1 (contains_chr_false EXT_RST sep) eq_refl Hin). }
  intros H. split; [eapply Hb; exact H|].
  intros s' t' H'. apply Hb in H, H'. rewrite H in H'.
  apply app_inv_tail in H'. symmetry. exact H'.
Qed.

(** *** The paths a descriptor holds *)

Lemma expanduser_isabs (p : str) : isabs p = true -> expanduser os p = p.
Proof.
  unfold isabs. intros H. apply startswith_iff in H. destruct H as [r ->].
  reflexivity.
Qed.

Lemma abspath_expanduser_idem (p : str) :
  isabs (getcwd os) = true ->
  isabs (abspath os p) = true
  /\ abspath os (expanduser os (abspath os p)) = abspath os p.
Proof.
  intros Hcwd. destruct (abspath_is_abs_form p Hcwd) as (k & cs & Hk & Hcs & ->).
  pose proof (isabs_abs_form k cs Hk) as Habs. split; [exact Habs|].
  rewrite (expanduser_isabs _ Habs). apply abspath_abs_form; assumption.
Qed.

Lemma package_root_idem (d : option str) (root : str) :
  isabs (getcwd os) = true ->
  isabs (package_root os d root) = true
  /\ abspath os (expanduser os (package_root os d root)) = package_root os d root.
Proof.
  intros Hcwd. unfold package_root.
  destruct d as [d|]; [destruct (nonempty d)|]; apply abspath_expanduser_idem; exact Hcwd.
Qed.

Lemma isabs_nonempty (p : str) : isabs p = true -> nonempty p = true.
Proof. destruct p; [discriminate | reflexivity]. Qed.

(** X19.  With an absolute working directory, the four paths a constructed
    [FileToAutodocument] holds are absolute, and making them absolute again
    changes nothing; constructing a descriptor again from the attributes of
    a constructed one gives the same descriptor. *)
Theorem FileToAutodocument_attributes_are_stable (fs : filesystem)
    (source_filename project_root_dir target_rst_filename : str)
    (method : AutodocMethod) (python_package_root_dir : option str)
    (source_rst_title_style_python : bool)
    (pygments_language_override : option (gmap str str))
    (f : FileToAutodocument.t) (t : list event) :
  isabs (getcwd os) = true ->
  FileToAutodocument_init os fs source_filename project_root_dir target_rst_filename
    method python_package_root_dir source_rst_title_style_python
    pygments_language_override = (Ok f, t) ->
  Forall (fun p => isabs p = true /\ abspath os (expanduser os p) = p)
    [FileToAutodocument.source_filename f; FileToAutodocument.project_root_dir f;
     FileToAutodocument.target_rst_filename f;
     FileToAutodocument.python_package_root_dir f]
  /\ FileToAutodocument_init os fs
       (FileToAutodocument.source_filename f) (FileToAutodocument.project_root_dir f)
       (FileToAutodocument.target_rst_filename f) (FileToAutodocument.method f)
       (Some (FileToAutodocument.python_package_root_dir f))
       (FileToAutodocument.source_rst_title_style_python f)
       (Some (FileToAutodocument.pygments_language_override f))
     = (Ok f, t).
Proof.
  intros Hcwd H.
  destruct (FileToAutodocument_init_Ok _ _ _ _ _ _ _ _ _ _ H) as (Hf & _ & _).
  destruct (abspath_expanduser_idem (expanduser os source_filename) Hcwd) as [As Is].
  destruct (abspath_expanduser_idem (expanduser os project_root_dir) Hcwd) as [Ar Ir].
  destruct (abspath_expanduser_idem (expanduser os target_rst_filename) Hcwd) as [At It].
  destruct (package_root_idem python_package_root_dir project_root_dir Hcwd) as [Ap Ip].
  split.
  - rewrite Hf. cbn [FileToAutodocument.source_filename FileToAutodocument.project_root_dir
                     FileToAutodocument.target_rst_filename
                     FileToAutodocument.python_package_root_dir].
    repeat constructor; assumption.
  - rewrite <- H. rewrite Hf.
    cbn [FileToAutodocument.source_filename FileToAutodocument.project_root_dir
         FileToAutodocument.target_rst_filename FileToAutodocument.method
         FileToAutodocument.python_package_root_dir
         FileToAutodocument.source_rst_title_style_python
         FileToAutodocument.pygments_language_override].
    unfold FileToAutodocument_init.
    rewrite (isabs_nonempty _ Ap), Is, Ir, It, Ip.
    unfold package_root. destruct pygments_language_override; reflexivity.
Qed.

(** *** Sources given to the constructor *)

Lemma bind_assoc {A B C : Type} (m : W A) (k : A -> W B) (h : B -> W C) :
  bind (bind m k) h = bind m (fun a => bind (k a) h).
Proof.
  unfold bind. destruct m as [[a|e] t1]; [|reflexivity].
  destruct (k a) as [[b|e] t2]; [|reflexivity].
  destruct (h b) as [r t3]. rewrite app_assoc. reflexivity.
Qed.

Lemma bind_ret_r {A : Type} (m : W A) : bind m ret = m.
Proof.
  unfold bind, ret. destruct m as [[a|e] t1]; [|reflexivity].
  rewrite app_nil_r. reflexivity.
Qed.

Lemma bind_ext {A B : Type} (m : W A) (k k' : A -> W B) :
  (forall a, k a = k' a) -> bind m k = bind m k'.
Proof.
  intros H. unfold bind. destruct m as [[a|e] t1]; [|reflexivity].
  rewrite H. reflexivity.
Qed.

(** X20.  Giving source files to the constructor of [AutodocIndex] is the
    same as constructing the index without them and calling
    [add_source_files] on it: the same index or the same exception, and the
    same log. *)
Theorem AutodocIndex_init_then_add_source_files (fs : filesystem)
    (index_filename project_root_dir autodoc_rst_root_dir highest_code_dir : str)
    (python_package_root_dir : option str)
    (source_filenames_or_globs : option filenames_or_globs)
    (index_heading_underline_char source_rst_heading_underline_char title : str)
    (recursive : bool) (skip_globs : option (list str)) (toctree_maxdepth : Z)
    (method : AutodocMethod) (rst_prefix rst_suffix : str)
    (source_rst_title_style_python : bool)
    (pygments_language_override : option (gmap str str)) :
  AutodocIndex_init os glob_glob charset_matches fs index_filename
    project_root_dir autodoc_rst_root_dir highest_code_dir
    python_package_root_dir source_filenames_or_globs index_heading_underline_char
    source_rst_heading_underline_char title recursive skip_globs
    toctree_maxdepth method rst_prefix rst_suffix
    source_rst_title_style_python pygments_language_override
  = (idx <- AutodocIndex_init os glob_glob charset_matches fs index_filename
              project_root_dir autodoc_rst_root_dir highest_code_dir
              python_package_root_dir None index_heading_underline_char
              source_rst_heading_underline_char title recursive skip_globs
              toctree_maxdepth method rst_prefix rst_suffix
              source_rst_title_style_python pygments_language_override ;;
     add_source_files os glob_glob charset_matches fs idx source_filenames_or_globs
       None None None None).
Proof.
  unfold AutodocIndex_init. cbn [truthy].
  repeat (rewrite bind_assoc; apply bind_ext; intros ?).
  rewrite bind_ret_l.
  destruct (truthy source_filenames_or_globs) eqn:Ht; [reflexivity|].
  unfold add_source_files. destruct source_filenames_or_globs as [sfg|]; [|reflexivity].
  rewrite Ht. reflexivity.
Qed.

End Properties.

(** ** The theorems at the small project *)



Lemma join_root_relpath_witness :
  exists rel,
    source_filename_rel_project_root ex_os ex_file = ret rel
    /\ posixpath.join (FileToAutodocument.project_root_dir ex_file) [rel]
       = FileToAutodocument.source_filename ex_file.
Proof.
  apply (join_root_relpath_is_source ex_os ex_fs "/proj/src/a/b.py" "/proj"
           "/proj/docs/a/b.py.rst" BEST None true None ex_file []);
    vm_compute; reflexivity.
Defined.

(** C2 as stated fails: [//proj/notes.txt] in the root directory [/] makes a
    [FileToAutodocument] that keeps the two slashes; the path relative to the
    root is [proj/notes.txt], and joined to [/] it is [/proj/notes.txt]. *)
Lemma join_root_relpath_counterexample :
  exists f,
    FileToAutodocument_init ex_os ex_fs "//proj/notes.txt" "/" "/proj/docs/notes.txt.rst"
      BEST None true None = (Ok f, [])
    /\ FileToAutodocument.source_filename f = "//proj/notes.txt"
    /\ FileToAutodocument.project_root_dir f = "/"
    /\ source_filename_rel_project_root ex_os f = ret (list_ascii_of_string "proj/notes.txt")
    /\ posixpath.join (FileToAutodocument.project_root_dir f)
         [list_ascii_of_string "proj/notes.txt"] = "/proj/notes.txt"
    /\ posixpath.join (FileToAutodocument.project_root_dir f)
         [list_ascii_of_string "proj/notes.txt"] <> FileToAutodocument.source_filename f.
Proof.
  eexists. split; [vm_compute; reflexivity|].
  repeat split; try (vm_compute; reflexivity). vm_compute. discriminate.
Qed.

Lemma rst_content_witness :
  rst_content ex_os ex_lexer ex_file "" "" "=" None = (Ok ex_page, [])
  /\ (exists body c, ex_page = body ++ [c; NL] /\ isspace c = false)
  /\ marker_lines ex_page = 1.
Proof.
  assert (rst_content ex_os ex_lexer ex_file "" "" "=" None = (Ok ex_page, [])) as H
    by (vm_compute; reflexivity).
  split; [exact H|].
  destruct (rst_content_newline_and_marker ex_os ex_lexer ex_file "" "" "=" None
              ex_page [] H) as (H1 & _ & H3).
  split; [exact H1|].
  eapply H3; vm_compute; reflexivity.
Defined.

(** C3 as stated fails: with the marker as prefix, the page has two marker
    lines. *)
Lemma rst_content_marker_counterexample :
  exists content,
    rst_content ex_os ex_lexer ex_file AUTOGENERATED_COMMENT "" "=" None = (Ok content, [])
    /\ marker_lines content = 2.
Proof. eexists. split; vm_compute; reflexivity. Qed.

Lemma discovery_excludes_tmp_witness :
  exists files t,
    get_sorted_source_files ex_os ex_glob ex_charset ex_fs
      (ex_index ["*.tmp" : str] [] "/proj/docs/_index.rst")
      (OneName "/proj/src/**/*") true = (Ok files, t)
    /\ forall f, In f files ->
         fnmatch.fnmatch ex_charset (posixpath.basename f) "*.tmp" = false
         /\ endswith (posixpath.basename f) ".tmp" = false.
Proof.
  apply (discovery_excludes_tmp ex_os ex_glob ex_charset ex_fs
           (ex_index ["*.tmp" : str] [] "/proj/docs/_index.rst")
           (OneName "/proj/src/**/*") true).
  left. reflexivity.
Defined.

(** The tree of two files and a sub-index: the three pages below the index
    and the sub-index page come first, the index page last. *)
Lemma write_tree_witness :
  written (snd (fst (write_index_and_rst_files ex_os ex_lexer ex_tree false false ex_fs)))
  = ["/proj/docs/a/b.py.rst" : str; "/proj/docs/notes.txt.rst" : str;
     "/proj/docs/a/__init__.py.rst" : str; "/proj/docs/sub/_index.rst" : str;
     "/proj/docs/_index.rst" : str].
Proof.
  rewrite (proj1 (proj2 (write_children_before_index_and_abort
                           ex_os ex_lexer ex_tree false false ex_fs)));
    vm_compute; reflexivity.
Defined.

Lemma scenario_witness :
  fst (specific_file_rst_filename ex_os (ex_index [] [] "/proj/docs/_index.rst")
         "/proj/src/a/b.py") = Ok (list_ascii_of_string "/proj/docs/a/b.py.rst")
  /\ rst_filename_rel_autodoc_index ex_os ex_file "/proj/docs/_index.rst"
     = ret (list_ascii_of_string "a/b.py.rst").
Proof.
  apply (scenario_page_path_and_index_entry ex_os
           (ex_index [] [] "/proj/docs/_index.rst") ex_file); reflexivity.
Defined.

Lemma write_if_allowed_witness :
  write_if_allowed ex_os "/proj/notes.txt" "new" false false ex_fs
  = ((Raise (RuntimeError (Msg "File exists, not overwriting: {!r}"
                               [list_ascii_of_string "/proj/notes.txt"])),
      [EvLog CRITICAL (Msg "File exists, not overwriting: {!r}"
                           [list_ascii_of_string "/proj/notes.txt"])]),
     ex_fs).
Proof.
  apply (proj1 (write_if_allowed_collision_and_mock ex_os "/proj/notes.txt" "new" ex_fs)).
  vm_compute. reflexivity.
Defined.

Lemma pygments_language_witness :
  pygments_language ex_lexer ex_text_file
  = (Ok CODE_TYPE_NONE,
     [EvLog WARNING (Msg "Don't know Pygments code type for extension {!r}"
                         [source_extension ex_text_file])])
  /\ CODE_TYPE_NONE = "none".
Proof.
  apply (pygments_language_unknown_extension ex_lexer ex_text_file);
    vm_compute; reflexivity.
Defined.

Lemma default_skip_globs_witness :
  AutodocIndex.skip_globs ex_built_index = DEFAULT_SKIP_GLOBS
  /\ DEFAULT_SKIP_GLOBS = [list_ascii_of_string "__init__.py"]
  /\ forall (fs' : filesystem) (names : filenames_or_globs) (recursive' : bool),
       exists files t,
         get_sorted_source_files ex_os ex_glob ex_charset fs' ex_built_index names recursive'
         = (Ok files, t)
         /\ forall f, In f files -> posixpath.basename f <> "__init__.py".
Proof.
  apply (default_skip_globs_exclude_init_py ex_os ex_glob ex_charset ex_fs
           "/proj/docs/_index.rst" "/proj" "/proj/docs" "/proj/src" None
           (Some (OneName "/proj/src/**/*")) "-" "~" DEFAULT_INDEX_TITLE true 1 BEST
           "" "" true None ex_built_index (snd ex_built)).
  vm_compute. reflexivity.
Defined.

(** When an entry is neither a file nor an index, the run raises there: the
    page before it is written, the page after it and the index page are
    not. *)
Example write_bad_tree_aborts :
  fst (fst (write_index_and_rst_files ex_os ex_lexer ex_bad_tree false false ex_fs))
  = Raise (RuntimeError (Msg "Unknown thing in files_to_index: {!r}"
                             [list_ascii_of_string "42"]))
  /\ written (snd (fst (write_index_and_rst_files ex_os ex_lexer ex_bad_tree
                          false false ex_fs)))
     = ["/proj/docs/a/b.py.rst" : str].
Proof. vm_compute. split; reflexivity. Qed.

(** The index built over [/proj/src/**/*] holds the files that are not
    excluded, sorted, each with its page below [/proj/docs]. *)
Example built_index_pages :
  children_pages ex_built_index
  = ["/proj/docs/a/b.py.rst" : str; "/proj/docs/a/junk.tmp.rst" : str].
Proof. vm_compute. reflexivity. Qed.

(** *** Further properties at the small project *)

(** A new page below [/proj/docs] is there after the write, with its text. *)
Lemma write_if_allowed_leaves_the_file_witness :
  exists t fs',
    write_if_allowed ex_os "/proj/docs/new.rst" "text" false false ex_fs = ((Ok tt, t), fs')
    /\ stat ex_os fs' "/proj/docs/new.rst" = Some (File "text").
Proof.
  assert (fst (fst (write_if_allowed ex_os "/proj/docs/new.rst" "text" false false ex_fs))
          = Ok tt) as Hr by (vm_compute; reflexivity).
  destruct (write_if_allowed ex_os "/proj/docs/new.rst" "text" false false ex_fs)
    as [[r t] fs'] eqn:H.
  cbn [fst] in Hr. subst r.
  exists t, fs'. split; [reflexivity|].
  exact (proj1 (write_if_allowed_leaves_the_file ex_os "/proj/docs/new.rst" "text" false
                  ex_fs fs' t H)).
Defined.

(** The pattern [__init__.py] matches [/proj/src/a/__init__.py] by its base
    name. *)
Lemma literal_glob_witness :
  fst (filename_matches_glob ex_charset "/proj/src/a/__init__.py" "__init__.py") = Ok true.
Proof.
  exact (literal_glob_matches_the_name_only ex_charset "/proj/src/a/__init__.py"
           "__init__.py" eq_refl).
Defined.

(** The pattern [*.tmp] matches [/proj/src/a/junk.tmp]. *)
Lemma star_glob_witness :
  fst (filename_matches_glob ex_charset "/proj/src/a/junk.tmp" "*.tmp") = Ok true.
Proof.
  exact (star_glob_matches_the_ending ex_charset "/proj/src/a/junk.tmp" ".tmp" eq_refl).
Defined.

(** The five pages of the tree are different. *)
Lemma written_pages_are_distinct_witness : List.NoDup (pages_in_order ex_tree).
Proof.
  apply (written_pages_are_distinct ex_os ex_lexer ex_tree ex_fs).
  vm_compute. reflexivity.
Defined.

(** The module of [/proj/src/a/b.py] below [/proj] is [src.a.b]. *)
Lemma python_module_name_witness :
  python_module_name ex_os ex_file = (Ok (list_ascii_of_string "src.a.b"), [])
  /\ ~ In posixpath.sep (list_ascii_of_string "src.a.b").
Proof.
  assert (python_module_name ex_os ex_file = (Ok (list_ascii_of_string "src.a.b"), []))
    as H by (vm_compute; reflexivity).
  split; [exact H|].
  exact (proj1 (python_module_name_is_dotted_path ex_os ex_file "src.a.b" [] H)).
Defined.

(** The index page of the tree holds the marker line. *)
Lemma index_content_witness :
  1 <= marker_lines match fst (index_content ex_os ex_tree) with
                    | Ok content => content
                    | Raise _ => []
                    end.
Proof.
  refine (proj2 (proj2 (proj2 (index_content_label_marker_newline ex_os ex_tree _
                                 (snd (index_content ex_os ex_tree)) _)))).
  vm_compute. reflexivity.
Defined.

(** The tree that is written to the end holds files and indexes only. *)
Lemma unknown_entry_witness : all_known ex_tree = true.
Proof.
  apply (unknown_entry_stops_the_write ex_os ex_lexer ex_tree false false ex_fs).
  vm_compute. reflexivity.
Defined.

(** The page of [/proj/src/a/b.py] is a [b.py.rst]. *)
Lemma specific_file_rst_filename_witness :
  posixpath.basename "/proj/docs/a/b.py.rst"
  = posixpath.basename "/proj/src/a/b.py" ++ EXT_RST.
Proof.
  refine (proj1 (specific_file_rst_filename_keeps_basename ex_os
                   (ex_index [] [] "/proj/docs/_index.rst") "/proj/src/a/b.py"
                   "/proj/docs/a/b.py.rst"
                   (snd (specific_file_rst_filename ex_os
                           (ex_index [] [] "/proj/docs/_index.rst") "/proj/src/a/b.py")) _)).
  vm_compute. reflexivity.
Defined.

(** [ex_file] is what the constructor makes of [src/a/b.py] given relative
    to [~/../../proj], and what it makes again of its own attributes. *)
Lemma FileToAutodocument_attributes_witness :
  FileToAutodocument_init ex_os ex_fs "/proj/src/a/b.py" "/proj" "/proj/docs/a/b.py.rst"
    BEST (Some (list_ascii_of_string "/proj")) true (Some ∅) = (Ok ex_file, []).
Proof.
  refine (proj2 (FileToAutodocument_attributes_are_stable ex_os ex_fs
                   "~/../../proj/src/a/./b.py" "/proj/" "../../proj/docs/a/b.py.rst" BEST None
                   true None ex_file [] eq_refl _)).
  vm_compute. reflexivity.
Defined.

(** Paths as the kernel reads them: a file is found from the working
    directory; a file with a slash after its name is no file; a path through
    a directory that is not there names nothing, although [normpath] would
    make it the path of a file that is there. *)
Example paths_as_the_kernel_reads_them :
  isfile ex_os ex_fs "../../proj/notes.txt" = true
  /\ isfile ex_os ex_fs "/proj/notes.txt/" = false
  /\ path_exists ex_os ex_fs "/proj/docs/newdir/../../notes.txt" = false
  /\ posixpath.normpath "/proj/docs/newdir/../../notes.txt" = "/proj/notes.txt"
  /\ path_exists ex_os ex_fs "/proj/notes.txt" = true.
Proof. vm_compute. repeat split. Qed.

(** A write to such a path is no collision: the missing directory is made,
    and the file the path then names is written over. *)
Example write_through_missing_directory :
  let run := write_if_allowed ex_os "/proj/docs/newdir/../../notes.txt" "new"
               false false ex_fs in
  fst (fst run) = Ok tt
  /\ isdir ex_os (snd run) "/proj/docs/newdir" = true
  /\ stat ex_os (snd run) "/proj/notes.txt" = Some (File "new").
Proof. vm_compute. repeat split. Qed.
